(** * Series data pipeline of the charting core (ts/Core/Series/Series.ts)

    A shallow embedding of the data side of [Series]: the parallel arrays,
    [setData] and its turbo path, [sortData], [getProcessedData] and
    [cropData], [generatePoints], [addPoint] / [removePoint] and the k-d tree
    used for pointer lookup, followed by the properties proved about them.

    Conventions of the embedding.
    - A JavaScript number is an integer ([Z]); [NaN] only arises as the result
      of an arithmetic operation and is an absent value ([None]) there.
    - A JavaScript array is a [list]; a hole reads as [Undefined] (arrays of
      values) or as [None] (arrays of points).  Writing past the end extends
      the array, as in JavaScript.
    - [Math.sqrt] is kept symbolic: a distance is [Sqrt r] for the radicand
      [r], and two distances compare as their radicands do.
    - Objects that the code mutates in place (points, sorted option objects)
      live in a store and are named by their position in it. *)

From stdpp Require Import gmap strings list fin_maps sorting.
From Stdlib Require Import ZArith Lia Ascii.

Set Warnings "-register-all".

(** ** JavaScript values *)

Module Js.

Inductive Value :=
| Undefined
| Null
| Num (z : Z)
| Str (s : string)
| Arr (items : list Value)
| Obj (fields : list (string * Value)).

Abbreviation Fields := (list (string * Value)).

(** [U.isNumber], [U.isArray], [U.isString], [U.defined] of Core/Utilities. *)
Definition isNumber (v : Value) : bool :=
  match v with Num _ => true | _ => false end.
Definition isArray (v : Value) : bool :=
  match v with Arr _ => true | _ => false end.
Definition isString (v : Value) : bool :=
  match v with Str _ => true | _ => false end.
Definition defined (v : Value) : bool :=
  match v with Undefined | Null => false | _ => true end.
Definition isUndefined (v : Value) : bool :=
  match v with Undefined => true | _ => false end.

(** [ToNumber]; [None] is [NaN].  Strings, arrays and objects never reach
    arithmetic in the statements below and are taken as [NaN]. *)
Definition toNumber (v : Value) : option Z :=
  match v with
  | Num z => Some z
  | Null => Some 0%Z
  | _ => None
  end.

(** [ToIntegerOrInfinity] as used by the array methods. *)
Definition toInteger (v : Value) : Z := default 0%Z (toNumber v).

(** The relational operators [a < b], [a > b], [a >= b]: false as soon as
    one side is [NaN]; two strings compare as strings. *)
Definition lessThan (a b : Value) : bool :=
  match a, b with
  | Str s, Str t => String.ltb s t
  | _, _ =>
    match toNumber a, toNumber b with
    | Some x, Some y => (x <? y)%Z
    | _, _ => false
    end
  end.
Definition greaterThan (a b : Value) : bool := lessThan b a.
Definition greaterEq (a b : Value) : bool :=
  match a, b with
  | Str s, Str t => String.leb t s
  | _, _ =>
    match toNumber a, toNumber b with
    | Some x, Some y => (y <=? x)%Z
    | _, _ => false
    end
  end.

(** [a - b]. *)
Definition subtract (a b : Value) : option Z :=
  match toNumber a, toNumber b with
  | Some x, Some y => Some (x - y)%Z
  | _, _ => None
  end.

(** Property read and write on an object literal. *)
Fixpoint get (key : string) (o : Fields) : Value :=
  match o with
  | [] => Undefined
  | (k, v) :: o' => if String.eqb k key then v else get key o'
  end.

Fixpoint put (key : string) (v : Value) (o : Fields) : Fields :=
  match o with
  | [] => [(key, v)]
  | (k, w) :: o' =>
    if String.eqb k key then (k, v) :: o' else (k, w) :: put key v o'
  end.

Definition has (key : string) (o : Fields) : bool :=
  existsb (fun kv => String.eqb kv.1 key) o.

(** [extend(a, b)]: copy every property of [b] onto [a]. *)
Definition extend (a b : Fields) : Fields :=
  foldl (fun acc kv => put kv.1 kv.2 acc) a b.

(** *** Arrays *)

Section Arrays.
Context {A : Type} (hole : A).

(** [arr[i]]: a hole or an index past the end reads as [hole]. *)
Definition nth_or_hole (arr : list A) (i : nat) : A := default hole (arr !! i).

(** [arr[i] = v]: in range the slot is overwritten, past the end the array
    is extended and the gap left as holes. *)
Definition array_set (arr : list A) (i : nat) (v : A) : list A :=
  if decide (i < length arr) then <[i := v]> arr
  else arr ++ replicate (i - length arr) hole ++ [v].

(** [arr.length = n] for [n <= arr.length] truncates, otherwise pads. *)
Definition set_length (arr : list A) (n : nat) : list A :=
  take n arr ++ replicate (n - length arr) hole.
End Arrays.

(** Clamping of the [start] argument of [splice] and [slice]. *)
Definition clamp_start (len : nat) (start : Z) : nat :=
  if (start <? 0)%Z then Z.to_nat (Z.max (Z.of_nat len + start) 0)
  else Nat.min (Z.to_nat start) len.

(** [Array.prototype.splice(start, deleteCount, ...items)] on explicit
    numeric arguments: the array that is left. *)
Definition splice {A} (arr : list A) (start deleteCount : Z) (items : list A)
  : list A :=
  let len := length arr in
  let actualStart := clamp_start len start in
  let actualDelete :=
    Nat.min (Z.to_nat (Z.max deleteCount 0)) (len - actualStart) in
  take actualStart arr ++ items ++ drop (actualStart + actualDelete) arr.

(** [Array.prototype.slice(start, end)]. *)
Definition slice {A} (arr : list A) (start stop : Z) : list A :=
  let len := length arr in
  let k := clamp_start len start in
  let final := clamp_start len stop in
  take (final - k) (drop k arr).

(** [Array.prototype.shift], the array that is left. *)
Definition shift {A} (arr : list A) : list A := drop 1 arr.

(** [Array.prototype[method].apply(arr, args)] for the mutating methods: the
    array that is left, or [None] when [method] is not one of them. *)
Definition apply_method (method : string) (args : list Value)
    (arr : list Value) : option (list Value) :=
  if String.eqb method "splice" then
    match args with
    | [] => Some arr
    | [start] =>
      Some (take (clamp_start (length arr) (toInteger start)) arr)
    | start :: deleteCount :: items =>
      Some (splice arr (toInteger start) (toInteger deleteCount) items)
    end
  else if String.eqb method "shift" then Some (shift arr)
  else if String.eqb method "pop" then Some (take (length arr - 1) arr)
  else if String.eqb method "push" then Some (arr ++ args)
  else if String.eqb method "unshift" then Some (args ++ arr)
  else if String.eqb method "reverse" then Some (reverse arr)
  else None.

(** *** Stable sort

    [Array.prototype.sort(comparefn)] is stable.  [precedes a b] is
    [comparefn(a, b) < 0].  The input is consumed from its right end; an
    element goes in front of the first element of the sorted suffix that
    does not strictly precede it, so equal elements keep their order. *)
Section Sort.
Context {A : Type} (precedes : A -> A -> bool).

Fixpoint insert_sorted (a : A) (l : list A) : list A :=
  match l with
  | [] => [a]
  | b :: l' => if precedes b a then b :: insert_sorted a l' else a :: l
  end.

Definition stable_sort (l : list A) : list A := foldr insert_sorted [] l.
End Sort.

End Js.

Import Js.

(** ** Points, axes, options *)

(** The symbolic value of [Math.sqrt(r)], and [Number.MAX_VALUE]. *)
Inductive Distance :=
| Sqrt (r : Z)
| MAX_VALUE.

Definition dist_lt (a b : Distance) : bool :=
  match a, b with
  | Sqrt x, Sqrt y => (x <? y)%Z
  | Sqrt _, MAX_VALUE => true
  | MAX_VALUE, _ => false
  end.

Module Point.
(** The fields of a [Point] that the data pipeline reads and writes.
    [hasElements] stands for the rendered elements of the point (graphic,
    data label), which [destroyElements] releases; [destroyed] is set by
    [destroy]. *)
Record Point := mk {
  options : Value;
  x : Value;
  index : option nat;
  plotX : option Z;
  plotY : option Z;
  clientX : option Z;
  isNull : bool;
  visible : bool;
  hasElements : bool;
  destroyed : bool;
  dist : option Distance;
  distX : option Distance
}.

Definition set_index (i : nat) (p : Point) : Point :=
  mk p.(options) p.(x) (Some i) p.(plotX) p.(plotY) p.(clientX) p.(isNull)
     p.(visible) p.(hasElements) p.(destroyed) p.(dist) p.(distX).

(** [point.destroyElements(); point.plotX = void 0] *)
Definition release (p : Point) : Point :=
  mk p.(options) p.(x) p.(index) None p.(plotY) p.(clientX) p.(isNull)
     p.(visible) false p.(destroyed) p.(dist) p.(distX).

Definition destroy (p : Point) : Point :=
  mk p.(options) p.(x) p.(index) p.(plotX) p.(plotY) p.(clientX) p.(isNull)
     p.(visible) false true p.(dist) p.(distX).

Definition set_dist (d dx : Distance) (p : Point) : Point :=
  mk p.(options) p.(x) p.(index) p.(plotX) p.(plotY) p.(clientX) p.(isNull)
     p.(visible) p.(hasElements) p.(destroyed) (Some d) (Some dx).

(** [point[axis]] for the keys of [kdAxisArray]. *)
Definition axisValue (axis : string) (p : Point) : option Z :=
  if String.eqb axis "clientX" then p.(clientX)
  else if String.eqb axis "plotY" then p.(plotY)
  else if String.eqb axis "plotX" then p.(plotX)
  else None.
End Point.
Abbreviation Point := Point.Point.

(** A point of the store is named by its position in it. *)
#[local] Abbreviation Ref := nat (only parsing).

Module Axis.
Record Axis := mk {
  min : Value;              (* getExtremes().min *)
  max : Value;              (* getExtremes().max *)
  isDirty : bool;
  logarithmic : bool;
  val2lin : Value -> Value;
  minRange : Value;
  userMinRange : Value
}.

Definition resetMinRange (a : Axis) : Axis :=
  mk a.(min) a.(max) a.(isDirty) a.(logarithmic) a.(val2lin)
     a.(userMinRange) a.(userMinRange).
End Axis.
Abbreviation Axis := Axis.Axis.

Module DataSorting.
Record DataSorting := mk {
  enabled : bool;
  matchByName : bool;
  sortKey : option string
}.
End DataSorting.

Module Options.
Record Options := mk {
  data : list Value;
  turboThreshold : option Z;
  cropThreshold : option Z;
  keys : option (list string);
  legendType : option string;
  pointStart : option Z;
  pointInterval : option Z;
  pointIntervalUnit : option string;
  findNearestPointBy : string;
  dataSorting : option DataSorting.DataSorting;
  getExtremesFromAll : bool;
  kdNow : bool
}.

Definition set_data (d : list Value) (o : Options) : Options :=
  mk d o.(turboThreshold) o.(cropThreshold) o.(keys) o.(legendType)
     o.(pointStart) o.(pointInterval) o.(pointIntervalUnit)
     o.(findNearestPointBy) o.(dataSorting) o.(getExtremesFromAll)
     o.(kdNow).

Definition set_turboThreshold (t : option Z) (o : Options) : Options :=
  mk o.(data) t o.(cropThreshold) o.(keys) o.(legendType)
     o.(pointStart) o.(pointInterval) o.(pointIntervalUnit)
     o.(findNearestPointBy) o.(dataSorting) o.(getExtremesFromAll)
     o.(kdNow).
End Options.
Abbreviation Options := Options.Options.

(** The k-d tree; [Leaf] is an absent ([undefined]) node. *)
Inductive KDNode :=
| Leaf
| Node (left : KDNode) (point : Point) (right : KDNode).

Module Chart.
(** What the series uses of its chart: the error channel ([error(code,
    stop, chart)] appends [(code, stop)]), the dirty box flag, the number
    of [redraw] calls issued, [isInsidePlot], and the calendar arithmetic
    of [chart.time]: [addUnits unit t n] is the timestamp reached from [t]
    by adding [n] units of [unit].  [chart.redraw] belongs to the chart and
    is not run: a call is counted, and what the redraw then makes of the
    series (it processes the data and generates the points anew) is not
    part of the state that a call with [redraw] leaves here. *)
Record Chart := mk {
  errors : list (nat * bool);
  isDirtyBox : bool;
  redraws : nat;
  isInsidePlot : option Z -> option Z -> bool;
  addUnits : string -> Z -> Z -> Z
}.

Definition error (code : nat) (stop : bool) (c : Chart) : Chart :=
  mk (c.(errors) ++ [(code, stop)]) c.(isDirtyBox) c.(redraws)
     c.(isInsidePlot) c.(addUnits).
Definition set_isDirtyBox (b : bool) (c : Chart) : Chart :=
  mk c.(errors) b c.(redraws) c.(isInsidePlot) c.(addUnits).
Definition redraw (c : Chart) : Chart :=
  mk c.(errors) c.(isDirtyBox) (S c.(redraws)) c.(isInsidePlot)
     c.(addUnits).
End Chart.
Abbreviation Chart := Chart.Chart.

(** Members of the series that the modelled methods only read.  The values
    of [Series.prototype] are [defaultProto]. *)
Module Proto.
Record Proto := mk {
  parallelArrays : list string;
  requireSorting : bool;
  sorted : bool;
  isCartesian : bool;
  cropShoulder : Z;
  directTouch : bool;
  kdAxisArray : list string;
  toYData : option (Fields -> Value);
  pointArrayMap : option (list string);
  forceCrop : bool;
  getExtremesFromAll : bool;
  hasGroupedData : bool;
  groupAll : bool;          (* options.dataGrouping.groupAll *)
  isSeriesBoosting : bool;
  visible : bool
}.

Definition set_requireSorting (b : bool) (p : Proto) : Proto :=
  mk p.(parallelArrays) b p.(sorted) p.(isCartesian) p.(cropShoulder)
     p.(directTouch) p.(kdAxisArray) p.(toYData) p.(pointArrayMap)
     p.(forceCrop) p.(getExtremesFromAll) p.(hasGroupedData) p.(groupAll)
     p.(isSeriesBoosting) p.(visible).
End Proto.
Abbreviation Proto := Proto.Proto.

Definition defaultProto : Proto :=
  Proto.mk ["x"; "y"] true true true 1 false ["clientX"; "plotY"]
           None None false false false false false true.

(** ** The series *)

Record Series := {
  proto : Proto;
  options : Options;
  dataArrays : gmap string (list Value);   (* series[key + 'Data'] *)
  data : option (list (option Ref));
  points : option (list (option Ref));
  store : list Point;
  processedXData : list Value;
  processedYData : list Value;
  cropped : bool;
  cropStart : nat;
  closestPointRange : option Z;
  basePointRange : option Z;
  xIncrement : option Z;
  pointInterval : option Z;
  isDirty : bool;
  isDirtyData : bool;
  xAxis : option Axis;
  yAxis : option Axis;
  kdTree : KDNode;
  buildingKdTree : bool;
  chart : Chart
}.

Definition set_proto (v : Proto) (s : Series) : Series :=
  {| proto := v; options := s.(options); dataArrays := s.(dataArrays);
     data := s.(data); points := s.(points); store := s.(store);
     processedXData := s.(processedXData);
     processedYData := s.(processedYData); cropped := s.(cropped);
     cropStart := s.(cropStart); closestPointRange := s.(closestPointRange);
     basePointRange := s.(basePointRange); xIncrement := s.(xIncrement);
     pointInterval := s.(pointInterval); isDirty := s.(isDirty);
     isDirtyData := s.(isDirtyData); xAxis := s.(xAxis); yAxis := s.(yAxis);
     kdTree := s.(kdTree); buildingKdTree := s.(buildingKdTree);
     chart := s.(chart) |}.

Definition set_options (v : Options) (s : Series) : Series :=
  {| proto := s.(proto); options := v; dataArrays := s.(dataArrays);
     data := s.(data); points := s.(points); store := s.(store);
     processedXData := s.(processedXData);
     processedYData := s.(processedYData); cropped := s.(cropped);
     cropStart := s.(cropStart); closestPointRange := s.(closestPointRange);
     basePointRange := s.(basePointRange); xIncrement := s.(xIncrement);
     pointInterval := s.(pointInterval); isDirty := s.(isDirty);
     isDirtyData := s.(isDirtyData); xAxis := s.(xAxis); yAxis := s.(yAxis);
     kdTree := s.(kdTree); buildingKdTree := s.(buildingKdTree);
     chart := s.(chart) |}.

Definition set_dataArrays (v : gmap string (list Value)) (s : Series) : Series :=
  {| proto := s.(proto); options := s.(options); dataArrays := v;
     data := s.(data); points := s.(points); store := s.(store);
     processedXData := s.(processedXData);
     processedYData := s.(processedYData); cropped := s.(cropped);
     cropStart := s.(cropStart); closestPointRange := s.(closestPointRange);
     basePointRange := s.(basePointRange); xIncrement := s.(xIncrement);
     pointInterval := s.(pointInterval); isDirty := s.(isDirty);
     isDirtyData := s.(isDirtyData); xAxis := s.(xAxis); yAxis := s.(yAxis);
     kdTree := s.(kdTree); buildingKdTree := s.(buildingKdTree);
     chart := s.(chart) |}.

Definition set_data (v : option (list (option Ref))) (s : Series) : Series :=
  {| proto := s.(proto); options := s.(options); dataArrays := s.(dataArrays);
     data := v; points := s.(points); store := s.(store);
     processedXData := s.(processedXData);
     processedYData := s.(processedYData); cropped := s.(cropped);
     cropStart := s.(cropStart); closestPointRange := s.(closestPointRange);
     basePointRange := s.(basePointRange); xIncrement := s.(xIncrement);
     pointInterval := s.(pointInterval); isDirty := s.(isDirty);
     isDirtyData := s.(isDirtyData); xAxis := s.(xAxis); yAxis := s.(yAxis);
     kdTree := s.(kdTree); buildingKdTree := s.(buildingKdTree);
     chart := s.(chart) |}.

Definition set_points (v : option (list (option Ref))) (s : Series) : Series :=
  {| proto := s.(proto); options := s.(options); dataArrays := s.(dataArrays);
     data := s.(data); points := v; store := s.(store);
     processedXData := s.(processedXData);
     processedYData := s.(processedYData); cropped := s.(cropped);
     cropStart := s.(cropStart); closestPointRange := s.(closestPointRange);
     basePointRange := s.(basePointRange); xIncrement := s.(xIncrement);
     pointInterval := s.(pointInterval); isDirty := s.(isDirty);
     isDirtyData := s.(isDirtyData); xAxis := s.(xAxis); yAxis := s.(yAxis);
     kdTree := s.(kdTree); buildingKdTree := s.(buildingKdTree);
     chart := s.(chart) |}.

Definition set_store (v : list Point) (s : Series) : Series :=
  {| proto := s.(proto); options := s.(options); dataArrays := s.(dataArrays);
     data := s.(data); points := s.(points); store := v;
     processedXData := s.(processedXData);
     processedYData := s.(processedYData); cropped := s.(cropped);
     cropStart := s.(cropStart); closestPointRange := s.(closestPointRange);
     basePointRange := s.(basePointRange); xIncrement := s.(xIncrement);
     pointInterval := s.(pointInterval); isDirty := s.(isDirty);
     isDirtyData := s.(isDirtyData); xAxis := s.(xAxis); yAxis := s.(yAxis);
     kdTree := s.(kdTree); buildingKdTree := s.(buildingKdTree);
     chart := s.(chart) |}.

Definition set_xIncrement (v : option Z) (s : Series) : Series :=
  {| proto := s.(proto); options := s.(options); dataArrays := s.(dataArrays);
     data := s.(data); points := s.(points); store := s.(store);
     processedXData := s.(processedXData);
     processedYData := s.(processedYData); cropped := s.(cropped);
     cropStart := s.(cropStart); closestPointRange := s.(closestPointRange);
     basePointRange := s.(basePointRange); xIncrement := v;
     pointInterval := s.(pointInterval); isDirty := s.(isDirty);
     isDirtyData := s.(isDirtyData); xAxis := s.(xAxis); yAxis := s.(yAxis);
     kdTree := s.(kdTree); buildingKdTree := s.(buildingKdTree);
     chart := s.(chart) |}.

Definition set_pointInterval (v : option Z) (s : Series) : Series :=
  {| proto := s.(proto); options := s.(options); dataArrays := s.(dataArrays);
     data := s.(data); points := s.(points); store := s.(store);
     processedXData := s.(processedXData);
     processedYData := s.(processedYData); cropped := s.(cropped);
     cropStart := s.(cropStart); closestPointRange := s.(closestPointRange);
     basePointRange := s.(basePointRange); xIncrement := s.(xIncrement);
     pointInterval := v; isDirty := s.(isDirty);
     isDirtyData := s.(isDirtyData); xAxis := s.(xAxis); yAxis := s.(yAxis);
     kdTree := s.(kdTree); buildingKdTree := s.(buildingKdTree);
     chart := s.(chart) |}.

Definition set_xAxis (v : option Axis) (s : Series) : Series :=
  {| proto := s.(proto); options := s.(options); dataArrays := s.(dataArrays);
     data := s.(data); points := s.(points); store := s.(store);
     processedXData := s.(processedXData);
     processedYData := s.(processedYData); cropped := s.(cropped);
     cropStart := s.(cropStart); closestPointRange := s.(closestPointRange);
     basePointRange := s.(basePointRange); xIncrement := s.(xIncrement);
     pointInterval := s.(pointInterval); isDirty := s.(isDirty);
     isDirtyData := s.(isDirtyData); xAxis := v; yAxis := s.(yAxis);
     kdTree := s.(kdTree); buildingKdTree := s.(buildingKdTree);
     chart := s.(chart) |}.

Definition set_kdTree (v : KDNode) (s : Series) : Series :=
  {| proto := s.(proto); options := s.(options); dataArrays := s.(dataArrays);
     data := s.(data); points := s.(points); store := s.(store);
     processedXData := s.(processedXData);
     processedYData := s.(processedYData); cropped := s.(cropped);
     cropStart := s.(cropStart); closestPointRange := s.(closestPointRange);
     basePointRange := s.(basePointRange); xIncrement := s.(xIncrement);
     pointInterval := s.(pointInterval); isDirty := s.(isDirty);
     isDirtyData := s.(isDirtyData); xAxis := s.(xAxis); yAxis := s.(yAxis);
     kdTree := v; buildingKdTree := s.(buildingKdTree); chart := s.(chart) |}.

Definition set_buildingKdTree (v : bool) (s : Series) : Series :=
  {| proto := s.(proto); options := s.(options); dataArrays := s.(dataArrays);
     data := s.(data); points := s.(points); store := s.(store);
     processedXData := s.(processedXData);
     processedYData := s.(processedYData); cropped := s.(cropped);
     cropStart := s.(cropStart); closestPointRange := s.(closestPointRange);
     basePointRange := s.(basePointRange); xIncrement := s.(xIncrement);
     pointInterval := s.(pointInterval); isDirty := s.(isDirty);
     isDirtyData := s.(isDirtyData); xAxis := s.(xAxis); yAxis := s.(yAxis);
     kdTree := s.(kdTree); buildingKdTree := v; chart := s.(chart) |}.

Definition set_chart (v : Chart) (s : Series) : Series :=
  {| proto := s.(proto); options := s.(options); dataArrays := s.(dataArrays);
     data := s.(data); points := s.(points); store := s.(store);
     processedXData := s.(processedXData);
     processedYData := s.(processedYData); cropped := s.(cropped);
     cropStart := s.(cropStart); closestPointRange := s.(closestPointRange);
     basePointRange := s.(basePointRange); xIncrement := s.(xIncrement);
     pointInterval := s.(pointInterval); isDirty := s.(isDirty);
     isDirtyData := s.(isDirtyData); xAxis := s.(xAxis); yAxis := s.(yAxis);
     kdTree := s.(kdTree); buildingKdTree := s.(buildingKdTree); chart := v |}.

Definition set_dirty (d dd : bool) (s : Series) : Series :=
  {| proto := s.(proto); options := s.(options); dataArrays := s.(dataArrays);
     data := s.(data); points := s.(points); store := s.(store);
     processedXData := s.(processedXData);
     processedYData := s.(processedYData); cropped := s.(cropped);
     cropStart := s.(cropStart); closestPointRange := s.(closestPointRange);
     basePointRange := s.(basePointRange); xIncrement := s.(xIncrement);
     pointInterval := s.(pointInterval); isDirty := d; isDirtyData := dd;
     xAxis := s.(xAxis); yAxis := s.(yAxis); kdTree := s.(kdTree);
     buildingKdTree := s.(buildingKdTree); chart := s.(chart) |}.

Definition set_processed (xs ys : list Value) (c : bool) (cs : nat) (cpr : option Z) (s : Series) : Series :=
  {| proto := s.(proto); options := s.(options); dataArrays := s.(dataArrays);
     data := s.(data); points := s.(points); store := s.(store);
     processedXData := xs; processedYData := ys; cropped := c;
     cropStart := cs; closestPointRange := cpr; basePointRange := cpr;
     xIncrement := s.(xIncrement); pointInterval := s.(pointInterval);
     isDirty := s.(isDirty); isDirtyData := s.(isDirtyData);
     xAxis := s.(xAxis); yAxis := s.(yAxis); kdTree := s.(kdTree);
     buildingKdTree := s.(buildingKdTree); chart := s.(chart) |}.

(** [series[key + 'Data']].  [init] allocates one array per key of
    [parallelArrays], so the read of a declared key finds an array. *)
Definition dataOf (key : string) (s : Series) : list Value :=
  default [] (s.(dataArrays) !! key).
Definition xData (s : Series) : list Value := dataOf "x" s.
Definition yData (s : Series) : list Value := dataOf "y" s.

(** [series[key + 'Data'][i] = val] *)
Definition writeData (key : string) (i : nat) (val : Value) (s : Series)
  : Series :=
  set_dataArrays
    (<[key := array_set Undefined (dataOf key s) i val]> s.(dataArrays)) s.

(** What a method hands back: the series as the call left it, after a normal
    return or after an exception. *)
Inductive Outcome :=
| Returned (s : Series)
| Thrown (s : Series).

Definition stateOf (o : Outcome) : Series :=
  match o with Returned s | Thrown s => s end.

(** *** updateParallelArrays *)

(** The second argument of [updateParallelArrays]: a numeric index, or the
    name of an array method, which is then applied with the remaining
    arguments. *)
Inductive ArrayIndex :=
| AtIndex (i : nat)
| Method (name : string).

Definition updateParallelArrays (point : Fields) (i : ArrayIndex)
    (args : list Value) (s : Series) : Series :=
  let fn (s : Series) (key : string) : Series :=
    match i with
    | AtIndex n =>
      let val :=
        match String.eqb key "y", s.(proto).(Proto.toYData) with
        | true, Some toYData => toYData point
        | _, _ => get key point
        end in
      writeData key n val s
    | Method name =>
      match apply_method name args (dataOf key s) with
      | Some arr => set_dataArrays (<[key := arr]> s.(dataArrays)) s
      | None => s
      end
    end in
  foldl fn s s.(proto).(Proto.parallelArrays).

(** *** autoIncrement *)

Definition isCalendarUnit (u : string) : bool :=
  String.eqb u "day" || String.eqb u "month" || String.eqb u "year".

(** [autoIncrement()]: the x returned and the series with its new cursor.
    With a unit that is not a calendar unit the date is left as it was made,
    and [date.getTime() - xIncrement] is zero.  Numbers are integers here;
    the code adds doubles and makes a [Date] of [xIncrement], which agrees
    with the integers as long as the values stay within [2 ^ 53] in absolute
    value and, where a unit is given, within the time values of a [Date]. *)
Definition autoIncrement (s : Series) : Z * Series :=
  let o := s.(options) in
  let xInc := default (default 0%Z o.(Options.pointStart)) s.(xIncrement) in
  let pInt :=
    default (default 1%Z o.(Options.pointInterval)) s.(pointInterval) in
  let step :=
    match o.(Options.pointIntervalUnit) with
    | Some u =>
      if String.eqb u "" then pInt
      else
        let time :=
          if isCalendarUnit u then s.(chart).(Chart.addUnits) u xInc pInt
          else xInc in
        (time - xInc)%Z
    | None => pInt
    end in
  (xInc, set_xIncrement (Some (xInc + step)%Z) (set_pointInterval (Some pInt) s)).

(** *** Point options *)

(** Modelled from the spec: [Point.optionsToObject] (Core/Series/Point.ts is
    not among the sources).  A single number is the y value of the point, an
    array is read as x and y in that order (a leading string is the name), an
    object is taken as it is. *)
Definition optionsToObject (o : Value) : Fields :=
  match o with
  | Num _ | Null => [("y", o)]
  | Arr [] => [("y", Undefined)]
  | Arr [y] => [("y", y)]
  | Arr (Num x :: y :: _) => [("x", Num x); ("y", y)]
  | Arr (Str n :: y :: _) => [("name", Str n); ("y", y)]
  | Arr (_ :: y :: _) => [("y", y)]
  | Obj f => f
  | _ => []
  end.

(** Modelled from the spec: [Point.applyOptions] on a fresh point
    [{ series }]: the options object is copied onto the point, and a point
    that was given no x takes the next auto-incremented one. *)
Definition applyOptions (o : Value) (s : Series) : Fields * Series :=
  let point := extend [] (optionsToObject o) in
  if isUndefined (get "x" point) then
    let '(x, s') := autoIncrement s in (put "x" (Num x) point, s')
  else (point, s).

(** *** getFirstValidPoint *)

Fixpoint getFirstValidPoint (entries : list Value) : Value :=
  match entries with
  | [] => Null
  | Null :: rest => getFirstValidPoint rest
  | v :: _ => v
  end.

(** *** sortData *)

(** [(defined(pointOptions) && optionsToObject(pointOptions)) || {}] *)
Definition getPointOptionsObject (o : Value) : Fields :=
  if defined o then optionsToObject o else [].

(** [dataSorting.sortKey || 'y'] *)
Definition sortKeyOf (s : Series) : string :=
  match s.(options).(Options.dataSorting) with
  | Some ds =>
    match ds.(DataSorting.sortKey) with
    | Some k => if String.eqb k "" then "y" else k
    | None => "y"
    end
  | None => "y"
  end.

(** The option objects after the first [forEach]: entry [i] turned into an
    object and given [index = i].  This list is the store of the objects that
    [data] and [sortedData] share; an object is named by its position.  Every
    entry is its own object. *)
Definition sortObjects (entries : list Value) : list Fields :=
  imap (fun i o => put "index" (Num (Z.of_nat i)) (getPointOptionsObject o))
       entries.

(** [comparefn(a, b) < 0] for the comparison function of [sortData]:
    [bValue < aValue ? -1 : bValue > aValue ? 1 : 0] on
    [getNestedProperty(sortKey, _)], for a key without dots. *)
Definition sortPrecedes (sortKey : string) (objs : list Fields) (a b : Ref)
  : bool :=
  lessThan (get sortKey (default [] (objs !! b)))
           (get sortKey (default [] (objs !! a))).

(** [data.concat().sort(...)], as references into [sortObjects]. *)
Definition sortedRefs (entries : list Value) (s : Series) : list Ref :=
  let objs := sortObjects entries in
  stable_sort (sortPrecedes (sortKeyOf s) objs) (seq 0 (length objs)).

(** [sortedData.forEach((point, i) => point.x = i)] on the shared objects. *)
Definition assignX (refs : list Ref) (objs : list Fields) : list Fields :=
  foldl (fun st ir => alter (put "x" (Num (Z.of_nat ir.1))) ir.2 st)
        objs (imap pair refs).

(** The objects once [sortData] is done, in the order of [data]. *)
Definition sortedStore (entries : list Value) (s : Series) : list Fields :=
  assignX (sortedRefs entries s) (sortObjects entries).


(** [sortData] returns [data], not [sortedData].  The propagation to linked
    series is left out: the series is modelled on its own. *)
Definition sortData (entries : list Value) (s : Series) : list Value :=
  Obj <$> sortedStore entries s.

(** *** cropData *)

Module CropData.
Record CropDataObject := mk {
  xData : list Value;
  yData : list Value;
  start : Z;
  stop : Z                    (* [end] *)
}.
End CropData.

(** A [for] loop that leaves at the first index whose element satisfies
    [p]: the index reached, and whether the loop left through [break].
    [arr] is the part of the array from [i] on. *)
Fixpoint scanFrom (p : Value -> bool) (i : nat) (arr : list Value)
  : nat * bool :=
  match arr with
  | [] => (i, false)
  | v :: rest => if p v then (i, true) else scanFrom p (S i) rest
  end.

Definition cropData (xs ys : list Value) (min max : Value)
    (cropShoulder : option Z) (s : Series) : CropData.CropDataObject :=
  let dataLength := length xs in
  let shoulder := default s.(proto).(Proto.cropShoulder) cropShoulder in
  let '(i, found) := scanFrom (fun v => greaterEq v min) 0 xs in
  let cropStart :=
    if found then Z.max 0 (Z.of_nat i - shoulder) else 0%Z in
  let '(j, found') := scanFrom (fun v => greaterThan v max) i (drop i xs) in
  let cropEnd :=
    if found' then (Z.of_nat j + shoulder)%Z else Z.of_nat dataLength in
  CropData.mk (slice xs cropStart cropEnd) (slice ys cropStart cropEnd)
              cropStart cropEnd.

(** *** getProcessedData *)

Module Processed.
Record ProcessedDataObject := mk {
  xData : list Value;
  yData : list Value;
  cropped : bool;              (* [true] or [undefined] *)
  cropStart : Z;
  closestPointRange : option Z
}.
End Processed.

(** The state of the closest-distance loop: [closestPointRange],
    [throwOnUnsorted] and the chart that receives the warning. *)
Definition ClosestState : Type := option Z * bool * Chart.

(** [distance] at index [i] of the loop; [None] is [NaN]. *)
Definition distanceAt (isLog : bool) (val2lin : Value -> Value)
    (xs : list Value) (i : nat) : option Z :=
  let xi := nth_or_hole Undefined xs i in
  let xp := nth_or_hole Undefined xs (i - 1) in
  if isLog then subtract (val2lin xi) (val2lin xp) else subtract xi xp.

Definition closestStep (isLog : bool) (val2lin : Value -> Value)
    (xs : list Value) (i : nat) (st : ClosestState) : ClosestState :=
  let '(closest, throwOnUnsorted, c) := st in
  match distanceAt isLog val2lin xs i with
  | Some d =>
    if (0 <? d)%Z &&
       match closest with None => true | Some cl => (d <? cl)%Z end
    then (Some d, throwOnUnsorted, c)
    else if (d <? 0)%Z && throwOnUnsorted
    then (closest, false, Chart.error 15 false c)
    else st
  | None => st
  end.

(** [while (--i) { ... }]: the body runs for [i], [i - 1], ..., [1]. *)
Fixpoint closestLoop (isLog : bool) (val2lin : Value -> Value)
    (xs : list Value) (i : nat) (st : ClosestState) : ClosestState :=
  match i with
  | 0 => st
  | S k => closestLoop isLog val2lin xs k (closestStep isLog val2lin xs i st)
  end.

Definition cropGate (forceExtremesFromAll : bool) (s : Series) : bool :=
  let getExtremesFromAll :=
    forceExtremesFromAll || s.(proto).(Proto.getExtremesFromAll)
    || s.(options).(Options.getExtremesFromAll) in
  let dataLength := Z.of_nat (length (xData s)) in
  s.(proto).(Proto.isCartesian) && s.(proto).(Proto.sorted)
  && negb getExtremesFromAll
  && (match s.(options).(Options.cropThreshold) with
      | None => true
      | Some t => (t =? 0)%Z || (t <? dataLength)%Z
      end
      || s.(proto).(Proto.forceCrop)).

(** [xAxis.getExtremes()], [undefined] without an axis. *)
Definition extremesMin (s : Series) : Value :=
  match s.(xAxis) with Some a => a.(Axis.min) | None => Undefined end.
Definition extremesMax (s : Series) : Value :=
  match s.(xAxis) with Some a => a.(Axis.max) | None => Undefined end.

(** [processedXData[0]] and [processedXData[dataLength - 1]] before
    cropping. *)
Definition firstX (s : Series) : Value := nth_or_hole Undefined (xData s) 0.
Definition lastX (s : Series) : Value :=
  nth_or_hole Undefined (xData s) (length (xData s) - 1).

(** "it's outside current extremes" *)
Definition outsideExtremes (s : Series) : bool :=
  lessThan (lastX s) (extremesMin s) || greaterThan (firstX s) (extremesMax s).

(** "only crop if it's actually spilling out" *)
Definition spillsOut (s : Series) : bool :=
  bool_decide (is_Some (s.(dataArrays) !! "y"))
  && (lessThan (firstX s) (extremesMin s)
      || greaterThan (lastX s) (extremesMax s)).

Definition axisIsLog (s : Series) : bool :=
  match s.(xAxis) with Some a => a.(Axis.logarithmic) | None => false end.
Definition axisVal2lin (s : Series) : Value -> Value :=
  match s.(xAxis) with Some a => a.(Axis.val2lin) | None => id end.

Definition getProcessedData (forceExtremesFromAll : bool) (s : Series)
  : Processed.ProcessedDataObject * Series :=
  let xs := xData s in
  let ys := yData s in
  let '(pxs, pys, isCropped, start) :=
    if cropGate forceExtremesFromAll s then
      if outsideExtremes s then ([], [], false, 0%Z)
      else if spillsOut s then
        let c := cropData xs ys (extremesMin s) (extremesMax s) None s in
        (c.(CropData.xData), c.(CropData.yData), true, c.(CropData.start))
      else (xs, ys, false, 0%Z)
    else (xs, ys, false, 0%Z) in
  let '(closest, _, c) :=
    closestLoop (axisIsLog s) (axisVal2lin s) pxs (length pxs - 1)
                (None, s.(proto).(Proto.requireSorting), s.(chart)) in
  (Processed.mk pxs pys isCropped start closest, set_chart c s).

(** *** processData *)

Definition axisIsDirty (a : option Axis) : bool :=
  match a with Some a => a.(Axis.isDirty) | None => false end.

Definition processData (force : bool) (s : Series) : Series :=
  if s.(proto).(Proto.isCartesian) && negb s.(isDirty)
     && negb (axisIsDirty s.(xAxis)) && negb (axisIsDirty s.(yAxis))
     && negb force
  then s
  else
    let '(p, s') := getProcessedData false s in
    set_processed p.(Processed.xData) p.(Processed.yData)
                  p.(Processed.cropped) (Z.to_nat p.(Processed.cropStart))
                  p.(Processed.closestPointRange) s'.

(** *** generatePoints *)

(** Modelled from the spec: [(new PointClass()).init(series, options, x)]
    (Core/Series/Point.ts is not among the sources): a fresh point built from
    its raw options, not yet translated and not yet rendered. *)
Definition newPoint (o : Value) (xv : Value) : Point :=
  let obj := optionsToObject o in
  let px := if isUndefined (get "x" obj) then xv else get "x" obj in
  Point.mk o px None None None None (negb (isNumber (get "y" obj))) true
           false false None None.

(** [splat(y)] *)
Definition splat (v : Value) : list Value :=
  match v with Arr l => l | _ => [v] end.

(** The arrays that the main loop of [generatePoints] works on: [data],
    the point store and the new [points]. *)
Definition GenState : Type := list (option Ref) * list Point * list (option Ref).

Definition generateStep (s : Series) (i : nat) (xv yv : Value)
    (st : GenState) : GenState :=
  let '(dat, sto, pts) := st in
  let dataOptions := s.(options).(Options.data) in
  let cursor := s.(cropStart) + i in
  if negb s.(proto).(Proto.hasGroupedData) then
    let '(dat, sto, point) :=
      match nth_or_hole None dat cursor with
      | Some r => (dat, sto, Some r)
      | None =>
        if negb (isUndefined (nth_or_hole Undefined dataOptions cursor)) then
          let r := length sto in
          (array_set None dat cursor (Some r),
           sto ++ [newPoint (nth_or_hole Undefined dataOptions cursor) xv],
           Some r)
        else (dat, sto, None)
      end in
    match point with
    | Some r =>
      (dat, alter (Point.set_index cursor) r sto, array_set None pts i (Some r))
    | None => (dat, sto, pts)
    end
  else
    (* a point synthesized from the processed arrays; the group metadata of
       the data grouping module is not part of the model *)
    let groupCropStartIndex :=
      if s.(proto).(Proto.groupAll) then s.(cropStart) else 0 in
    let r := length sto in
    (dat,
     sto ++ [Point.set_index (groupCropStartIndex + i)
                             (newPoint (Arr (xv :: splat yv)) Undefined)],
     array_set None pts i (Some r)).

Fixpoint generateLoop (s : Series) (i : nat) (xs : list Value)
    (st : GenState) : GenState :=
  match xs with
  | [] => st
  | xv :: rest =>
    generateLoop s (S i) rest
      (generateStep s i xv (nth_or_hole Undefined s.(processedYData) i) st)
  end.

(** The loop that hides the cropped-away points:
    [for (i = 0; i < dataLength; i++) { if (i === cropStart &&
    !hasGroupedData) { i += processedDataLength; } if (data[i]) { ... } }].
    Each round advances [i] by at least one, so [dataLength] rounds are
    enough; [fuel] counts them. *)
Fixpoint hideLoop (fuel : nat) (grouped : bool) (cropStart pdl : nat)
    (dat : list (option Ref)) (i : nat) (sto : list Point) : list Point :=
  match fuel with
  | 0 => sto
  | S fuel' =>
    if decide (i < length dat) then
      let i' :=
        if bool_decide (i = cropStart) && negb grouped then i + pdl else i in
      let sto' :=
        match nth_or_hole None dat i' with
        | Some r => alter Point.release r sto
        | None => sto
        end in
      hideLoop fuel' grouped cropStart pdl dat (S i') sto'
    else sto
  end.

Definition generatePoints (s : Series) : Series :=
  let dataOptions := s.(options).(Options.data) in
  let pdl := length s.(processedXData) in
  let grouped := s.(proto).(Proto.hasGroupedData) in
  let data0 :=
    match s.(data) with
    | None =>
      if negb grouped then Some (replicate (length dataOptions) None)
      else None
    | Some d => Some d
    end in
  let '(dat, sto, pts) :=
    generateLoop s 0 s.(processedXData) (default [] data0, s.(store), []) in
  let sto :=
    match data0 with
    | Some _ =>
      if negb (bool_decide (pdl = length dat)) || grouped then
        hideLoop (length dat) grouped s.(cropStart) pdl dat 0 sto
      else sto
    | None => sto
    end in
  set_points (Some pts)
    (set_store sto (set_data (match data0 with Some _ => Some dat | None => None end) s)).

(** *** removePoint *)

(** [i] is the index of the point in [series.data].  A point that exists is
    removed through its [remove] event, whose default handler is the local
    [remove] function; no handler that prevents the default is registered.
    [setAnimation] only concerns the chart. *)
Definition removePoint (i : nat) (redraw : bool) (s : Series) : Outcome :=
  match s.(data) with
  | None => Thrown s
  | Some dat =>
    let point := nth_or_hole None dat i in
    let s :=
      match s.(points) with
      | Some pts =>
        if bool_decide (length pts = length dat) then (* #4935 *)
          set_points (Some (splice pts (Z.of_nat i) 1 [])) s
        else s
      | None => s
      end in
    let s := set_data (Some (splice dat (Z.of_nat i) 1 [])) s in
    let s :=
      set_options
        (Options.set_data
           (splice s.(options).(Options.data) (Z.of_nat i) 1 []) s.(options))
        s in
    let s :=
      updateParallelArrays [] (Method "splice")
                           [Num (Z.of_nat i); Num 1] s in
    let s :=
      match point with
      | Some r => set_store (alter Point.destroy r s.(store)) s
      | None => s
      end in
    let s := set_dirty true true s in
    Returned (if redraw then set_chart (Chart.redraw s.(chart)) s else s)
  end.

(** *** addPoint *)

(** [while (i && xData[i - 1] > x) { i--; }] *)
Fixpoint scanBack (xv : Value) (xs : list Value) (i : nat) : nat :=
  match i with
  | 0 => 0
  | S k =>
    if greaterThan (nth_or_hole Undefined xs k) xv then scanBack xv xs k
    else i
  end.

(** The insertion point, and [isInTheMiddle]. *)
Definition insertionIndex (xv : Value) (s : Series) : nat * bool :=
  let xs := xData s in
  let i := length xs in
  if s.(proto).(Proto.requireSorting)
     && lessThan xv (nth_or_hole Undefined xs (i - 1))
  then (scanBack xv xs i, true)
  else (i, false).

(** The category names of the axis and the [addPoint] event are left out;
    [data[0].remove(false)] of the shift branch is [removePoint] at index 0
    without redraw. *)
Definition addPoint (o : Value) (redraw shift : bool) (s : Series)
  : Outcome :=
  let data0 := s.(data) in
  let '(point, s) := applyOptions o s in
  let xv := get "x" point in
  let '(i, isInTheMiddle) := insertionIndex xv s in
  let iv := Num (Z.of_nat i) in
  let s := updateParallelArrays point (Method "splice") [iv; Num 0; Num 0] s in
  let s := updateParallelArrays point (AtIndex i) [] s in
  let s :=
    set_options
      (Options.set_data
         (splice s.(options).(Options.data) (Z.of_nat i) 0 [o]) s.(options))
      s in
  let middle : Outcome :=
    if isInTheMiddle then
      match s.(data) with
      | None => Thrown s
      | Some dat =>
        Returned
          (processData false
             (set_data (Some (splice dat (Z.of_nat i) 0 [None])) s))
      end
    else Returned s in
  match middle with
  | Thrown s => Thrown s
  | Returned s =>
    let s :=
      if bool_decide (s.(options).(Options.legendType) = Some "point")
      then generatePoints s else s in
    let shifted : Outcome :=
      if shift then
        match data0, s.(data) with
        | None, _ | _, None => Thrown s
        | Some _, Some dat =>
          match nth_or_hole None dat 0 with
          | Some _ => removePoint 0 false s
          | None =>
            let s := set_data (Some (Js.shift dat)) s in
            let s := updateParallelArrays point (Method "shift") [] s in
            Returned
              (set_options
                 (Options.set_data (Js.shift s.(options).(Options.data))
                                   s.(options)) s)
          end
        end
      else Returned s in
    match shifted with
    | Thrown s => Thrown s
    | Returned s =>
      let s := set_dirty true true s in
      Returned (if redraw then set_chart (Chart.redraw s.(chart)) s else s)
    end
  end.

(** *** setData *)

(** [pt[k]] for an entry that the turbo path takes for an array.  Of an
    entry that is [null] or [undefined] the code cannot read an element (a
    TypeError); the definition is for entries that are arrays. *)
Definition entryAt (pt : Value) (k : nat) : Value :=
  match pt with Arr l => nth_or_hole Undefined l k | _ => Undefined end.

(** [pt.slice(1, valueCount + 1)], for an entry that is an array as well:
    the code cannot call [slice] of [null], [undefined], a number or an
    object (a TypeError). *)
Definition entrySlice (pt : Value) (valueCount : nat) : Value :=
  match pt with
  | Arr l => Arr (slice l 1 (Z.of_nat valueCount + 1))
  | _ => Undefined
  end.

(** [keys.indexOf(k)], [-1] when absent. *)
Fixpoint indexOf (k : string) (keys : list string) : Z :=
  match keys with
  | [] => (-1)%Z
  | k' :: rest =>
    if String.eqb k' k then 0%Z
    else let r := indexOf k rest in if (r <? 0)%Z then r else (r + 1)%Z
  end.

(** The four loops of [setData]; [i] is the loop variable and [entries] the
    part of [data] from [i] on. *)
Fixpoint turboNumbers (i : nat) (entries : list Value) (s : Series) : Series :=
  match entries with
  | [] => s
  | v :: rest =>
    let '(xv, s) := autoIncrement s in
    turboNumbers (S i) rest (writeData "y" i v (writeData "x" i (Num xv) s))
  end.

Fixpoint turboTuples (valueCount : nat) (i : nat) (entries : list Value)
    (s : Series) : Series :=
  match entries with
  | [] => s
  | pt :: rest =>
    turboTuples valueCount (S i) rest
      (writeData "y" i (entrySlice pt valueCount)
                 (writeData "x" i (entryAt pt 0) s))
  end.

Fixpoint turboPairs (indexOfX indexOfY : nat) (i : nat)
    (entries : list Value) (s : Series) : Series :=
  match entries with
  | [] => s
  | pt :: rest =>
    turboPairs indexOfX indexOfY (S i) rest
      (writeData "y" i (entryAt pt indexOfY)
                 (writeData "x" i (entryAt pt indexOfX) s))
  end.

Fixpoint genericPoints (i : nat) (entries : list Value) (s : Series)
  : Series :=
  match entries with
  | [] => s
  | v :: rest =>
    genericPoints (S i) rest
      (if isUndefined v then s
       else
         let '(pt, s) := applyOptions v s in
         updateParallelArrays pt (AtIndex i) [] s)
  end.

(** The conversion of [data] into the parallel arrays. *)
Definition fillParallelArrays (entries : list Value) (s : Series) : Series :=
  let dataLength := Z.of_nat (length entries) in
  let turbo :=
    match s.(options).(Options.turboThreshold) with
    | Some t => negb (t =? 0)%Z && (t <? dataLength)%Z
    | None => false
    end in
  if turbo then
    let firstPoint := getFirstValidPoint entries in
    if isNumber firstPoint then turboNumbers 0 entries s
    else if isArray firstPoint then
      match s.(proto).(Proto.pointArrayMap) with
      | Some (k :: ks) => turboTuples (length (k :: ks)) 0 entries s
      | _ =>
        let '(indexOfX, indexOfY) :=
          match s.(options).(Options.keys) with
          | Some keys =>
            let ix := indexOf "x" keys in
            let iy := indexOf "y" keys in
            (if (0 <=? ix)%Z then Z.to_nat ix else 0,
             if (0 <=? iy)%Z then Z.to_nat iy else 1)
          | None => (0, 1)
          end in
        turboPairs indexOfX indexOfY 0 entries s
      end
    else set_chart (Chart.error 12 false s.(chart)) s
  else genericPoints 0 entries s.

Section SetData.
(** [updateData] goes through [Point.update] and [Point.remove], which are
    not among the sources; the soft update is a parameter: it returns
    whether it succeeded and the series it left. *)
Variable updateData : list Value -> Series -> bool * Series.

Definition softUpdateGate (dataLength : nat) (updatePoints : bool)
    (s : Series) : bool :=
  let oldDataLength :=
    match s.(points) with Some l => length l | None => 0 end in
  updatePoints && negb (bool_decide (dataLength = 0))
  && negb (bool_decide (oldDataLength = 0))
  && negb s.(cropped) && negb s.(proto).(Proto.hasGroupedData)
  && s.(proto).(Proto.visible) && negb s.(proto).(Proto.isSeriesBoosting).

Definition sortingEnabled (s : Series) : bool :=
  match s.(options).(Options.dataSorting) with
  | Some ds => ds.(DataSorting.enabled)
  | None => false
  end.

(** The end of [setData], after the [if (!updatedData)] block. *)
Definition finishSetData (redraw : bool) (s : Series) : Series :=
  let s :=
    if bool_decide (s.(options).(Options.legendType) = Some "point")
    then generatePoints (processData false s) else s in
  if redraw then set_chart (Chart.redraw s.(chart)) s else s.

Definition setData (entries : list Value) (redraw updatePoints : bool)
    (s : Series) : Outcome :=
  let oldData := s.(points) in
  let dataLength := length entries in
  let entries := if sortingEnabled s then sortData entries s else entries in
  let '(updatedData, s) :=
    if softUpdateGate dataLength updatePoints s then updateData entries s
    else (false, s) in
  if updatedData then Returned (finishSetData redraw s)
  else
    (* reset properties and the parallel arrays *)
    let s := set_xIncrement None s in
    let s :=
      foldl (fun s key => set_dataArrays (<[key := []]> s.(dataArrays)) s)
            s s.(proto).(Proto.parallelArrays) in
    let s := fillParallelArrays entries s in
    if isString (nth_or_hole Undefined (yData s) 0)
    then Thrown (set_chart (Chart.error 14 true s.(chart)) s)
    else
      let s := set_data (Some []) s in
      let s := set_options (Options.set_data entries s.(options)) s in
      (* destroy old points *)
      let s :=
        set_store
          (foldr (fun r sto =>
                    match r with
                    | Some r => alter Point.destroy r sto
                    | None => sto
                    end) s.(store) (default [] oldData)) s in
      let s := set_xAxis (Axis.resetMinRange <$> s.(xAxis)) s in
      let s := set_chart (Chart.set_isDirtyBox true s.(chart)) s in
      let s := set_dirty true (bool_decide (is_Some oldData)) s in
      Returned (finishSetData redraw s).
End SetData.

(** *** The k-d tree *)

(** [findNearestPointBy.indexOf('y') > -1 ? 2 : 1] *)
Fixpoint containsY (str : string) : bool :=
  match str with
  | EmptyString => false
  | String c rest => Ascii.eqb c "y"%char || containsY rest
  end.

Definition kdDimensions (s : Series) : nat :=
  if containsY s.(options).(Options.findNearestPointBy) then 2 else 1.

(** [series.kdAxisArray[depth % dimensions]] *)
Definition kdAxis (s : Series) (depth dimensions : nat) : string :=
  default "" (s.(proto).(Proto.kdAxisArray) !! (depth mod dimensions)).

(** [comparefn(a, b) < 0] for [a[axis] - b[axis]]; a [NaN] difference
    counts as zero. *)
Definition kdPrecedes (axis : string) (a b : Point) : bool :=
  match Point.axisValue axis a, Point.axisValue axis b with
  | Some u, Some v => (u - v <? 0)%Z
  | _, _ => false
  end.

(** [_kdtree] of [buildKDTree].  Both recursive calls are on strictly
    shorter slices, so a depth of [points.length] is never exhausted;
    [fuel] is that depth. *)
Fixpoint kdtreeRec (fuel : nat) (s : Series) (pts : list Point)
    (depth dimensions : nat) : KDNode :=
  match fuel with
  | 0 => Leaf
  | S fuel' =>
    match pts with
    | [] => Leaf
    | _ :: _ =>
      let axis := kdAxis s depth dimensions in
      let sorted := stable_sort (kdPrecedes axis) pts in
      let median := length sorted / 2 in
      match sorted !! median with
      | Some point =>
        Node (kdtreeRec fuel' s (take median sorted) (depth + 1) dimensions)
             point
             (kdtreeRec fuel' s (drop (median + 1) sorted) (depth + 1)
                        dimensions)
      | None => Leaf
      end
    end
  end.

Definition _kdtree (s : Series) (pts : list Point) (depth dimensions : nat)
  : KDNode :=
  kdtreeRec (length pts) s pts depth dimensions.

(** The points of [series.points], read from the store. *)
Definition pointsOf (s : Series) : list Point :=
  omap (fun r => r ≫= (s.(store) !!.)) (default [] s.(points)).

(** [getValidPoints(points, insideOnly, allowNull)] *)
Definition getValidPoints (pts : option (list Point))
    (insideOnly allowNull : bool) (s : Series) : list Point :=
  List.filter
    (fun p =>
       if insideOnly
          && negb (s.(chart).(Chart.isInsidePlot) p.(Point.plotX)
                                                 p.(Point.plotY))
       then false
       else p.(Point.visible) && (allowNull || negb p.(Point.isNull)))
    (default (pointsOf s) pts).

(** [startRecursive] of [buildKDTree] *)
Definition startRecursive (s : Series) : Series :=
  let dimensions := kdDimensions s in
  set_buildingKdTree false
    (set_kdTree
       (_kdtree s
          (getValidPoints None (negb s.(proto).(Proto.directTouch)) false s)
          dimensions dimensions) s).

(** [buildKDTree(e)]; [touchstart] is [e && e.type === 'touchstart'].
    [syncTimeout(fn, 0)] calls [fn] at once; with a delay of one the series
    is left with the build pending, and the timer runs [startRecursive]
    later. *)
Definition buildKDTree (touchstart : bool) (s : Series) : Series :=
  let s := set_kdTree Leaf (set_buildingKdTree true s) in
  if s.(options).(Options.kdNow) || touchstart then startRecursive s else s.

Module KDSearch.
Record KDPointSearchObject := mk {
  clientX : option Z;
  plotY : option Z
}.

Definition axisValue (axis : string) (q : KDPointSearchObject) : option Z :=
  if String.eqb axis "clientX" then q.(clientX)
  else if String.eqb axis "plotY" then q.(plotY)
  else None.
End KDSearch.
Abbreviation KDPointSearchObject := KDSearch.KDPointSearchObject.

(** [setDistance(p1, p2)]: the squared difference along an axis is [null]
    unless both values are defined. *)
Definition squaredDiff (a b : option Z) : option Z :=
  match a, b with
  | Some u, Some v => Some ((u - v) * (u - v))%Z
  | _, _ => None
  end.

Definition setDistance (s : Series) (p1 : KDPointSearchObject) (p2 : Point)
  : Point :=
  let kdX := default "" (s.(proto).(Proto.kdAxisArray) !! 0) in
  let kdY := default "" (s.(proto).(Proto.kdAxisArray) !! 1) in
  let dx := squaredDiff (KDSearch.axisValue kdX p1) (Point.axisValue kdX p2) in
  let dy := squaredDiff (KDSearch.axisValue kdY p1) (Point.axisValue kdY p2) in
  let r := (default 0 dx + default 0 dy)%Z in
  Point.set_dist (Sqrt r)
                 (match dx with Some v => Sqrt v | None => MAX_VALUE end) p2.

(** [point[kdComparer]] *)
Definition kdComparer (compareX : bool) (p : Point) : option Distance :=
  if compareX then p.(Point.distX) else p.(Point.dist).

(** [a < b] on two distances that may be [undefined]. *)
Definition distanceLt (a b : option Distance) : bool :=
  match a, b with
  | Some u, Some v => dist_lt u v
  | _, _ => false
  end.

(** [_search] of [searchKDTree]; [None] only on an absent node, on which
    the code never calls it. *)
Fixpoint _search (s : Series) (compareX : bool) (search : KDPointSearchObject)
    (tree : KDNode) (depth dimensions : nat) : option Point :=
  match tree with
  | Leaf => None
  | Node sideL pt sideR =>
    let axis := kdAxis s depth dimensions in
    let point := setDistance s search pt in
    let tdist :=
      match KDSearch.axisValue axis search, Point.axisValue axis point with
      | Some u, Some v => Some (u - v)%Z
      | _, _ => None
      end in
    let goLeft :=
      match tdist with Some t => (t <? 0)%Z | None => false end in
    let ret :=
      match (if goLeft
             then _search s compareX search sideL (depth + 1) dimensions
             else _search s compareX search sideR (depth + 1) dimensions) with
      | Some nPoint1 =>
        if distanceLt (kdComparer compareX nPoint1)
                      (kdComparer compareX point)
        then nPoint1 else point
      | None => point
      end in
    let near :=
      match tdist with
      | Some t => distanceLt (Some (Sqrt (t * t))) (kdComparer compareX ret)
      | None => false
      end in
    if near then
      match (if goLeft
             then _search s compareX search sideR (depth + 1) dimensions
             else _search s compareX search sideL (depth + 1) dimensions) with
      | Some nPoint2 =>
        if distanceLt (kdComparer compareX nPoint2)
                      (kdComparer compareX ret)
        then Some nPoint2 else Some ret
      | None => Some ret
      end
    else Some ret
  end.

Definition isLeaf (t : KDNode) : bool :=
  match t with Leaf => true | Node _ _ _ => false end.

(** [searchKDTree(point, compareX, e)]: the point found, if any, and the
    series, on which a build may have been started. *)
Definition searchKDTree (search : KDPointSearchObject) (compareX : bool)
    (touchstart : bool) (s : Series) : option Point * Series :=
  let s :=
    if isLeaf s.(kdTree) && negb s.(buildingKdTree)
    then buildKDTree touchstart s else s in
  (_search s compareX search s.(kdTree) (kdDimensions s) (kdDimensions s), s).

(** ** Registering a series in a collection *)

Module Insert.

(** What [insert] reads of a series: [series.options.index], a number or
    [undefined], and [series._i], the number that [init] gives it. *)
Record Entry := mk {
  index : option Z;
  _i : Z
}.

(** [pick(series.options.index, series._i)] *)
Definition effectiveIndex (m : Entry) : Z := default m.(_i) m.(index).

(** [i = collection.length; while (i--) { if (indexOption >= pick(...))
    { ...; break; } }]: the [i] at which the loop breaks, [None] when it
    runs out with [i === -1].  [i] never exceeds the length, so the read of
    [collection[i]] finds a series. *)
Fixpoint scanDown (indexOption : Z) (collection : list Entry) (i : nat)
  : option nat :=
  match i with
  | 0 => None
  | S k =>
    match collection !! k with
    | Some m =>
      if (effectiveIndex m <=? indexOption)%Z then Some k
      else scanDown indexOption collection k
    | None => None
    end
  end.

(** [insert(collection)]: the index returned and the collection as the call
    leaves it. *)
Definition insert (me : Entry) (collection : list Entry)
  : nat * list Entry :=
  match me.(index) with
  | Some indexOption =>
    match scanDown indexOption collection (length collection) with
    | Some i =>
      (i + 1, Js.splice collection (Z.of_nat (i + 1)) 0 [me])
    | None => (0, me :: collection)
    end
  | None =>
    let collection := collection ++ [me] in
    (length collection - 1, collection)
  end.

(** [series._i = pick(lastSeries && lastSeries._i, -1) + 1] of [init],
    where [lastSeries] is the last series of [chart.series], if any. *)
Definition nextI (chartSeries : list Entry) : Z :=
  (match last chartSeries with Some m => m.(_i) | None => (-1)%Z end + 1)%Z.

(** The registration at the end of [init]: the series takes its [_i] and is
    inserted into [chart.series]. *)
Definition register (indexOption : option Z) (chartSeries : list Entry)
  : nat * list Entry :=
  insert (mk indexOption (nextI chartSeries)) chartSeries.

End Insert.

(** ** The y extremes of the visible data *)

(** The operand of [a || b]: [undefined], [null], [0] and the empty string
    are falsy; [NaN] is not a value of the model. *)
Definition truthy (v : Value) : bool :=
  match v with
  | Undefined | Null => false
  | Num z => negb (z =? 0)%Z
  | Str str => negb (String.eqb str "")
  | Arr _ | Obj _ => true
  end.

(** [a || b] *)
Definition orElse (a b : Value) : Value := if truthy a then a else b.

(** [arr[z]] for an index that may be negative: there is no such element
    then. *)
Definition entryZ (arr : list Value) (z : Z) : Value :=
  if (z <? 0)%Z then Undefined else nth_or_hole Undefined arr (Z.to_nat z).

Section GetExtremes.
(** [arrayMin] and [arrayMax] of Core/Utilities, which are not among the
    sources, are parameters, and so is [yAxis.positiveValuesOnly], which is
    only read when the series has a y axis.  Stacking is left out:
    [this.stackedYData] is taken to be unset.  The series has been
    processed, so that [this.processedXData] is an array. *)
Variables (arrayMin arrayMax : list Value -> Value).
Variable positiveValuesOnlyOfAxis : bool.

(** [yAxis ? yAxis.positiveValuesOnly : false] *)
Definition positiveValuesOnly (s : Series) : bool :=
  match s.(yAxis) with Some _ => positiveValuesOnlyOfAxis | None => false end.

(** [(isNumber(y) || isArray(y)) &&
     ((y.length || y > 0) || !positiveValuesOnly)] *)
Definition validValue (s : Series) (y : Value) : bool :=
  (isNumber y || isArray y)
  && ((match y with
       | Arr l => negb (bool_decide (length l = 0))
       | _ => false
       end
       || greaterThan y (Num 0))
      || negb (positiveValuesOnly s)).

(** [this.requireSorting ? this.cropShoulder : 0] *)
Definition extremesShoulder (s : Series) : Z :=
  if s.(proto).(Proto.requireSorting) then s.(proto).(Proto.cropShoulder)
  else 0%Z.

Definition withinRange (forceExtremesFromAll : bool) (s : Series)
    (i : nat) : bool :=
  let xData := s.(processedXData) in
  let shoulder := extremesShoulder s in
  let x := nth_or_hole Undefined xData i in
  forceExtremesFromAll
  || s.(proto).(Proto.getExtremesFromAll)
  || s.(options).(Options.getExtremesFromAll)
  || s.(cropped)
  || negb (bool_decide (is_Some s.(xAxis)))
  || (greaterEq (orElse (entryZ xData (Z.of_nat i + shoulder)) x)
                (extremesMin s)
      && greaterEq (extremesMax s)
                   (orElse (entryZ xData (Z.of_nat i - shoulder)) x)).

(** What one valid [y] within the range adds to [activeYData]: the numbers
    of an array from its last element to its first, or [y] itself. *)
Definition activeValues (y : Value) : list Value :=
  match y with
  | Arr (v :: l) => List.filter isNumber (reverse (v :: l))
  | _ => [y]
  end.

(** The loop over [yData]; [i] is the loop variable and [ys] the part of
    [yData] from [i] on. *)
Fixpoint activeFrom (forceExtremesFromAll : bool) (s : Series) (i : nat)
    (ys : list Value) : list Value :=
  match ys with
  | [] => []
  | y :: rest =>
    (if validValue s y && withinRange forceExtremesFromAll s i
     then activeValues y else [])
    ++ activeFrom forceExtremesFromAll s (S i) rest
  end.

(** [activeYData] once the loop is done. *)
Definition activeYData (yData : option (list Value))
    (forceExtremesFromAll : bool) (s : Series) : list Value :=
  activeFrom forceExtremesFromAll s 0 (default s.(processedYData) yData).

(** [getExtremes(yData, forceExtremesFromAll)]: [dataMin] and [dataMax]. *)
Definition getExtremes (yData : option (list Value))
    (forceExtremesFromAll : bool) (s : Series) : Value * Value :=
  let active := activeYData yData forceExtremesFromAll s in
  (arrayMin active, arrayMax active).

End GetExtremes.

(** ** Binding a series to its axes *)

Module BindAxes.

(** What [bindAxes] reads and writes of an axis: [axis.options.isInternal],
    [axis.options.id], [axis.options.index], the collection [axis.series] and
    [axis.isDirty]. *)
Record AxisEntry := mk {
  isInternal : bool;
  id : Value;
  index : Value;
  series : list Insert.Entry;
  isDirty : bool
}.

(** [a === b] on option values; two arrays or objects are taken to be two
    objects. *)
Definition strictEq (a b : Value) : bool :=
  match a, b with
  | Undefined, Undefined | Null, Null => true
  | Num x, Num y => (x =? y)%Z
  | Str x, Str y => String.eqb x y
  | _, _ => false
  end.

(** The test of the inner loop; [axisOption] is [seriesOptions[AXIS]] and
    [idx] the counter [index] of the axes that are not internal. *)
Definition matches (axisOption : Value) (idx : Z) (axis : AxisEntry) : bool :=
  (strictEq axisOption (Num idx) && negb axis.(isInternal))
  || (negb (isUndefined axisOption) && strictEq axisOption axis.(id))
  || (isUndefined axisOption && strictEq axis.(index) (Num 0)).

(** The axis once the series is bound to it. *)
Definition bind (me : Insert.Entry) (axis : AxisEntry) : AxisEntry :=
  mk axis.(isInternal) axis.(id) axis.(index)
     (Insert.insert me axis.(series)).2 true.

(** [chart[AXIS].forEach(...)]: [pos] is the position of the first of
    [axes] in [chart[AXIS]], [idx] the counter, and [bound] the position
    of the axis in [series[AXIS]], if any.  The axes and [series[AXIS]] as
    the loop leaves them. *)
Fixpoint bindLoop (me : Insert.Entry) (axisOption : Value) (pos : nat)
    (idx : Z) (bound : option nat) (axes : list AxisEntry)
  : list AxisEntry * option nat :=
  match axes with
  | [] => ([], bound)
  | axis :: rest =>
    let hit := matches axisOption idx axis in
    let axis' := if hit then bind me axis else axis in
    let bound' := if hit then Some pos else bound in
    let idx' := if axis.(isInternal) then idx else (idx + 1)%Z in
    let '(rest', bound'') := bindLoop me axisOption (S pos) idx' bound' rest in
    (axis' :: rest', bound'')
  end.

(** The body of [bindAxes] for one kind of axis: the axes and
    [series[AXIS]] afterwards, and whether error 18 was thrown ([optional]
    is [series.optionalAxis === AXIS]). *)
Definition bindAxis (me : Insert.Entry) (axisOption : Value) (optional : bool)
    (bound : option nat) (axes : list AxisEntry)
  : list AxisEntry * option nat * bool :=
  let '(axes', bound') := bindLoop me axisOption 0 0 bound axes in
  (axes', bound',
   match bound' with None => negb optional | Some _ => false end).

End BindAxes.

(** ** Example series

    A line series as [Series.prototype] and the default options make it, on
    a chart whose calendar arithmetic adds milliseconds. *)

Definition exampleChart : Chart :=
  Chart.mk [] false 0 (fun _ _ => true) (fun _ t n => (t + n)%Z).

Definition exampleOptions : Options :=
  Options.mk [] (Some 1000%Z) (Some 300%Z) None None None None None "x" None
             false true.

Definition exampleSeries : Series :=
  {| proto := defaultProto; options := exampleOptions;
     dataArrays := {[ "x" := []; "y" := [] ]};
     data := None; points := None; store := [];
     processedXData := []; processedYData := [];
     cropped := false; cropStart := 0;
     closestPointRange := None; basePointRange := None;
     xIncrement := None; pointInterval := None;
     isDirty := false; isDirtyData := false;
     xAxis := None; yAxis := None;
     kdTree := Leaf; buildingKdTree := false; chart := exampleChart |}.

(** A soft update that never succeeds and leaves the series alone. *)
Definition noSoftUpdate (_ : list Value) (s : Series) : bool * Series :=
  (false, s).

(** The example series after [setData([3, 1, 2], false)], with the turbo
    threshold lowered to two points. *)
Definition loadedSeries : Series :=
  let s :=
    stateOf (setData noSoftUpdate [Num 3; Num 1; Num 2] false true
                     exampleSeries) in
  set_options (Options.set_turboThreshold (Some 2%Z) (options s)) s.

(** The example series with [dataSorting.enabled], as
    [setDataSortingOptions] leaves it, and a turbo threshold of two. *)
Definition sortingSeries : Series :=
  {| proto := Proto.mk ["x"; "y"] false false true 1 false
                       ["clientX"; "plotY"] None None false false false
                       false false true;
     options :=
       Options.mk [] (Some 2%Z) (Some 300%Z) None None None None None "x"
                  (Some (DataSorting.mk true false None)) false true;
     dataArrays := {[ "x" := []; "y" := [] ]};
     data := None; points := None; store := [];
     processedXData := []; processedYData := [];
     cropped := false; cropStart := 0;
     closestPointRange := None; basePointRange := None;
     xIncrement := None; pointInterval := None;
     isDirty := false; isDirtyData := false;
     xAxis := None; yAxis := None;
     kdTree := Leaf; buildingKdTree := false; chart := exampleChart |}.

(** Closes a decidable statement about concrete data by evaluation. *)
Ltac by_evaluation :=
  apply (bool_decide_unpack _); vm_compute; exact I.

(** The x values [first], [first + 1], ..., [first + count - 1]. *)
Definition numbersFrom (first : Z) (count : nat) : list Value :=
  (fun i => Num (first + Z.of_nat i)) <$> seq 0 count.

(** One hundred points at x = 0 .. 99 on an axis that shows [40, 60], with
    [cropThreshold = 10] and the default [cropShoulder] of one. *)
Definition cropExampleSeries : Series :=
  set_xAxis
    (Some (Axis.mk (Num 40) (Num 60) true false id Undefined Undefined))
    (set_options
       (Options.mk [] (Some 1000%Z) (Some 10%Z) None None None None None "x"
                   None false true)
       (set_dataArrays
          {[ "x" := numbersFrom 0 100; "y" := numbersFrom 1000 100 ]}
          exampleSeries)).

(** Six points at x = 0 .. 5 on an axis that shows [2, 3], cropped as soon
    as there is more than one point: after [setData], [processData] and
    [generatePoints] the points at the raw indices 1 .. 4 are materialized. *)
Definition croppedSeries : Series :=
  let s :=
    set_xAxis
      (Some (Axis.mk (Num 2) (Num 3) true false id Undefined Undefined))
      (set_options
         (Options.mk [] (Some 1000%Z) (Some 1%Z) None None None None None "x"
                     None false true)
         exampleSeries) in
  generatePoints
    (processData true
       (stateOf (setData noSoftUpdate (numbersFrom 10 6) false true s))).

(** A rendered point: translated, with a graphic. *)
Definition renderedPoint (i : nat) : Point :=
  Point.mk (Num (Z.of_nat i)) (Num (Z.of_nat i)) (Some i) (Some 10%Z)
           (Some 20%Z) (Some 10%Z) false true true false None None.

(** Four rendered points, of which processing has just kept the raw
    indices 1 and 2. *)
Definition renderedSeries : Series :=
  {| proto := defaultProto;
     options :=
       Options.mk (numbersFrom 0 4) (Some 1000%Z) (Some 1%Z) None None None
                  None None "x" None false true;
     dataArrays := {[ "x" := numbersFrom 0 4; "y" := numbersFrom 0 4 ]};
     data := Some [Some 0; Some 1; Some 2; Some 3];
     points := Some [Some 0; Some 1; Some 2; Some 3];
     store := renderedPoint <$> seq 0 4;
     processedXData := numbersFrom 1 2; processedYData := numbersFrom 1 2;
     cropped := true; cropStart := 1;
     closestPointRange := Some 1%Z; basePointRange := Some 1%Z;
     xIncrement := Some 4%Z; pointInterval := Some 1%Z;
     isDirty := true; isDirtyData := false;
     xAxis := None; yAxis := None;
     kdTree := Leaf; buildingKdTree := false; chart := exampleChart |}.

(** A translated point at pixel position [(cx, py)]. *)
Definition plottedPoint (i : nat) (cx py : Z) : Point :=
  Point.mk (Arr [Num cx; Num py]) (Num cx) (Some i) (Some cx) (Some py)
           (Some cx) false true true false None None.

(** A series that holds the given points, searched by [findNearestPointBy]. *)
Definition plottedSeries (findNearestPointBy : string) (pts : list Point)
  : Series :=
  {| proto := defaultProto;
     options :=
       Options.mk [] (Some 1000%Z) (Some 300%Z) None None None None None
                  findNearestPointBy None false true;
     dataArrays := {[ "x" := []; "y" := [] ]};
     data := Some (Some <$> seq 0 (length pts));
     points := Some (Some <$> seq 0 (length pts));
     store := pts;
     processedXData := []; processedYData := [];
     cropped := false; cropStart := 0;
     closestPointRange := None; basePointRange := None;
     xIncrement := None; pointInterval := None;
     isDirty := false; isDirtyData := false;
     xAxis := None; yAxis := None;
     kdTree := Leaf; buildingKdTree := false; chart := exampleChart |}.

(** * Properties *)

(** ** Parallel arrays *)

Section ParallelArrays.

(** The fold of [updateParallelArrays], on the arrays alone. *)
Definition updateArrays (g : string -> list Value -> list Value)
    (m : gmap string (list Value)) (keys : list string)
  : gmap string (list Value) :=
  foldl (fun m key => <[key := g key (default [] (m !! key))]> m) m keys.

Lemma set_dataArrays_id s : set_dataArrays (dataArrays s) s = s.
Proof. by destruct s. Qed.

Lemma foldl_set_dataArrays g keys s :
  foldl (fun s key =>
           set_dataArrays (<[key := g key (dataOf key s)]> (dataArrays s)) s)
        s keys
  = set_dataArrays (updateArrays g (dataArrays s) keys) s.
Proof.
  revert s. induction keys as [|k keys IH]; intros s; simpl.
  - by rewrite set_dataArrays_id.
  - rewrite IH. reflexivity.
Qed.

Lemma updateArrays_lookup_notin g keys m k :
  k ∉ keys -> updateArrays g m keys !! k = m !! k.
Proof.
  revert m. induction keys as [|k' keys IH]; intros m Hk; simpl; [done|].
  apply not_elem_of_cons in Hk as [Hne Hk].
  rewrite IH by done. by rewrite lookup_insert_ne.
Qed.

Lemma updateArrays_lookup_in g keys m k :
  NoDup keys -> k ∈ keys ->
  updateArrays g m keys !! k = Some (g k (default [] (m !! k))).
Proof.
  revert m. induction keys as [|k' keys IH]; intros m Hnd Hk; simpl.
  - by apply elem_of_nil in Hk.
  - apply NoDup_cons in Hnd as [Hnotin Hnd].
    destruct (decide (k = k')) as [->|Hne].
    + rewrite updateArrays_lookup_notin by done.
      by rewrite lookup_insert_eq.
    + apply elem_of_cons in Hk as [?|Hk]; [done|].
      rewrite IH by done. by rewrite lookup_insert_ne.
Qed.

(** Whether a name is one of the array methods does not depend on the
    array. *)
Lemma apply_method_None name args arr arr' :
  apply_method name args arr = None -> apply_method name args arr' = None.
Proof.
  unfold apply_method.
  repeat (destruct (String.eqb name _); [by destruct args as [|? [|? ?]]|]).
  done.
Qed.

Lemma length_array_set {A} (hole : A) arr i v :
  length (array_set hole arr i v) = Nat.max (length arr) (S i).
Proof.
  unfold array_set. case_decide.
  - rewrite length_insert. lia.
  - rewrite !length_app, length_replicate. simpl. lia.
Qed.

Lemma length_splice {A} (arr : list A) start del items :
  length (splice arr start del items)
  = clamp_start (length arr) start + length items
    + (length arr
       - (clamp_start (length arr) start
          + Nat.min (Z.to_nat (Z.max del 0))
                    (length arr - clamp_start (length arr) start))).
Proof.
  unfold splice. rewrite !length_app, length_take, length_drop.
  assert (clamp_start (length arr) start <= length arr).
  { unfold clamp_start. destruct (start <? 0)%Z eqn:E; lia. }
  lia.
Qed.

(** The length that an array method leaves only depends on the length it
    found. *)
Lemma apply_method_length name args arr arr' res :
  length arr = length arr' ->
  apply_method name args arr = Some res ->
  exists res', apply_method name args arr' = Some res'
               /\ length res' = length res.
Proof.
  intros Hlen. unfold apply_method.
  destruct (String.eqb name "splice").
  { destruct args as [|start [|del items]]; intros [= <-]; eexists; split;
      try reflexivity.
    - done.
    - rewrite !length_take, Hlen. done.
    - rewrite !length_splice, Hlen. done. }
  destruct (String.eqb name "shift").
  { intros [= <-]. eexists; split; [done|].
    unfold shift. by rewrite !length_drop, Hlen. }
  destruct (String.eqb name "pop").
  { intros [= <-]. eexists; split; [done|].
    by rewrite !length_take, Hlen. }
  destruct (String.eqb name "push").
  { intros [= <-]. eexists; split; [done|].
    by rewrite !length_app, Hlen. }
  destruct (String.eqb name "unshift").
  { intros [= <-]. eexists; split; [done|].
    by rewrite !length_app, Hlen. }
  destruct (String.eqb name "reverse").
  { intros [= <-]. eexists; split; [done|].
    by rewrite !length_reverse, Hlen. }
  done.
Qed.

(** What one call of [updateParallelArrays] does to the array of [key]. *)
Definition writeOf (p : Proto) (point : Fields) (i : ArrayIndex)
    (args : list Value) (key : string) (arr : list Value) : list Value :=
  match i with
  | AtIndex n =>
    array_set Undefined arr n
      (match String.eqb key "y", p.(Proto.toYData) with
       | true, Some toYData => toYData point
       | _, _ => get key point
       end)
  | Method name => default arr (apply_method name args arr)
  end.

Definition isArrayMethod (i : ArrayIndex) (args : list Value) : bool :=
  match i with
  | AtIndex _ => true
  | Method name => bool_decide (is_Some (apply_method name args []))
  end.

Lemma updateParallelArrays_unknown point name args s :
  apply_method name args [] = None ->
  updateParallelArrays point (Method name) args s = s.
Proof.
  intros Hnone. unfold updateParallelArrays.
  generalize (Proto.parallelArrays (proto s)) as keys.
  induction keys as [|k keys IH]; cbn [foldl]; [done|].
  by rewrite (apply_method_None _ _ _ (dataOf k s) Hnone).
Qed.

Lemma updateParallelArrays_arrays point i args s :
  isArrayMethod i args = true ->
  updateParallelArrays point i args s
  = set_dataArrays
      (updateArrays (writeOf (proto s) point i args) (dataArrays s)
                    (Proto.parallelArrays (proto s))) s.
Proof.
  intros Hm. unfold updateParallelArrays.
  generalize (Proto.parallelArrays (proto s)) as keys.
  intros keys. revert s.
  induction keys as [|k keys IH]; intros s; cbn [foldl updateArrays].
  - by rewrite set_dataArrays_id.
  - destruct i as [n|name]; cbn [writeOf].
    + unfold writeData. rewrite IH. reflexivity.
    + cbn [isArrayMethod] in Hm. apply bool_decide_eq_true in Hm as [r Hr].
      destruct (apply_method name args (dataOf k s)) as [arr|] eqn:E.
      * rewrite IH. cbn [dataArrays set_dataArrays proto].
        unfold dataOf in E. by rewrite E.
      * by rewrite (apply_method_None _ _ _ [] E) in Hr.
Qed.

Lemma updateParallelArrays_proto point i args s :
  proto (updateParallelArrays point i args s) = proto s.
Proof.
  destruct (isArrayMethod i args) eqn:E.
  - by rewrite updateParallelArrays_arrays.
  - destruct i as [n|name]; [done|]. simpl in E.
    rewrite updateParallelArrays_unknown; [done|].
    apply bool_decide_eq_false in E.
    destruct (apply_method name args []); [|done].
    exfalso. apply E. eauto.
Qed.

(** The length that one call leaves only depends on the length found. *)
Lemma writeOf_length p point i args k k' arr arr' :
  length arr = length arr' ->
  length (writeOf p point i args k arr)
  = length (writeOf p point i args k' arr').
Proof.
  intros Hlen. destruct i as [n|name]; simpl.
  - by rewrite !length_array_set, Hlen.
  - destruct (apply_method name args arr) as [res|] eqn:E; simpl.
    + destruct (apply_method_length _ _ _ arr' _ Hlen E) as (res' & -> & <-).
      done.
    + by rewrite (apply_method_None _ _ _ arr' E).
Qed.

(** Every declared dimension array exists and has [n] elements. *)
Definition alignedAt (n : nat) (s : Series) : Prop :=
  forall key, key ∈ Proto.parallelArrays (proto s) ->
              length <$> (dataArrays s !! key) = Some n.

Definition aligned (s : Series) : Prop := exists n, alignedAt n s.

Lemma updateParallelArrays_aligned point i args s :
  NoDup (Proto.parallelArrays (proto s)) ->
  aligned s -> aligned (updateParallelArrays point i args s).
Proof.
  intros Hnd [n Hn].
  destruct (isArrayMethod i args) eqn:E.
  - rewrite updateParallelArrays_arrays by done.
    exists (length (writeOf (proto s) point i args ""
                            (replicate n Undefined))).
    intros key Hkey. simpl in *.
    rewrite updateArrays_lookup_in by done. simpl. f_equal.
    apply writeOf_length. rewrite length_replicate.
    specialize (Hn key Hkey).
    destruct (dataArrays s !! key); simpl in *; congruence.
  - destruct i as [m|name]; [done|]. simpl in E.
    rewrite updateParallelArrays_unknown; [by exists n|].
    apply bool_decide_eq_false in E.
    destruct (apply_method name args []); [|done].
    exfalso. apply E. eauto.
Qed.

(** One operation of the parallel array manager, as [updateParallelArrays]
    receives it. *)
Definition ParallelOp : Type := Fields * ArrayIndex * list Value.

Definition runOps (ops : list ParallelOp) (s : Series) : Series :=
  foldl (fun s op => updateParallelArrays op.1.1 op.1.2 op.2 s) s ops.

(** C6.  On a series whose declared dimension arrays all exist and have
    one length, that is again so after every prefix of any sequence of
    [updateParallelArrays] calls, be they writes at a numeric index or
    array methods (splice, shift, ...) applied to every array. *)
Theorem parallel_arrays_stay_aligned (s : Series) (ops : list ParallelOp) :
  NoDup (Proto.parallelArrays (proto s)) ->
  aligned s ->
  forall k, aligned (runOps (take k ops) s).
Proof.
  intros Hnd Hal k. generalize (take k ops) as l. clear ops k.
  intros l. revert s Hnd Hal.
  induction l as [|op l IH]; intros s Hnd Hal; simpl; [done|].
  apply IH.
  - by rewrite updateParallelArrays_proto.
  - by apply updateParallelArrays_aligned.
Qed.

(** A write past the end, a splice that removes two points and a shift. *)
Definition exampleOps : list ParallelOp :=
  [ ([("x", Num 5); ("y", Num 7)], AtIndex 4, []);
    ([], Method "splice", [Num 1; Num 2]);
    ([], Method "shift", []) ].

Lemma parallel_arrays_stay_aligned_witness :
  aligned (runOps (take 3 exampleOps) loadedSeries).
Proof.
  apply (parallel_arrays_stay_aligned loadedSeries exampleOps).
  - by_evaluation.
  - exists 3. intros key Hkey.
    assert (Hkeys : Proto.parallelArrays (proto loadedSeries) = ["x"; "y"])
      by (vm_compute; reflexivity).
    rewrite Hkeys in Hkey. apply list_elem_of_In in Hkey.
    destruct Hkey as [<-|[<-|[]]]; vm_compute; reflexivity.
Defined.
End ParallelArrays.

(** ** setData: the turbo path and the generic path *)

Section SetDataFacts.

(** Resetting the parallel arrays. *)
Definition resetArrays (s : Series) : Series :=
  foldl (fun s key => set_dataArrays (<[key := []]> (dataArrays s)) s)
        s (Proto.parallelArrays (proto s)).

Lemma resetArrays_arrays s :
  resetArrays s
  = set_dataArrays
      (updateArrays (fun _ _ => []) (dataArrays s)
                    (Proto.parallelArrays (proto s))) s.
Proof.
  unfold resetArrays.
  generalize (Proto.parallelArrays (proto s)) as keys.
  intros keys. revert s.
  induction keys as [|k keys IH]; intros s; cbn [foldl updateArrays].
  - by rewrite set_dataArrays_id.
  - rewrite IH. reflexivity.
Qed.

Lemma resetArrays_dataOf s key :
  NoDup (Proto.parallelArrays (proto s)) ->
  key ∈ Proto.parallelArrays (proto s) ->
  dataOf key (resetArrays s) = [].
Proof.
  intros Hnd Hkey. rewrite resetArrays_arrays. unfold dataOf. simpl.
  by rewrite updateArrays_lookup_in.
Qed.

Lemma dataOf_writeData key key' i v s :
  dataOf key (writeData key' i v s)
  = if decide (key' = key) then array_set Undefined (dataOf key s) i v
    else dataOf key s.
Proof.
  unfold writeData, dataOf. simpl. case_decide as E.
  - subst. by rewrite lookup_insert_eq.
  - by rewrite lookup_insert_ne.
Qed.

Lemma array_set_end {A} (hole : A) arr v :
  array_set hole arr (length arr) v = arr ++ [v].
Proof.
  unfold array_set. case_decide; [lia|].
  by rewrite Nat.sub_diag.
Qed.

(** The x values that [n] successive calls of [autoIncrement] return. *)
Fixpoint autoIncrements (n : nat) (s : Series) : list Z * Series :=
  match n with
  | 0 => ([], s)
  | S n' =>
    let '(xv, s1) := autoIncrement s in
    let '(xs, s2) := autoIncrements n' s1 in
    (xv :: xs, s2)
  end.

(** What [autoIncrement] reads and writes. *)
Definition cursorOf (s : Series) :=
  (xIncrement s, pointInterval s, Options.pointStart (options s),
   Options.pointInterval (options s),
   Options.pointIntervalUnit (options s), Chart.addUnits (chart s)).

(** Two series that hold the same x and y arrays and the same
    auto-increment cursor. *)
Definition sameXY (s s' : Series) : Prop :=
  cursorOf s = cursorOf s' /\ proto s = proto s'
  /\ xData s = xData s' /\ yData s = yData s'.

Lemma autoIncrement_cursor s s' :
  cursorOf s = cursorOf s' ->
  (autoIncrement s).1 = (autoIncrement s').1
  /\ cursorOf (autoIncrement s).2 = cursorOf (autoIncrement s').2.
Proof.
  unfold cursorOf, autoIncrement. intros [= Hx Hp Hs Hi Hu Ha]. simpl.
  rewrite Hx, Hp, Hs, Hi, Hu, Ha. done.
Qed.

Lemma autoIncrement_frame s :
  dataArrays (autoIncrement s).2 = dataArrays s
  /\ proto (autoIncrement s).2 = proto s.
Proof. done. Qed.

Lemma cursorOf_set_dataArrays m s :
  cursorOf (set_dataArrays m s) = cursorOf s.
Proof. done. Qed.

#[local] Arguments autoIncrement : simpl never.

Lemma generic_number_step i z s xv s1 :
  Proto.toYData (proto s) = None ->
  NoDup (Proto.parallelArrays (proto s)) ->
  "x" ∈ Proto.parallelArrays (proto s) ->
  "y" ∈ Proto.parallelArrays (proto s) ->
  autoIncrement s = (xv, s1) ->
  let s2 :=
    (let '(pt, s) := applyOptions (Num z) s in
     updateParallelArrays pt (AtIndex i) [] s) in
  cursorOf s2 = cursorOf s1 /\ proto s2 = proto s
  /\ xData s2 = array_set Undefined (xData s) i (Num xv)
  /\ yData s2 = array_set Undefined (yData s) i (Num z).
Proof.
  intros Hy Hnd Hxin Hyin E. cbv zeta.
  unfold applyOptions. cbn [optionsToObject extend foldl put get fst snd
                            String.eqb Ascii.eqb Bool.eqb isUndefined].
  rewrite E.
  pose proof (autoIncrement_frame s) as [Hd Hp]. rewrite E in Hd, Hp.
  cbn [snd] in Hd, Hp.
  rewrite updateParallelArrays_arrays by done.
  split; [done|]. split; [done|].
  unfold xData, yData, dataOf.
  cbn [dataArrays set_dataArrays]. rewrite Hp, Hd.
  rewrite !updateArrays_lookup_in by done.
  cbn [writeOf String.eqb Ascii.eqb Bool.eqb get]. rewrite Hy. done.
Qed.

(** *** What the later steps of [setData] leave alone *)

Lemma getProcessedData_frame f s :
  let s' := (getProcessedData f s).2 in
  dataArrays s' = dataArrays s /\ options s' = options s
  /\ data s' = data s /\ points s' = points s /\ store s' = store s
  /\ xIncrement s' = xIncrement s /\ proto s' = proto s
  /\ isDirty s' = isDirty s
  /\ processedXData s' = processedXData s /\ cropStart s' = cropStart s
  /\ xAxis s' = xAxis s /\ yAxis s' = yAxis s.
Proof.
  cbv zeta. unfold getProcessedData.
  repeat match goal with
         | |- context [let '(_, _) := ?e in _] => destruct e
         end.
  done.
Qed.

Lemma processData_frame f s :
  let s' := processData f s in
  dataArrays s' = dataArrays s /\ options s' = options s
  /\ data s' = data s /\ points s' = points s /\ store s' = store s
  /\ xIncrement s' = xIncrement s /\ proto s' = proto s.
Proof.
  cbv zeta. unfold processData.
  destruct (_ && _); [done|].
  pose proof (getProcessedData_frame false s) as H. cbv zeta in H.
  destruct (getProcessedData false s) as [p s']. simpl in *.
  destruct_and!. repeat split; congruence.
Qed.

Lemma generatePoints_frame s :
  let s' := generatePoints s in
  dataArrays s' = dataArrays s /\ options s' = options s
  /\ xIncrement s' = xIncrement s /\ proto s' = proto s
  /\ chart s' = chart s.
Proof.
  cbv zeta. unfold generatePoints.
  destruct (generateLoop _ _ _ _) as [[dat sto] pts]. done.
Qed.

Lemma finishSetData_frame redraw s :
  let s' := finishSetData redraw s in
  dataArrays s' = dataArrays s /\ options s' = options s
  /\ xIncrement s' = xIncrement s /\ proto s' = proto s.
Proof.
  cbv zeta. unfold finishSetData.
  pose proof (processData_frame false s) as Hp. cbv zeta in Hp.
  pose proof (generatePoints_frame (processData false s)) as Hg.
  cbv zeta in Hg.
  destruct_and!.
  case_bool_decide; destruct redraw; simpl; repeat split; congruence.
Qed.

Lemma turbo_generic_sameXY zs : forall i s s',
  Proto.toYData (proto s) = None ->
  NoDup (Proto.parallelArrays (proto s)) ->
  "x" ∈ Proto.parallelArrays (proto s) ->
  "y" ∈ Proto.parallelArrays (proto s) ->
  sameXY s s' ->
  sameXY (turboNumbers i (Num <$> zs) s) (genericPoints i (Num <$> zs) s').
Proof.
  induction zs as [|z zs IH]; intros i s s' Hy Hnd Hxin Hyin Hsim;
    cbn [fmap list_fmap turboNumbers genericPoints]; [done|].
  destruct Hsim as (Hc & Hp & Hx & Hyd).
  rewrite Hp in Hy, Hnd, Hxin, Hyin.
  cbn [isUndefined].
  destruct (autoIncrement_cursor s s' Hc) as [Hv Hc'].
  destruct (autoIncrement s) as [xv s1] eqn:E.
  destruct (autoIncrement s') as [xv' s1'] eqn:E'.
  cbn [fst snd] in Hv, Hc'. subst xv'.
  pose proof (generic_number_step i z s' xv s1' Hy Hnd Hxin Hyin E')
    as (Hc2 & Hp2 & Hx2 & Hy2).
  pose proof (autoIncrement_frame s) as [Hd1 Hp1]. rewrite E in Hd1, Hp1.
  cbn [snd] in Hd1, Hp1.
  assert (Hp3 : proto (writeData "y" i (Num z)
                                 (writeData "x" i (Num xv) s1)) = proto s')
    by (cbn [proto writeData set_dataArrays]; by rewrite Hp1).
  apply IH; rewrite ?Hp3; try done.
  split; [|split; [|split]].
    + rewrite Hc2. rewrite <- Hc'. done.
    + by rewrite Hp2.
    + rewrite Hx2. unfold xData. rewrite !dataOf_writeData. simpl.
      unfold xData in Hx. rewrite <- Hx.
      unfold dataOf. by rewrite Hd1.
    + rewrite Hy2. unfold yData. rewrite !dataOf_writeData. simpl.
      unfold yData in Hyd. rewrite <- Hyd.
      unfold dataOf. by rewrite Hd1.
Qed.

(** The series with the turbo path switched off ([turboThreshold = 0]). *)
Definition withoutTurbo (s : Series) : Series :=
  set_options (Options.set_turboThreshold (Some 0%Z) (options s)) s.

Lemma getFirstValidPoint_numbers z zs :
  getFirstValidPoint (Num <$> z :: zs) = Num z.
Proof. done. Qed.

Lemma sameXY_reset s s' :
  NoDup (Proto.parallelArrays (proto s)) ->
  "x" ∈ Proto.parallelArrays (proto s) ->
  "y" ∈ Proto.parallelArrays (proto s) ->
  cursorOf s = cursorOf s' -> proto s = proto s' ->
  sameXY (resetArrays s) (resetArrays s').
Proof.
  intros Hnd Hx Hy Hc Hp.
  assert (Hp1 : proto (resetArrays s) = proto s)
    by by rewrite resetArrays_arrays.
  assert (Hp2 : proto (resetArrays s') = proto s')
    by by rewrite resetArrays_arrays.
  split; [|split; [|split]].
  - by rewrite !resetArrays_arrays.
  - congruence.
  - unfold xData. rewrite !resetArrays_dataOf; try done; by rewrite <- Hp.
  - unfold yData. rewrite !resetArrays_dataOf; try done; by rewrite <- Hp.
Qed.

(** C4, as amended.  On a series without data sorting and without a
    [toYData] hook that declares x and y, [setData] on an array of plain
    numbers longer than the turbo threshold leaves the same [xData],
    [yData] and auto-increment cursor as the same call with the turbo path
    switched off. *)
Theorem turbo_equals_generic_on_numbers
    (upd : list Value -> Series -> bool * Series)
    (zs : list Z) (t : Z) (redraw : bool) (s : Series) :
  sortingEnabled s = false ->
  Proto.toYData (proto s) = None ->
  NoDup (Proto.parallelArrays (proto s)) ->
  "x" ∈ Proto.parallelArrays (proto s) ->
  "y" ∈ Proto.parallelArrays (proto s) ->
  Options.turboThreshold (options s) = Some t ->
  (0 < t < Z.of_nat (length zs))%Z ->
  let turbo := stateOf (setData upd (Num <$> zs) redraw false s) in
  let generic :=
    stateOf (setData upd (Num <$> zs) redraw false (withoutTurbo s)) in
  xData turbo = xData generic /\ yData turbo = yData generic
  /\ xIncrement turbo = xIncrement generic.
Proof.
  intros Hsort HtoY Hnd Hx Hy Ht Hlen. cbv zeta.
  unfold setData.
  replace (sortingEnabled (withoutTurbo s)) with (sortingEnabled s) by done.
  rewrite Hsort. cbn [softUpdateGate andb].
  fold (resetArrays (set_xIncrement None s)).
  fold (resetArrays (set_xIncrement None (withoutTurbo s))).
  assert (Hsim : sameXY
            (fillParallelArrays (Num <$> zs)
                                (resetArrays (set_xIncrement None s)))
            (fillParallelArrays (Num <$> zs)
               (resetArrays (set_xIncrement None (withoutTurbo s))))).
  { unfold fillParallelArrays.
    rewrite !resetArrays_arrays. cbn [options set_dataArrays set_xIncrement
      withoutTurbo set_options Options.turboThreshold
      Options.set_turboThreshold]. rewrite Ht.
    rewrite length_fmap.
    replace (negb (t =? 0)%Z && (t <? Z.of_nat (length zs))%Z) with true
      by (symmetry; apply andb_true_iff; split;
          [apply negb_true_iff; lia | lia]).
    replace (negb (0 =? 0)%Z && (0 <? Z.of_nat (length zs))%Z) with false
      by done.
    destruct zs as [|z zs]; [simpl in Hlen; lia|].
    rewrite getFirstValidPoint_numbers. cbn [isNumber].
    rewrite <- !resetArrays_arrays.
    assert (Hp : proto (resetArrays (set_xIncrement None s)) = proto s)
      by by rewrite resetArrays_arrays.
    apply turbo_generic_sameXY; rewrite ?Hp; try done.
    by apply sameXY_reset. }
  destruct Hsim as (Hc & _ & Hxd & Hyd).
  assert (Hxi : forall a b, cursorOf a = cursorOf b ->
                            xIncrement a = xIncrement b)
    by (intros a b [= ? _]; done).
  apply Hxi in Hc.
  set (st := fillParallelArrays (Num <$> zs)
                                (resetArrays (set_xIncrement None s))) in *.
  set (sg := fillParallelArrays (Num <$> zs)
               (resetArrays (set_xIncrement None (withoutTurbo s)))) in *.
  assert (Htail : forall (o : Outcome) (sf : Series),
             (o = Thrown (set_chart (Chart.error 14 true (chart sf)) sf)
              \/ exists sr, o = Returned (finishSetData redraw sr)
                            /\ dataArrays sr = dataArrays sf
                            /\ xIncrement sr = xIncrement sf) ->
             dataArrays (stateOf o) = dataArrays sf
             /\ xIncrement (stateOf o) = xIncrement sf).
  { intros o sf [->|(sr & -> & Hd & Hi)]; [done|].
    pose proof (finishSetData_frame redraw sr) as (? & _ & ? & _).
    simpl. split; congruence. }
  match goal with
  | |- xData (stateOf ?a) = xData (stateOf ?b) /\ _ =>
    assert (Ha : dataArrays (stateOf a) = dataArrays st
                 /\ xIncrement (stateOf a) = xIncrement st);
    [|assert (Hb : dataArrays (stateOf b) = dataArrays sg
                   /\ xIncrement (stateOf b) = xIncrement sg)]
  end.
  - apply Htail.
    destruct (isString (nth_or_hole Undefined (yData st) 0));
      [left; reflexivity|right].
    eexists; split; [reflexivity|]. done.
  - apply Htail.
    destruct (isString (nth_or_hole Undefined (yData sg) 0));
      [left; reflexivity|right].
    eexists; split; [reflexivity|]. done.
  - destruct Ha as [Ha1 Ha2], Hb as [Hb1 Hb2].
    unfold xData, yData, dataOf in *. rewrite Ha1, Hb1, Ha2, Hb2. done.
Qed.

Lemma turbo_equals_generic_on_numbers_witness :
  let turbo :=
    stateOf (setData noSoftUpdate (Num <$> [3; 1; 2]%Z) false false
                     loadedSeries) in
  let generic :=
    stateOf (setData noSoftUpdate (Num <$> [3; 1; 2]%Z) false false
                     (withoutTurbo loadedSeries)) in
  xData turbo = xData generic /\ yData turbo = yData generic
  /\ xIncrement turbo = xIncrement generic.
Proof.
  apply (turbo_equals_generic_on_numbers noSoftUpdate [3; 1; 2]%Z 2 false
                                         loadedSeries).
  - reflexivity.
  - reflexivity.
  - by_evaluation.
  - by_evaluation.
  - by_evaluation.
  - reflexivity.
  - simpl. lia.
Defined.

(** With data sorting enabled [sortData] has turned every number into an
    option object before the turbo test, which then reports error 12 and
    converts nothing; the generic path converts the sorted objects. *)
Lemma turbo_differs_from_generic_when_sorting :
  let entries := [Num 3; Num 1; Num 2] in
  let turbo :=
    stateOf (setData noSoftUpdate entries false false sortingSeries) in
  let generic :=
    stateOf (setData noSoftUpdate entries false false
                     (withoutTurbo sortingSeries)) in
  Options.turboThreshold (options sortingSeries) = Some 2%Z
  /\ xData turbo = [] /\ xData generic = [Num 0; Num 2; Num 1]
  /\ yData turbo = [] /\ yData generic = [Num 3; Num 1; Num 2]
  /\ xData turbo <> xData generic /\ yData turbo <> yData generic.
Proof. vm_compute. repeat split; discriminate. Qed.
End SetDataFacts.

(** ** setData: the format error of the turbo path *)

Section TurboError.

Lemma length_alter_fields (f : Fields -> Fields) i (l : list Fields) :
  length (alter f i l) = length l.
Proof. apply length_alter. Qed.









End TurboError.

(** ** Data processing: the unsorted-data warning *)

Section UnsortedWarning.
Context (isLog : bool) (val2lin : Value -> Value) (xs : list Value).

(** The delta at index [j] is a number below zero. *)
Definition isNegativeAt (j : nat) : bool :=
  match distanceAt isLog val2lin xs j with
  | Some d => (d <? 0)%Z
  | None => false
  end.

(** Some index in [1 .. i] has a negative delta. *)
Definition negativeUpTo (i : nat) : bool := existsb isNegativeAt (seq 1 i).

Lemma negativeUpTo_S i :
  negativeUpTo (S i) = negativeUpTo i || isNegativeAt (S i).
Proof.
  unfold negativeUpTo. rewrite seq_S, existsb_app. simpl.
  by rewrite orb_false_r.
Qed.

Lemma negativeUpTo_true i :
  negativeUpTo i = true <->
  exists j, 1 <= j <= i /\ isNegativeAt j = true.
Proof.
  unfold negativeUpTo. rewrite existsb_exists. split.
  - intros (j & Hin & Hj). exists j. split; [|done].
    apply in_seq in Hin. lia.
  - intros (j & Hr & Hj). exists j. split; [|done].
    apply in_seq. lia.
Qed.

(** The closest distance that the loop finds does not depend on the
    warning. *)
Lemma closestLoop_closest i : forall closest thr c thr' c',
  (closestLoop isLog val2lin xs i (closest, thr, c)).1.1
  = (closestLoop isLog val2lin xs i (closest, thr', c')).1.1.
Proof.
  induction i as [|k IH]; intros closest thr c thr' c'; [done|].
  cbn [closestLoop]. unfold closestStep.
  destruct (distanceAt isLog val2lin xs (S k)) as [d|]; [|apply IH].
  destruct ((0 <? d)%Z && _); [apply IH|].
  destruct (d <? 0)%Z, thr, thr'; cbn [andb]; apply IH.
Qed.

(** The loop warns at the first negative delta it meets and never
    again. *)
Lemma closestLoop_warning i : forall closest thr c,
  let st := closestLoop isLog val2lin xs i (closest, thr, c) in
  st.1.2 = thr && negb (negativeUpTo i)
  /\ st.2 = (if thr && negativeUpTo i then Chart.error 15 false c else c).
Proof.
  induction i as [|k IH]; intros closest thr c; cbv zeta.
  - simpl. by rewrite andb_true_r, andb_false_r.
  - cbn [closestLoop]. rewrite negativeUpTo_S.
    unfold closestStep, isNegativeAt.
    destruct (distanceAt isLog val2lin xs (S k)) as [d|] eqn:Hd.
    + destruct ((0 <? d)%Z && _) eqn:Hpos.
      * assert ((d <? 0)%Z = false) as ->
          by (apply andb_true_iff in Hpos as [? _]; lia).
        rewrite orb_false_r. apply IH.
      * destruct (d <? 0)%Z eqn:Hneg; cbn [andb].
        -- rewrite orb_true_r, andb_true_r. cbn [negb]. rewrite andb_false_r.
           destruct thr.
           ++ specialize (IH closest false (Chart.error 15 false c)).
              cbv zeta in IH. cbn [andb] in IH. apply IH.
           ++ apply IH.
        -- rewrite orb_false_r. apply IH.
    + rewrite orb_false_r. apply IH.
Qed.
End UnsortedWarning.

Section UnsortedWarningOfSeries.

(** The delta between the processed x values [j - 1] and [j] is a number
    below zero. *)
Definition negativeDelta (s : Series) (pxs : list Value) (j : nat) : Prop :=
  exists d, distanceAt (axisIsLog s) (axisVal2lin s) pxs j = Some d
            /\ (d < 0)%Z.

(** The series with [requireSorting] switched off. *)
Definition withoutRequireSorting (s : Series) : Series :=
  set_proto (Proto.set_requireSorting false (proto s)) s.

(** C2, as amended.  A processing pass of a series that requires sorting
    reports the unsorted-data warning (error 15, not fatal) exactly once
    when some delta between consecutive processed x values is negative,
    and not at all otherwise; a delta of zero does not count.  The
    processed data that the pass returns is the same as without
    [requireSorting]. *)
Theorem unsorted_warning_once (f : bool) (s : Series) :
  let p := (getProcessedData f s).1 in
  let s' := (getProcessedData f s).2 in
  let unsorted :=
    exists j, 1 <= j < length (Processed.xData p)
              /\ negativeDelta s (Processed.xData p) j in
  (Proto.requireSorting (proto s) = true /\ unsorted ->
   chart s' = Chart.error 15 false (chart s))
  /\ (~ (Proto.requireSorting (proto s) = true /\ unsorted) ->
      chart s' = chart s)
  /\ p = (getProcessedData f (withoutRequireSorting s)).1.
Proof.
  cbv zeta. unfold getProcessedData.
  replace (cropGate f (withoutRequireSorting s)) with (cropGate f s) by done.
  replace (outsideExtremes (withoutRequireSorting s))
    with (outsideExtremes s) by done.
  replace (spillsOut (withoutRequireSorting s)) with (spillsOut s) by done.
  replace (xData (withoutRequireSorting s)) with (xData s) by done.
  replace (yData (withoutRequireSorting s)) with (yData s) by done.
  replace (cropData (xData s) (yData s) (extremesMin (withoutRequireSorting s))
                    (extremesMax (withoutRequireSorting s)) None
                    (withoutRequireSorting s))
    with (cropData (xData s) (yData s) (extremesMin s) (extremesMax s)
                   None s) by done.
  destruct (if cropGate f s then _ else _) as [[[pxs pys] isCropped] start].
  replace (axisIsLog (withoutRequireSorting s)) with (axisIsLog s) by done.
  replace (axisVal2lin (withoutRequireSorting s)) with (axisVal2lin s)
    by done.
  pose proof (closestLoop_warning (axisIsLog s) (axisVal2lin s) pxs
                (length pxs - 1) None (Proto.requireSorting (proto s))
                (chart s)) as [_ Hc].
  pose proof (closestLoop_closest (axisIsLog s) (axisVal2lin s) pxs
                (length pxs - 1) None (Proto.requireSorting (proto s))
                (chart s)
                (Proto.requireSorting (proto (withoutRequireSorting s)))
                (chart (withoutRequireSorting s))) as Hcl.
  destruct (closestLoop _ _ pxs _ (None, Proto.requireSorting (proto s), _))
    as [[cl thr] c].
  destruct (closestLoop _ _ pxs _ _) as [[cl' thr'] c'].
  cbn [fst snd] in *. subst cl'.
  assert (Hiff : negativeUpTo (axisIsLog s) (axisVal2lin s) pxs
                              (length pxs - 1) = true
                 <-> exists j, 1 <= j < length pxs /\ negativeDelta s pxs j).
  { rewrite negativeUpTo_true. unfold negativeDelta, isNegativeAt.
    split; intros (j & Hj & Hn); exists j; (split; [lia|]).
    - destruct (distanceAt _ _ pxs j) as [d|]; [|done].
      exists d. split; [done|lia].
    - destruct Hn as (d & -> & Hd). lia. }
  split; [|split; [|done]].
  - intros [Hrs Hu]. apply Hiff in Hu. by rewrite Hc, Hrs, Hu.
  - intros Hno. rewrite Hc.
    destruct (Proto.requireSorting (proto s)); [|done].
    destruct (negativeUpTo _ _ pxs _) eqn:E; [|done].
    exfalso. apply Hno. split; [done|]. by apply Hiff.
Qed.

(** Two equal x values: the delta is zero, and no warning is issued. *)
Definition duplicateXSeries : Series :=
  set_dataArrays {[ "x" := [Num 1; Num 1]; "y" := [Num 5; Num 6] ]}
                 exampleSeries.

Lemma zero_delta_emits_no_warning :
  let r := getProcessedData false duplicateXSeries in
  Proto.requireSorting (proto duplicateXSeries) = true
  /\ Processed.xData r.1 = [Num 1; Num 1]
  /\ distanceAt false id (Processed.xData r.1) 1 = Some 0%Z
  /\ Chart.errors (chart duplicateXSeries) = []
  /\ Chart.errors (chart r.2) = [].
Proof. vm_compute. done. Qed.
End UnsortedWarningOfSeries.

(** ** Data processing: cropping *)

Section Cropping.

(** An entry of an array of numbers is a number of the array, or a hole. *)
Lemma numbers_lookup (zs : list Z) (i : nat) :
  nth_or_hole Undefined (Num <$> zs) i = Undefined
  \/ exists z, z ∈ zs /\ nth_or_hole Undefined (Num <$> zs) i = Num z.
Proof.
  unfold nth_or_hole. rewrite list_lookup_fmap.
  destruct (zs !! i) as [z|] eqn:E; simpl; [right|left; done].
  exists z. split; [by eapply list_elem_of_lookup_2|done].
Qed.

Lemma numbers_lookup_lt (zs : list Z) (i : nat) :
  i < length zs ->
  exists z, z ∈ zs /\ nth_or_hole Undefined (Num <$> zs) i = Num z.
Proof.
  intros Hi. unfold nth_or_hole. rewrite list_lookup_fmap.
  destruct (lookup_lt_is_Some_2 zs i Hi) as [z E]. rewrite E. simpl.
  exists z. split; [by eapply list_elem_of_lookup_2|done].
Qed.

(** Numbers that all lie within the extremes neither lie outside nor spill. *)
Lemma inside_extremes (s : Series) (lo hi : Z) (zs : list Z) :
  extremesMin s = Num lo -> extremesMax s = Num hi ->
  xData s = Num <$> zs ->
  Forall (fun z => lo <= z <= hi)%Z zs ->
  outsideExtremes s = false /\ spillsOut s = false.
Proof.
  intros Hlo Hhi Hxs Hin. rewrite Forall_forall in Hin.
  unfold outsideExtremes, spillsOut, firstX, lastX, greaterThan.
  rewrite Hlo, Hhi, Hxs.
  assert (Hany : forall i,
    lessThan (nth_or_hole Undefined (Num <$> zs) i) (Num lo) = false
    /\ lessThan (Num hi) (nth_or_hole Undefined (Num <$> zs) i) = false).
  { intros i. destruct (numbers_lookup zs i) as [->|(z & Hz & ->)]; [done|].
    specialize (Hin z Hz). simpl. split; apply Z.ltb_ge; lia. }
  destruct (Hany 0) as [-> ->].
  destruct (Hany (length (Num <$> zs) - 1)) as [-> ->].
  split; [done|]. by rewrite andb_false_r.
Qed.

(** Numbers that all lie below the minimum, or all above the maximum, lie
    outside the extremes. *)
Lemma beyond_extremes (s : Series) (lo hi : Z) (zs : list Z) :
  extremesMin s = Num lo -> extremesMax s = Num hi ->
  xData s = Num <$> zs -> zs <> [] ->
  Forall (fun z => z < lo)%Z zs \/ Forall (fun z => hi < z)%Z zs ->
  outsideExtremes s = true.
Proof.
  intros Hlo Hhi Hxs Hne Hout.
  unfold outsideExtremes, firstX, lastX, greaterThan.
  rewrite Hlo, Hhi, Hxs.
  assert (Hlen : 0 < length zs) by (destruct zs; [done|simpl; lia]).
  destruct Hout as [Hout|Hout]; rewrite Forall_forall in Hout.
  - destruct (numbers_lookup_lt zs (length (Num <$> zs) - 1))
      as (z & Hz & ->); [rewrite length_fmap; lia|].
    simpl. apply orb_true_iff. left. apply Z.ltb_lt. by apply Hout.
  - destruct (numbers_lookup_lt zs 0) as (z & Hz & ->); [done|].
    simpl. apply orb_true_iff. right. apply Z.ltb_lt. by apply Hout.
Qed.

(** C3.  For x = 0 .. 99, extremes [40, 60], [cropThreshold = 10] and
    [cropShoulder = 1], processing crops to [cropStart = 39] and the raw
    indices 39 .. 61.  In general the data is cropped only when it spills out
    of the extremes; where cropping applies, data that lies wholly outside
    the extremes leaves empty processed arrays; data that lies wholly inside
    is left as it is. *)
Theorem crop_correctness :
  (let p := (getProcessedData false cropExampleSeries).1 in
   Proto.cropShoulder (proto cropExampleSeries) = 1%Z
   /\ Processed.cropped p = true
   /\ Processed.cropStart p = 39%Z
   /\ Processed.xData p = numbersFrom 39 23
   /\ Processed.yData p = numbersFrom 1039 23
   /\ last (Processed.xData p) = Some (Num 61))
  /\ (forall (f : bool) (s : Series),
        let p := (getProcessedData f s).1 in
        (Processed.cropped p = true ->
         cropGate f s = true /\ outsideExtremes s = false
         /\ spillsOut s = true)
        /\ (cropGate f s = true -> outsideExtremes s = true ->
            Processed.xData p = [] /\ Processed.yData p = [])
        /\ (outsideExtremes s = false -> spillsOut s = false ->
            Processed.xData p = xData s /\ Processed.yData p = yData s
            /\ Processed.cropped p = false
            /\ Processed.cropStart p = 0%Z))
  /\ (forall (f : bool) (s : Series) (lo hi : Z) (zs : list Z),
        let p := (getProcessedData f s).1 in
        extremesMin s = Num lo -> extremesMax s = Num hi ->
        xData s = Num <$> zs ->
        (Forall (fun z => lo <= z <= hi)%Z zs ->
         Processed.xData p = xData s /\ Processed.yData p = yData s
         /\ Processed.cropped p = false)
        /\ (cropGate f s = true -> zs <> [] ->
            Forall (fun z => z < lo)%Z zs \/ Forall (fun z => hi < z)%Z zs ->
            Processed.xData p = [] /\ Processed.yData p = []
            /\ Processed.cropped p = false)).
Proof.
  split; [vm_compute; done|].
  assert (Hcases : forall (f : bool) (s : Series),
    let p := (getProcessedData f s).1 in
    (Processed.cropped p = true ->
     cropGate f s = true /\ outsideExtremes s = false /\ spillsOut s = true)
    /\ (cropGate f s = true -> outsideExtremes s = true ->
        Processed.xData p = [] /\ Processed.yData p = []
        /\ Processed.cropped p = false)
    /\ (outsideExtremes s = false -> spillsOut s = false ->
        Processed.xData p = xData s /\ Processed.yData p = yData s
        /\ Processed.cropped p = false
        /\ Processed.cropStart p = 0%Z)).
  { intros f s. cbv zeta. unfold getProcessedData.
    destruct (cropGate f s), (outsideExtremes s), (spillsOut s);
      match goal with
      | |- context [closestLoop ?a ?b ?c ?d ?e] =>
        destruct (closestLoop a b c d e) as [[cl thr] c']
      end; cbn [fst Processed.cropped Processed.xData Processed.yData
                Processed.cropStart]; repeat split; done. }
  split.
  - intros f s. cbv zeta.
    destruct (Hcases f s) as (H1 & H2 & H3).
    split; [done|]. split; [|done].
    intros Hg Ho. by destruct (H2 Hg Ho) as (? & ? & _).
  - intros f s lo hi zs. cbv zeta. intros Hlo Hhi Hxs.
    destruct (Hcases f s) as (_ & H2 & H3). split.
    + intros Hin.
      destruct (inside_extremes s lo hi zs Hlo Hhi Hxs Hin) as [Ho Hs].
      by destruct (H3 Ho Hs) as (? & ? & ? & _).
    + intros Hg Hne Hout.
      exact (H2 Hg (beyond_extremes s lo hi zs Hlo Hhi Hxs Hne Hout)).
Qed.

(** The data lies to the left of the axis range: nothing is left. *)
Lemma crop_correctness_witness :
  let s :=
    set_xAxis
      (Some (Axis.mk (Num 200) (Num 300) true false id Undefined Undefined))
      cropExampleSeries in
  Processed.xData (getProcessedData false s).1 = []
  /\ Processed.yData (getProcessedData false s).1 = [].
Proof.
  cbv zeta.
  match goal with
  | |- context [getProcessedData false ?s] =>
    apply (proj1 (proj2 (proj1 (proj2 crop_correctness) false s)))
  end; reflexivity.
Defined.

End Cropping.

(** ** The stable sort *)

Section StableSort.
Context {A : Type} (precedes : A -> A -> bool).

Lemma insert_sorted_Permutation a l :
  insert_sorted precedes a l ≡ₚ a :: l.
Proof.
  induction l as [|b l IH]; simpl; [done|].
  destruct (precedes b a); [|done].
  rewrite IH. apply Permutation_swap.
Qed.

Lemma stable_sort_Permutation l : stable_sort precedes l ≡ₚ l.
Proof.
  induction l as [|a l IH]; simpl; [done|].
  by rewrite insert_sorted_Permutation, IH.
Qed.

Lemma length_stable_sort l : length (stable_sort precedes l) = length l.
Proof. by rewrite stable_sort_Permutation. Qed.


(** [R] orders the output as soon as it is transitive and agrees with every
    comparison that the sort makes: [a] stands before [b] in the input, and
    [comparefn(b, a) < 0] decides which of the two comes first. *)
Context (R : relation A) `{!Transitive R}.

Definition agrees (a b : A) : Prop :=
  if precedes b a then R b a else R a b.

Lemma insert_sorted_sorted a l :
  StronglySorted R l -> Forall (agrees a) l ->
  StronglySorted R (insert_sorted precedes a l).
Proof.
  induction l as [|b l IH]; intros Hs Ha; simpl.
  - repeat constructor.
  - apply StronglySorted_cons in Hs as [Hb Hs].
    apply Forall_cons in Ha as [Hab Ha]. unfold agrees in Hab.
    destruct (precedes b a).
    + apply StronglySorted_cons. split; [|by apply IH].
      rewrite insert_sorted_Permutation. by apply Forall_cons.
    + apply StronglySorted_cons. split.
      * apply Forall_cons. split; [done|].
        eapply Forall_impl; [exact Hb|]. intros y Hy. by etrans.
      * by apply StronglySorted_cons.
Qed.

Lemma stable_sort_sorted l :
  StronglySorted agrees l -> StronglySorted R (stable_sort precedes l).
Proof.
  induction l as [|a l IH]; intros Hs; simpl; [constructor|].
  apply StronglySorted_cons in Hs as [Ha Hs].
  apply insert_sorted_sorted; [by apply IH|].
  by rewrite stable_sort_Permutation.
Qed.
End StableSort.

Section StableSortFacts.
Context {A : Type}.




Lemma StronglySorted_lookup (R : relation A) l i j a b :
  StronglySorted R l -> i < j -> l !! i = Some a -> l !! j = Some b -> R a b.
Proof.
  intros Hs Hij Hi Hj.
  rewrite <- (take_drop j l) in Hs.
  eapply StronglySorted_app_1_elem_of; [exact Hs| |].
  - apply list_elem_of_lookup. exists i. by rewrite lookup_take_lt.
  - apply list_elem_of_lookup. exists 0. by rewrite lookup_drop, Nat.add_0_r.
Qed.

End StableSortFacts.

(** ** sortData *)

Section SortData.

Lemma get_put_eq key v o : get key (put key v o) = v.
Proof.
  induction o as [|[k w] o IH]; simpl.
  - by rewrite String.eqb_refl.
  - destruct (String.eqb k key) eqn:E; simpl; by rewrite E.
Qed.

Lemma length_sortObjects entries : length (sortObjects entries) = length entries.
Proof. apply length_imap. Qed.

Lemma assignX_snoc refs r objs :
  assignX (refs ++ [r]) objs
  = alter (put "x" (Num (Z.of_nat (length refs)))) r (assignX refs objs).
Proof.
  unfold assignX. rewrite imap_app, foldl_app. simpl.
  by rewrite Nat.add_0_r.
Qed.

Lemma assignX_lookup_notin refs objs r :
  r ∉ refs -> assignX refs objs !! r = objs !! r.
Proof.
  induction refs as [|r' refs IH] using rev_ind; intros Hr; [done|].
  rewrite assignX_snoc. apply not_elem_of_app in Hr as [Hr Hne].
  rewrite list_lookup_alter_ne; [by apply IH|].
  intros ->. apply Hne. apply list_elem_of_singleton. done.
Qed.

Lemma assignX_lookup refs objs i r :
  NoDup refs -> refs !! i = Some r ->
  assignX refs objs !! r = put "x" (Num (Z.of_nat i)) <$> objs !! r.
Proof.
  induction refs as [|r' refs IH] using rev_ind; intros Hnd Hi; [done|].
  rewrite assignX_snoc.
  apply NoDup_app in Hnd as (Hnd & Hdisj & _).
  destruct (decide (i < length refs)) as [Hlt|Hge].
  - rewrite lookup_app_l in Hi by done.
    assert (r <> r').
    { intros ->. eapply Hdisj; [by eapply list_elem_of_lookup_2|].
      apply list_elem_of_singleton. done. }
    rewrite list_lookup_alter_ne by done. by apply IH.
  - assert (i = length refs) as ->.
    { apply lookup_lt_Some in Hi. rewrite length_app in Hi. simpl in Hi. lia. }
    rewrite lookup_app_r, Nat.sub_diag in Hi by lia. simplify_eq/=.
    rewrite list_lookup_alter_eq. rewrite assignX_lookup_notin; [done|].
    intros Hin. eapply Hdisj; [exact Hin|]. by apply list_elem_of_singleton.
Qed.

(** The order of [sortedData]: by key, larger keys first, and by position in
    [data] among equal keys. *)
Definition sortedBefore (keyOf : nat -> Z) (a b : nat) : Prop :=
  (keyOf b < keyOf a)%Z \/ (keyOf a = keyOf b /\ a < b).

#[local] Instance sortedBefore_trans keyOf : Transitive (sortedBefore keyOf).
Proof. unfold sortedBefore. intros a b c ? ?. lia. Qed.



End SortData.

(** ** generatePoints *)

Section GeneratePoints.

(** [arr[j]] of an array of points: the point, or nothing. *)
Definition pointAt (arr : list (option nat)) (j : nat) : option nat :=
  nth_or_hole None arr j.

Lemma pointAt_Some_lt arr j r : pointAt arr j = Some r -> j < length arr.
Proof.
  unfold pointAt, nth_or_hole. intros H.
  destruct (arr !! j) eqn:E; [|done]. by eapply lookup_lt_Some.
Qed.

Lemma pointAt_array_set arr i v j :
  pointAt (array_set None arr i v) j
  = if decide (j = i) then v else pointAt arr j.
Proof.
  unfold pointAt, nth_or_hole, array_set.
  destruct (decide (i < length arr)) as [Hlt|Hge].
  - case_decide as E.
    + subst. by rewrite list_lookup_insert_eq.
    + by rewrite list_lookup_insert_ne.
  - case_decide as E.
    + subst. rewrite lookup_app_r by lia.
      rewrite lookup_app_r by (rewrite length_replicate; lia).
      rewrite length_replicate.
      by replace (i - length arr - (i - length arr)) with 0 by lia.
    + destruct (decide (j < length arr)) as [Hj|Hj].
      * by rewrite lookup_app_l.
      * rewrite (lookup_ge_None_2 arr j) by lia.
        rewrite lookup_app_r by lia.
        destruct (decide (j < i)).
        -- rewrite lookup_app_l by (rewrite length_replicate; lia).
           rewrite lookup_replicate_2 by lia. done.
        -- rewrite lookup_app_r by (rewrite length_replicate; lia).
           rewrite length_replicate.
           rewrite lookup_ge_None_2; [done|]. simpl. lia.
Qed.

(** The rendered state of a point has been released. *)
Definition isReleased (p : Point) : Prop :=
  Point.hasElements p = false /\ Point.plotX p = None.

(** Every point of [data] is in the store, and no point stands at two
    positions. *)
Definition wellFormedData (dat : list (option nat)) (sto : list Point)
  : Prop :=
  (forall j r, pointAt dat j = Some r -> r < length sto)
  /\ (forall j1 j2 r,
         pointAt dat j1 = Some r -> pointAt dat j2 = Some r -> j1 = j2).

(** *** The loop that hides the cropped-away points *)

Lemma length_hideLoop fuel g cs pdl dat : forall i sto,
  length (hideLoop fuel g cs pdl dat i sto) = length sto.
Proof.
  induction fuel as [|fuel IH]; intros i sto; simpl; [done|].
  case_decide; [|done]. rewrite IH.
  destruct (nth_or_hole None dat _); [|done]. apply length_alter.
Qed.

Lemma hideLoop_keeps_released fuel g cs pdl dat r : forall i sto p p',
  sto !! r = Some p -> isReleased p ->
  hideLoop fuel g cs pdl dat i sto !! r = Some p' -> isReleased p'.
Proof.
  induction fuel as [|fuel IH]; intros i sto p p' Hp Hrel; simpl.
  - intros. by simplify_eq.
  - case_decide; [|intros; by simplify_eq].
    destruct (nth_or_hole None dat _) as [r'|]; [|by eapply IH].
    destruct (decide (r' = r)) as [->|Hne].
    + eapply IH; [by rewrite list_lookup_alter_eq, Hp|done].
    + eapply IH; [by rewrite list_lookup_alter_ne|done].
Qed.

Lemma hideLoop_keeps_index fuel g cs pdl dat r : forall i sto,
  Point.index <$> hideLoop fuel g cs pdl dat i sto !! r
  = Point.index <$> sto !! r.
Proof.
  induction fuel as [|fuel IH]; intros i sto; simpl; [done|].
  case_decide; [|done]. rewrite IH.
  destruct (nth_or_hole None dat _) as [r'|]; [|done].
  destruct (decide (r' = r)) as [->|Hne].
  - rewrite list_lookup_alter_eq. by destruct (sto !! r).
  - by rewrite list_lookup_alter_ne.
Qed.

(** Started outside the processed range with enough rounds left, the loop
    releases every point at a position from [i] on that lies outside the
    range. *)
Lemma hideLoop_releases cs pdl dat fuel : forall i sto j r p',
  (i <= cs \/ cs + pdl <= i) ->
  length dat - i <= fuel ->
  i <= j -> ~ (cs <= j < cs + pdl) ->
  pointAt dat j = Some r -> r < length sto ->
  hideLoop fuel false cs pdl dat i sto !! r = Some p' -> isReleased p'.
Proof.
  induction fuel as [|fuel IH]; intros i sto j r p' Hi Hfuel Hij Hout Hj Hr.
  - apply pointAt_Some_lt in Hj. lia.
  - pose proof (pointAt_Some_lt _ _ _ Hj) as Hjl.
    cbn [hideLoop]. rewrite decide_True by lia. rewrite andb_true_r.
    set (i' := if bool_decide (i = cs) then i + pdl else i).
    assert (Hi' : i <= i' /\ (S i' <= cs \/ cs + pdl <= S i')
                  /\ (j = i' \/ S i' <= j)).
    { unfold i'. case_bool_decide; lia. }
    destruct Hi' as (Hle & Hnext & [->|Hlt]).
    + fold (pointAt dat i'). rewrite Hj. intros Hl.
      destruct (lookup_lt_is_Some_2 sto r Hr) as [p Hp].
      eapply hideLoop_keeps_released; [|  |exact Hl].
      * by rewrite list_lookup_alter_eq, Hp.
      * done.
    + eapply (IH (S i') _ j r p'); try done; try lia.
      destruct (nth_or_hole None dat i'); [by rewrite length_alter|done].
Qed.

(** *** The main loop *)

(** The raw options hold an entry at position [j], or a point stands there
    already. *)
Definition hasSource (s : Series) (dat : list (option nat)) (j : nat) : Prop :=
  isUndefined (nth_or_hole Undefined (Options.data (options s)) j) = false
  \/ is_Some (pointAt dat j).

(** What holds of the arrays of the loop when it is about to handle the
    processed index [i]; [dat0] is [data] as the call found it. *)
Definition genInv (s : Series) (dat0 : list (option nat)) (i : nat)
    (st : GenState) : Prop :=
  let '(dat, sto, pts) := st in
  let cs := cropStart s in
  wellFormedData dat sto
  /\ length pts <= i
  /\ (pts <> [] -> cs + length pts <= length dat)
  /\ (forall k, k < i -> pointAt pts k = pointAt dat (cs + k))
  /\ (forall k r, k < i -> pointAt dat (cs + k) = Some r ->
                  Point.index <$> sto !! r = Some (Some (cs + k)))
  /\ (forall j r, pointAt dat0 j = Some r -> pointAt dat j = Some r)
  /\ (forall k, k < i -> hasSource s dat0 (cs + k) ->
                is_Some (pointAt dat (cs + k))).

Lemma pointAt_ge arr j : length arr <= j -> pointAt arr j = None.
Proof.
  intros H. unfold pointAt, nth_or_hole. by rewrite lookup_ge_None_2.
Qed.

Lemma generateStep_inv s dat0 i xv yv st :
  Proto.hasGroupedData (proto s) = false ->
  genInv s dat0 i st -> genInv s dat0 (S i) (generateStep s i xv yv st).
Proof.
  intros Hg. destruct st as [[dat sto] pts].
  intros (Hwf & Hlen & Hne & Hagree & Hidx & Hframe & Hsrc).
  destruct Hwf as [Hvalid Hnodup].
  unfold generateStep. rewrite Hg. cbn [negb].
  fold (pointAt dat (cropStart s + i)).
  set (cs := cropStart s) in *. set (cursor := cs + i).
  assert (Hpl : length (array_set None pts i (Some (length sto))) = S i
                /\ forall r, length (array_set None pts i (Some r)) = S i).
  { split; intros; rewrite length_array_set; lia. }
  destruct Hpl as [_ Hpl].
  destruct (pointAt dat cursor) as [r|] eqn:Hcur.
  - (* the point exists already *)
    pose proof (Hvalid _ _ Hcur) as Hr.
    pose proof (pointAt_Some_lt _ _ _ Hcur) as Hcl.
    unfold genInv. fold cs.
    split; [|split; [|split; [|split; [|split; [|split]]]]].
    + split; [|done]. intros j r' Hj. rewrite length_alter. eauto.
    + rewrite Hpl. lia.
    + intros _. rewrite Hpl. unfold cursor in Hcl. lia.
    + intros k Hk. rewrite pointAt_array_set. case_decide as E.
      * subst. done.
      * apply Hagree. lia.
    + intros k r' Hk Hr'. destruct (decide (k = i)) as [->|E].
      * fold cursor in Hr'. rewrite Hcur in Hr'. simplify_eq.
        rewrite list_lookup_alter_eq.
        destruct (lookup_lt_is_Some_2 sto r' Hr) as [p ->]. done.
      * assert (r <> r').
        { intros ->. assert (cursor = cs + k) by by eapply Hnodup.
          unfold cursor in *. lia. }
        rewrite list_lookup_alter_ne by done. apply Hidx; [lia|done].
    + done.
    + intros k Hk Hs. destruct (decide (k = i)) as [->|E].
      * fold cursor. rewrite Hcur. eauto.
      * apply Hsrc; [lia|done].
  - destruct (isUndefined (nth_or_hole Undefined (Options.data (options s))
                                       cursor)) eqn:Hopt; cbn [negb].
    + (* a hole in the raw options: nothing is created *)
      unfold genInv. fold cs.
      split; [done|]. split; [lia|]. split; [done|].
      split; [|split; [|split]].
      * intros k Hk. destruct (decide (k = i)) as [->|E].
        -- fold cursor. rewrite Hcur. by apply pointAt_ge.
        -- apply Hagree. lia.
      * intros k r' Hk Hr'. destruct (decide (k = i)) as [->|E].
        -- fold cursor in Hr'. congruence.
        -- apply Hidx; [lia|done].
      * done.
      * intros k Hk Hs. destruct (decide (k = i)) as [->|E].
        -- fold cursor in Hs. destruct Hs as [Hs|[r Hs]]; [congruence|].
           apply Hframe in Hs. congruence.
        -- apply Hsrc; [lia|done].
    + (* a new point *)
      set (pt := newPoint _ xv).
      assert (Hdat : forall j,
                 pointAt (array_set None dat cursor (Some (length sto))) j
                 = if decide (j = cursor) then Some (length sto)
                   else pointAt dat j)
        by (intros; apply pointAt_array_set).
      unfold genInv. fold cs.
      split; [|split; [|split; [|split; [|split; [|split]]]]].
      * split.
        -- intros j r' Hj. rewrite length_alter, length_app. simpl.
           rewrite Hdat in Hj. case_decide.
           ++ injection Hj as <-. lia.
           ++ apply Hvalid in Hj. lia.
        -- intros j1 j2 r' H1 H2. rewrite Hdat in H1, H2.
           destruct (decide (j1 = cursor)) as [->|E1],
                    (decide (j2 = cursor)) as [->|E2]; try done.
           ++ injection H1 as <-. apply Hvalid in H2. lia.
           ++ injection H2 as <-. apply Hvalid in H1. lia.
           ++ by eapply Hnodup.
      * rewrite Hpl. lia.
      * intros _. rewrite Hpl, length_array_set. unfold cursor. lia.
      * intros k Hk. rewrite pointAt_array_set, Hdat.
        destruct (decide (k = i)) as [->|E].
        -- by rewrite decide_True.
        -- rewrite decide_False by (unfold cursor; lia). apply Hagree. lia.
      * intros k r' Hk Hr'. rewrite Hdat in Hr'.
        destruct (decide (k = i)) as [->|E].
        -- rewrite decide_True in Hr' by done. injection Hr' as <-.
           rewrite list_lookup_alter_eq.
           rewrite lookup_app_r, Nat.sub_diag by lia. done.
        -- rewrite decide_False in Hr' by (unfold cursor; lia).
           pose proof (Hvalid _ _ Hr') as Hlt.
           rewrite list_lookup_alter_ne by lia.
           rewrite lookup_app_l by done. apply Hidx; [lia|done].
      * intros j r' Hj. apply Hframe in Hj. rewrite Hdat.
        case_decide; [subst; congruence|done].
      * intros k Hk Hs. rewrite Hdat. case_decide; [eauto|].
        apply Hsrc; [|done].
        destruct (decide (k = i)); [subst; done|lia].
Qed.

Lemma generateLoop_inv s dat0 xs : forall i st,
  Proto.hasGroupedData (proto s) = false ->
  genInv s dat0 i st ->
  genInv s dat0 (i + length xs) (generateLoop s i xs st).
Proof.
  induction xs as [|xv xs IH]; intros i st Hg Hinv; simpl.
  - by rewrite Nat.add_0_r.
  - replace (i + S (length xs)) with (S i + length xs) by lia.
    apply IH; [done|]. by apply generateStep_inv.
Qed.

(** C9.  On a series that is not grouped, whose points stand once each in
    [data] and whose processed indices all have raw options or a point
    already: after [generatePoints], [points] is no longer than [data];
    [points[k]] is the point at [data[cropStart + k]] and its index is
    [cropStart + k], for every processed index [k]; and every point that
    stood in [data] outside the processed range has its elements destroyed
    and its [plotX] cleared. *)
Theorem generatePoints_materializes (s : Series) :
  Proto.hasGroupedData (proto s) = false ->
  let old := default [] (data s) in
  let cs := cropStart s in
  let pdl := length (processedXData s) in
  wellFormedData old (store s) ->
  (forall k, k < pdl -> hasSource s old (cs + k)) ->
  let s' := generatePoints s in
  exists dat pts,
    data s' = Some dat /\ points s' = Some pts
    /\ length pts <= length dat
    /\ (forall k, k < pdl ->
           exists r p, pointAt pts k = Some r
                       /\ pointAt dat (cs + k) = Some r
                       /\ store s' !! r = Some p
                       /\ Point.index p = Some (cs + k))
    /\ (forall j r, pointAt old j = Some r -> ~ (cs <= j < cs + pdl) ->
                    exists p, store s' !! r = Some p /\ isReleased p).
Proof.
  intros Hg old cs pdl Hwf Hsrc s'.
  set (dat0 := match data s with
               | None => replicate (length (Options.data (options s))) None
               | Some d => d
               end).
  assert (Hinit : genInv s old 0 (dat0, store s, [])).
  { unfold genInv. split; [|split; [|split; [|split; [|split; [|split]]]]];
      try (intros; lia); try done.
    - unfold dat0, old in *. destruct (data s); [done|].
      split; intros j r; unfold pointAt, nth_or_hole;
        intros H; destruct (replicate _ _ !! j) eqn:E; try done;
        apply lookup_replicate in E as [-> _]; done.
    - unfold dat0, old. destruct (data s); done. }
  pose proof (generateLoop_inv s old (processedXData s) 0 _ Hg Hinit) as Hinv.
  cbn [Nat.add] in Hinv. fold pdl in Hinv.
  unfold s', generatePoints. rewrite Hg. cbn [negb orb].
  replace (default [] (match data s with
                       | None =>
                         Some (replicate (length (Options.data (options s)))
                                         None)
                       | Some d => Some d
                       end)) with dat0 by (unfold dat0; by destruct (data s)).
  destruct (generateLoop s 0 (processedXData s) (dat0, store s, []))
    as [[dat sto] pts].
  destruct Hinv as ([Hvalid Hnodup] & Hlen & Hne & Hagree & Hidx & Hframe
                    & Hall).
  fold cs in Hne, Hagree, Hidx, Hall.
  set (sto' := match match data s with
                     | None => Some _
                     | Some d => Some d
                     end with
               | Some _ => _
               | None => sto
               end).
  assert (Hsto' : sto' = if negb (bool_decide (pdl = length dat))
                         then hideLoop (length dat) false cs pdl dat 0 sto
                         else sto).
  { unfold sto'. fold pdl. rewrite !orb_false_r. by destruct (data s). }
  exists dat, pts.
  replace (data (set_points _ _)) with (Some dat)
    by (cbn [data set_points set_store set_data]; by destruct (data s)).
  cbn [points set_points store set_store].
  assert (Hindex : forall r, Point.index <$> sto' !! r
                             = Point.index <$> sto !! r).
  { intros r. rewrite Hsto'. destruct (negb _); [|done].
    apply hideLoop_keeps_index. }
  split; [done|]. split; [done|]. split; [|split].
  - destruct pts as [|? ?]; [simpl; lia|].
    assert (cs + length (o :: pts) <= length dat) by by apply Hne. lia.
  - intros k Hk.
    destruct (Hall k Hk (Hsrc k Hk)) as [r Hr].
    specialize (Hidx k r Hk Hr). rewrite <- Hindex in Hidx.
    destruct (sto' !! r) as [p|] eqn:Hp; [|done].
    exists r, p. rewrite Hagree by done. simpl in Hidx.
    repeat split; try done. congruence.
  - intros j r Hj Hout.
    pose proof (Hframe _ _ Hj) as Hj'.
    pose proof (Hvalid _ _ Hj') as Hr.
    pose proof (pointAt_Some_lt _ _ _ Hj') as Hjl.
    assert (Hguard : pdl <> length dat).
    { destruct (decide (pdl = 0)) as [->|Hpos]; [lia|].
      assert (Hlast : is_Some (pointAt dat (cs + (pdl - 1))))
        by (apply Hall; [lia|apply Hsrc; lia]).
      destruct Hlast as [r' Hlast%pointAt_Some_lt]. lia. }
    assert (Hl : is_Some (sto' !! r)).
    { apply lookup_lt_is_Some_2. rewrite Hsto'.
      destruct (negb _); [by rewrite length_hideLoop|done]. }
    destruct Hl as [p Hp]. exists p. split; [done|].
    rewrite Hsto' in Hp. rewrite bool_decide_eq_false_2 in Hp by done.
    cbn [negb] in Hp.
    eapply (hideLoop_releases cs pdl dat (length dat) 0 sto j r p);
      try done; lia.
Qed.

Lemma generatePoints_materializes_witness :
  exists dat pts,
    data (generatePoints renderedSeries) = Some dat
    /\ points (generatePoints renderedSeries) = Some pts
    /\ length pts <= length dat
    /\ (forall k, k < 2 ->
           exists r p, pointAt pts k = Some r
                       /\ pointAt dat (1 + k) = Some r
                       /\ store (generatePoints renderedSeries) !! r = Some p
                       /\ Point.index p = Some (1 + k))
    /\ (forall j r,
           pointAt [Some 0; Some 1; Some 2; Some 3] j = Some r ->
           ~ (1 <= j < 1 + 2) ->
           exists p, store (generatePoints renderedSeries) !! r = Some p
                     /\ isReleased p).
Proof.
  apply (generatePoints_materializes renderedSeries).
  - reflexivity.
  - split.
    + intros j r H. do 4 (destruct j as [|j]; [inversion H; simpl; lia|]).
      inversion H.
    + intros j1 j2 r H1 H2.
      do 4 (destruct j1 as [|j1];
            [do 4 (destruct j2 as [|j2];
                   [inversion H1; inversion H2; congruence|]);
             inversion H2|]).
      inversion H1.
  - intros k Hk. left. do 2 (destruct k as [|k]; [reflexivity|]).
    simpl in Hk. lia.
Defined.
End GeneratePoints.

(** ** addPoint and removePoint *)

Section AddRemove.

Lemma clamp_start_nat len i : clamp_start len (Z.of_nat i) = Nat.min i len.
Proof.
  unfold clamp_start. destruct (Z.of_nat i <? 0)%Z eqn:E; [lia|].
  by rewrite Nat2Z.id.
Qed.

Lemma splice_insert {A} (l : list A) i x :
  i <= length l -> splice l (Z.of_nat i) 0 [x] = take i l ++ x :: drop i l.
Proof.
  intros Hi. unfold splice. rewrite clamp_start_nat.
  replace (Nat.min i (length l)) with i by lia. simpl.
  by rewrite Nat.add_0_r.
Qed.

Lemma splice_delete_middle {A} (l1 l2 : list A) x :
  splice (l1 ++ x :: l2) (Z.of_nat (length l1)) 1 [] = l1 ++ l2.
Proof.
  unfold splice. rewrite clamp_start_nat, length_app. cbn [length].
  replace (Nat.min (length l1) (length l1 + S (length l2)))
    with (length l1) by lia.
  replace (Nat.min (Z.to_nat (Z.max 1 0))
                   (length l1 + S (length l2) - length l1))
    with 1 by lia.
  rewrite take_app_length.
  rewrite drop_app_ge by lia.
  replace (length l1 + 1 - length l1) with 1 by lia. done.
Qed.

Lemma splice_delete_past_end {A} (l : list A) i :
  length l <= i -> splice l (Z.of_nat i) 1 [] = l.
Proof.
  intros Hi. unfold splice. rewrite clamp_start_nat.
  replace (Nat.min i (length l)) with (length l) by lia.
  rewrite Nat.sub_diag, Nat.min_0_r, Nat.add_0_r.
  rewrite take_ge, drop_all by lia. simpl. apply app_nil_r.
Qed.

Lemma array_set_middle {A} (hole : A) (l1 l2 : list A) x v :
  array_set hole (l1 ++ x :: l2) (length l1) v = l1 ++ v :: l2.
Proof.
  unfold array_set. rewrite decide_True by (rewrite length_app; simpl; lia).
  replace (length l1) with (length l1 + 0) at 1 by lia.
  by rewrite insert_app_r.
Qed.

(** Insert at [i], overwrite what was inserted, delete at [i]. *)
Lemma splice_round_trip {A} (hole : A) (l : list A) i x v :
  i <= length l ->
  splice (array_set hole (splice l (Z.of_nat i) 0 [x]) i v) (Z.of_nat i) 1 []
  = l.
Proof.
  intros Hi. rewrite splice_insert by done.
  assert (Hl : length (take i l) = i) by (rewrite length_take; lia).
  rewrite <- Hl at 3 4. rewrite array_set_middle, splice_delete_middle.
  apply take_drop.
Qed.

Lemma dataOf_updateParallelArrays point i args key s :
  NoDup (Proto.parallelArrays (proto s)) ->
  key ∈ Proto.parallelArrays (proto s) ->
  isArrayMethod i args = true ->
  dataOf key (updateParallelArrays point i args s)
  = writeOf (proto s) point i args key (dataOf key s).
Proof.
  intros Hnd Hkey Hm. rewrite updateParallelArrays_arrays by done.
  unfold dataOf. cbn [dataArrays set_dataArrays].
  by rewrite updateArrays_lookup_in.
Qed.

Lemma applyOptions_frame o s :
  let sa := (applyOptions o s).2 in
  dataArrays sa = dataArrays s /\ proto sa = proto s
  /\ options sa = options s /\ data sa = data s.
Proof.
  cbv zeta. unfold applyOptions.
  destruct (isUndefined _); [|done]. done.
Qed.

Lemma scanBack_le xv xs i : scanBack xv xs i <= i.
Proof.
  induction i as [|k IH]; simpl; [done|].
  destruct (greaterThan _ _); lia.
Qed.

Lemma insertionIndex_le xv s : (insertionIndex xv s).1 <= length (xData s).
Proof.
  unfold insertionIndex. destruct (_ && _); simpl; [|done].
  apply scanBack_le.
Qed.

Lemma generatePoints_data_Some s d :
  data s = Some d -> is_Some (data (generatePoints s)).
Proof.
  intros Hd. unfold generatePoints. rewrite Hd.
  destruct (generateLoop _ _ _ _) as [[dat sto] pts]. simpl. eauto.
Qed.

(** [addPoint] without shift and without redraw. *)
Lemma addPoint_no_shift o s dat pt sa i mid :
  data s = Some dat ->
  applyOptions o s = (pt, sa) ->
  insertionIndex (get "x" pt) sa = (i, mid) ->
  exists s1,
    addPoint o false false s = Returned s1
    /\ proto s1 = proto s
    /\ dataArrays s1
       = dataArrays
           (updateParallelArrays pt (AtIndex i) []
              (updateParallelArrays pt (Method "splice")
                 [Num (Z.of_nat i); Num 0; Num 0] sa))
    /\ Options.data (options s1)
       = splice (Options.data (options s)) (Z.of_nat i) 0 [o]
    /\ is_Some (data s1)
    /\ (Options.legendType (options s) <> Some "point" ->
        data s1
        = Some (if mid then splice dat (Z.of_nat i) 0 [None] else dat)).
Proof.
  intros Hd Ha Hi.
  pose proof (applyOptions_frame o s) as (Hfa & Hfp & Hfo & Hfd).
  rewrite Ha in Hfa, Hfp, Hfo, Hfd. cbn [snd] in Hfa, Hfp, Hfo, Hfd.
  unfold addPoint. rewrite Ha, Hi.
  set (s3 := updateParallelArrays pt (AtIndex i) []
               (updateParallelArrays pt (Method "splice")
                  [Num (Z.of_nat i); Num 0; Num 0] sa)).
  assert (H3 : proto s3 = proto s /\ options s3 = options s
               /\ data s3 = Some dat).
  { unfold s3. rewrite updateParallelArrays_arrays by done.
    rewrite (updateParallelArrays_arrays _ (Method "splice")) by done.
    cbn [proto options data set_dataArrays]. rewrite Hfd, Hd. done. }
  destruct H3 as (Hp3 & Ho3 & Hd3).
  set (s4 := set_options _ s3).
  assert (H4 : proto s4 = proto s /\ dataArrays s4 = dataArrays s3
               /\ Options.data (options s4)
                  = splice (Options.data (options s)) (Z.of_nat i) 0 [o]
               /\ Options.legendType (options s4)
                  = Options.legendType (options s)
               /\ data s4 = Some dat).
  { unfold s4. cbn. by rewrite Hp3, Ho3, Hd3. }
  destruct H4 as (Hp4 & Ha4 & Ho4 & Hl4 & Hd4).
  rewrite Hd4.
  set (s5 := if mid
             then processData false
                    (set_data (Some (splice dat (Z.of_nat i) 0 [None])) s4)
             else s4).
  assert (H5 : proto s5 = proto s /\ dataArrays s5 = dataArrays s3
               /\ options s5 = options s4
               /\ data s5
                  = Some (if mid then splice dat (Z.of_nat i) 0 [None]
                          else dat)).
  { unfold s5. destruct mid; [|done].
    match goal with
    | |- context [processData false ?x] =>
      pose proof (processData_frame false x) as (-> & -> & -> & _ & _ & _ & ->)
    end. done. }
  destruct H5 as (Hp5 & Ha5 & Ho5 & Hd5).
  replace (if mid then Returned (processData false _) else Returned s4)
    with (Returned s5) by (unfold s5; by destruct mid).
  cbn iota beta.
  eexists. split; [reflexivity|].
  rewrite Ho5, Hl4.
  case_bool_decide as Hleg.
  - pose proof (generatePoints_frame s5) as (Hg1 & Hg2 & _ & Hg4 & _).
    pose proof (generatePoints_data_Some s5 _ Hd5) as Hg5.
    cbn [proto dataArrays options data set_dirty].
    rewrite Hg1, Hg2, Hg4, Ho5. done.
  - cbn [proto dataArrays options data set_dirty].
    rewrite Hd5, Ho5. eauto 10.
Qed.

(** C10.  When [series.points] and [series.data] differ in length,
    [removePoint(i)] leaves [series.points] as it is; [data] and
    [options.data] lose the entry at [i], and the parallel arrays get the
    same splice. *)
Theorem removePoint_leaves_points_when_lengths_differ
    (i : nat) (s : Series) (dat pts : list (option nat)) :
  data s = Some dat -> points s = Some pts ->
  length pts <> length dat ->
  exists s',
    removePoint i false s = Returned s'
    /\ points s' = Some pts
    /\ data s' = Some (splice dat (Z.of_nat i) 1 [])
    /\ Options.data (options s')
       = splice (Options.data (options s)) (Z.of_nat i) 1 []
    /\ dataArrays s'
       = dataArrays (updateParallelArrays [] (Method "splice")
                                          [Num (Z.of_nat i); Num 1] s).
Proof.
  intros Hd Hp Hne. unfold removePoint. rewrite Hd, Hp.
  rewrite bool_decide_eq_false_2 by done.
  eexists. split; [reflexivity|].
  assert (Hm : isArrayMethod (Method "splice") [Num (Z.of_nat i); Num 1]
               = true) by done.
  rewrite !updateParallelArrays_arrays by done.
  destruct (nth_or_hole None dat i); cbn; by rewrite ?Hp.
Qed.

Lemma removePoint_leaves_points_when_lengths_differ_witness :
  exists s',
    removePoint 2 false croppedSeries = Returned s'
    /\ points s' = Some [Some 0; Some 1; Some 2; Some 3]
    /\ data s'
       = Some (splice [None; Some 0; Some 1; Some 2; Some 3] 2 1 [])
    /\ Options.data (options s')
       = splice (Options.data (options croppedSeries)) 2 1 []
    /\ dataArrays s'
       = dataArrays (updateParallelArrays [] (Method "splice")
                                          [Num 2; Num 1] croppedSeries).
Proof.
  apply (removePoint_leaves_points_when_lengths_differ
           2 croppedSeries [None; Some 0; Some 1; Some 2; Some 3]
           [Some 0; Some 1; Some 2; Some 3]).
  - reflexivity.
  - reflexivity.
  - simpl. lia.
Defined.

(** The index at which [addPoint(o)] inserts, and whether that is in the
    middle of the series. *)
Definition addedIndex (o : Value) (s : Series) : nat * bool :=
  insertionIndex (get "x" (applyOptions o s).1) (applyOptions o s).2.

(** C8, as amended.  On a series whose declared dimension arrays have one
    length, [addPoint(o)] without shift followed by [removePoint] at the
    insertion index restores every declared dimension array ([xData],
    [yData]), and [options.data] when it has that length too.
    [series.data] is restored when the legend is not by point and the point
    was inserted at an index that [data] reaches, or appended past the
    end of [data]. *)
Theorem addPoint_removePoint_round_trip
    (o : Value) (s : Series) (n : nat) (dat : list (option nat)) :
  NoDup (Proto.parallelArrays (proto s)) ->
  "x" ∈ Proto.parallelArrays (proto s) ->
  alignedAt n s ->
  data s = Some dat ->
  let i := (addedIndex o s).1 in
  let isInTheMiddle := (addedIndex o s).2 in
  exists s1 s2,
    addPoint o false false s = Returned s1
    /\ removePoint i false s1 = Returned s2
    /\ (forall key, key ∈ Proto.parallelArrays (proto s) ->
                    dataOf key s2 = dataOf key s)
    /\ (length (Options.data (options s)) = n ->
        Options.data (options s2) = Options.data (options s))
    /\ (Options.legendType (options s) <> Some "point" ->
        (if isInTheMiddle then i <= length dat else length dat <= i) ->
        data s2 = Some dat).
Proof.
  intros Hnd Hx Hal Hd. unfold addedIndex.
  destruct (applyOptions o s) as [pt sa] eqn:Ha. cbn [fst snd].
  destruct (insertionIndex (get "x" pt) sa) as [i mid] eqn:Hi. cbn [fst snd].
  pose proof (applyOptions_frame o s) as (Hfa & Hfp & _ & _).
  rewrite Ha in Hfa, Hfp. cbn [snd] in Hfa, Hfp.
  assert (Hlen : forall key, key ∈ Proto.parallelArrays (proto s) ->
                             length (dataOf key s) = n).
  { intros key Hkey. specialize (Hal key Hkey). unfold dataOf.
    destruct (dataArrays s !! key); simpl in *; congruence. }
  assert (Hin : i <= n).
  { pose proof (insertionIndex_le (get "x" pt) sa) as Hle.
    rewrite Hi in Hle. cbn [fst] in Hle.
    rewrite <- (Hlen "x" Hx). unfold xData, dataOf in *. by rewrite <- Hfa. }
  destruct (addPoint_no_shift o s dat pt sa i mid Hd Ha Hi)
    as (s1 & Hadd & Hp1 & Ha1 & Ho1 & [dat1 Hd1] & Hdat1).
  exists s1.
  unfold removePoint. rewrite Hd1.
  eexists. split; [exact Hadd|]. split; [reflexivity|].
  set (s1' := set_options _ _).
  assert (H1' : proto s1' = proto s /\ dataArrays s1' = dataArrays s1).
  { unfold s1'. destruct (points s1) as [pts|]; [case_bool_decide|]; done. }
  destruct H1' as [Hp1' Ha1'].
  assert (Hm : isArrayMethod (Method "splice") [Num (Z.of_nat i); Num 1]
               = true) by done.
  assert (Hfinal : forall sx : Series,
             dataArrays
               (set_dirty true true
                  (match nth_or_hole None dat1 i with
                   | Some r => set_store (alter Point.destroy r (store sx)) sx
                   | None => sx
                   end)) = dataArrays sx
             /\ options
                  (set_dirty true true
                     (match nth_or_hole None dat1 i with
                      | Some r =>
                        set_store (alter Point.destroy r (store sx)) sx
                      | None => sx
                      end)) = options sx
             /\ data
                  (set_dirty true true
                     (match nth_or_hole None dat1 i with
                      | Some r =>
                        set_store (alter Point.destroy r (store sx)) sx
                      | None => sx
                      end)) = data sx).
  { intros sx. by destruct (nth_or_hole None dat1 i). }
  split; [|split].
  - intros key Hkey. unfold dataOf at 1.
    rewrite (proj1 (Hfinal _)). fold (dataOf key
      (updateParallelArrays [] (Method "splice")
                            [Num (Z.of_nat i); Num 1] s1')).
    rewrite dataOf_updateParallelArrays by (rewrite ?Hp1'; done).
    cbn [writeOf apply_method String.eqb Ascii.eqb Bool.eqb default toInteger
         toNumber].
    unfold dataOf at 1. rewrite Ha1', Ha1.
    fold (dataOf key (updateParallelArrays pt (AtIndex i) []
            (updateParallelArrays pt (Method "splice")
               [Num (Z.of_nat i); Num 0; Num 0] sa))).
    assert (Hps : proto (updateParallelArrays pt (Method "splice")
                    [Num (Z.of_nat i); Num 0; Num 0] sa) = proto s)
      by (rewrite updateParallelArrays_proto; done).
    rewrite dataOf_updateParallelArrays by (rewrite ?Hps; done).
    rewrite dataOf_updateParallelArrays by (rewrite ?Hfp; done).
    cbn [writeOf apply_method String.eqb Ascii.eqb Bool.eqb default toInteger
         toNumber].
    replace (dataOf key sa) with (dataOf key s)
      by (unfold dataOf; by rewrite Hfa).
    apply splice_round_trip. rewrite Hlen by done. done.
  - intros Hol. rewrite (proj1 (proj2 (Hfinal _))).
    rewrite updateParallelArrays_arrays by done.
    cbn [options set_dataArrays]. unfold s1'.
    assert (Hopt : forall sx od, Options.data
                     (options (set_options (Options.set_data od (options sx))
                                           sx)) = od) by done.
    replace (Options.data (options (set_options _ _)))
      with (splice (Options.data (options s1)) (Z.of_nat i) 1 []).
    2:{ destruct (points s1) as [pts|]; [case_bool_decide|]; done. }
    rewrite Ho1, splice_insert by lia.
    assert (Hl : length (take i (Options.data (options s))) = i)
      by (rewrite length_take; lia).
    rewrite <- Hl at 3. rewrite splice_delete_middle. apply take_drop.
  - intros Hleg Hcond. specialize (Hdat1 Hleg).
    rewrite Hd1 in Hdat1. injection Hdat1 as ->.
    rewrite (proj2 (proj2 (Hfinal _))).
    rewrite updateParallelArrays_arrays by done.
    cbn [data set_dataArrays]. unfold s1'. cbn [data set_options].
    replace (data (set_data _ _))
      with (Some (splice (if mid then splice dat (Z.of_nat i) 0 [None]
                          else dat) (Z.of_nat i) 1 [])).
    2:{ destruct (points s1) as [pts|]; [case_bool_decide|]; done. }
    f_equal. destruct mid.
    + rewrite splice_insert by done.
      assert (Hl : length (take i dat) = i) by (rewrite length_take; lia).
      rewrite <- Hl at 3. rewrite splice_delete_middle. apply take_drop.
    + by apply splice_delete_past_end.
Qed.

(** Three points, loaded without redraw, so that no point is materialized
    yet. *)
Definition freshSeries : Series :=
  stateOf (setData noSoftUpdate
             [Arr [Num 0; Num 1]; Arr [Num 10; Num 2]; Arr [Num 20; Num 3]]
             false true exampleSeries).

Lemma addPoint_removePoint_round_trip_witness :
  let o := Arr [Num 2; Num 99] in
  let i := (addedIndex o croppedSeries).1 in
  let isInTheMiddle := (addedIndex o croppedSeries).2 in
  exists s1 s2,
    addPoint o false false croppedSeries = Returned s1
    /\ removePoint i false s1 = Returned s2
    /\ (forall key, key ∈ Proto.parallelArrays (proto croppedSeries) ->
                    dataOf key s2 = dataOf key croppedSeries)
    /\ (length (Options.data (options croppedSeries)) = 6 ->
        Options.data (options s2) = Options.data (options croppedSeries))
    /\ (Options.legendType (options croppedSeries) <> Some "point" ->
        (if isInTheMiddle then i <= length [None; Some 0; Some 1; Some 2; Some 3]
         else length [None; Some 0; Some 1; Some 2; Some 3] <= i) ->
        data s2 = Some [None; Some 0; Some 1; Some 2; Some 3]).
Proof.
  apply (addPoint_removePoint_round_trip
           (Arr [Num 2; Num 99]) croppedSeries 6
           [None; Some 0; Some 1; Some 2; Some 3]).
  - by_evaluation.
  - by_evaluation.
  - intros key Hkey.
    assert (Hkeys : Proto.parallelArrays (proto croppedSeries) = ["x"; "y"])
      by (vm_compute; reflexivity).
    rewrite Hkeys in Hkey. apply list_elem_of_In in Hkey.
    destruct Hkey as [<-|[<-|[]]]; vm_compute; reflexivity.
  - vm_compute. reflexivity.
Defined.

(** On a series whose points are not materialized yet, a point added in
    the middle leaves a [null] in [series.data] that [removePoint] does not
    take out again. *)
Lemma addPoint_removePoint_leaves_data_longer :
  let o := Arr [Num 5; Num 9] in
  let s1 := stateOf (addPoint o false false freshSeries) in
  let s2 := stateOf (removePoint 1 false s1) in
  addedIndex o freshSeries = (1, true)
  /\ xData freshSeries = [Num 0; Num 10; Num 20]
  /\ xData s1 = [Num 0; Num 5; Num 10; Num 20]
  /\ xData s2 = [Num 0; Num 10; Num 20]
  /\ data freshSeries = Some []
  /\ data s1 = Some [None]
  /\ data s2 = Some [None]
  /\ length (default [] (data s2)) <> length (default [] (data freshSeries)).
Proof. vm_compute. repeat split; discriminate. Qed.
End AddRemove.

(** ** The k-d tree *)

Section Distances.

(** [a <= b] on distances. *)
Definition dist_le (a b : Distance) : Prop := dist_lt b a = false.

Lemma dist_le_refl a : dist_le a a.
Proof. unfold dist_le. destruct a; simpl; lia. Qed.

Lemma dist_le_trans a b c : dist_le a b -> dist_le b c -> dist_le a c.
Proof. unfold dist_le. destruct a, b, c; simpl; try done; lia. Qed.

Lemma dist_le_total a b : dist_lt a b = false -> dist_le b a.
Proof. done. Qed.

Lemma dist_lt_le a b : dist_lt a b = true -> dist_le a b.
Proof. unfold dist_le. destruct a, b; simpl; try done; lia. Qed.

Lemma dist_le_antisym a b : dist_le a b -> dist_le b a -> a = b.
Proof.
  unfold dist_le. destruct a, b; simpl; try done.
  intros. f_equal. lia.
Qed.
End Distances.

Section KDTree.
Context (s : Series) (dimensions : nat).

(** The points of a tree, left to right. *)
Fixpoint treePoints (t : KDNode) : list Point :=
  match t with
  | Leaf => []
  | Node l p r => treePoints l ++ p :: treePoints r
  end.

(** [a[axis] <= b[axis]], both numbers. *)
Definition axisLe (axis : string) (a b : Point) : Prop :=
  exists u v, Point.axisValue axis a = Some u
              /\ Point.axisValue axis b = Some v /\ (u <= v)%Z.

(** The point has a number on every axis the tree splits on. *)
Definition plotted (p : Point) : Prop :=
  forall depth, is_Some (Point.axisValue (kdAxis s depth dimensions) p).

(** At every node the left subtree lies at or below the node along the
    node's axis, and the right subtree at or above it. *)
Fixpoint splits (depth : nat) (t : KDNode) : Prop :=
  match t with
  | Leaf => True
  | Node l p r =>
    let axis := kdAxis s depth dimensions in
    is_Some (Point.axisValue axis p)
    /\ (forall q, q ∈ treePoints l -> axisLe axis q p)
    /\ (forall q, q ∈ treePoints r -> axisLe axis p q)
    /\ splits (depth + 1) l /\ splits (depth + 1) r
  end.

(** *** Building *)

Lemma kdPrecedes_sorted axis pts :
  Forall (fun p => is_Some (Point.axisValue axis p)) pts ->
  StronglySorted (axisLe axis) (stable_sort (kdPrecedes axis) pts).
Proof.
  intros Hnum.
  set (R := fun a b : Point =>
              (default 0 (Point.axisValue axis a)
               <= default 0 (Point.axisValue axis b))%Z).
  assert (HR : Transitive R) by (intros a b c; unfold R; lia).
  assert (Hs : StronglySorted R (stable_sort (kdPrecedes axis) pts)).
  { apply stable_sort_sorted; [done|].
    induction Hnum as [|a pts [u Hu] Hnum IH]; constructor; [done|].
    eapply Forall_impl; [exact Hnum|]. intros b [v Hv].
    unfold agrees, kdPrecedes, R. rewrite Hu, Hv. simpl.
    destruct (v - u <? 0)%Z eqn:E; lia. }
  assert (Hnum' : Forall (fun p => is_Some (Point.axisValue axis p))
                         (stable_sort (kdPrecedes axis) pts))
    by by rewrite stable_sort_Permutation.
  clear Hnum. revert Hs Hnum'.
  generalize (stable_sort (kdPrecedes axis) pts) as l.
  induction l as [|a l IH]; intros Hs Hn; constructor.
  - apply IH; [by apply StronglySorted_cons in Hs as [_ ?]|].
    by apply Forall_cons in Hn as [_ ?].
  - apply StronglySorted_cons in Hs as [Hs _].
    apply Forall_cons in Hn as [[u Hu] Hn].
    rewrite Forall_forall in Hs, Hn |- *. intros b Hb.
    destruct (Hn b Hb) as [v Hv]. specialize (Hs b Hb).
    unfold R in Hs. rewrite Hu, Hv in Hs. simpl in Hs.
    exists u, v. done.
Qed.

Lemma kdtreeRec_builds fuel : forall pts depth,
  length pts <= fuel -> Forall plotted pts ->
  treePoints (kdtreeRec fuel s pts depth dimensions) ≡ₚ pts
  /\ splits depth (kdtreeRec fuel s pts depth dimensions).
Proof.
  induction fuel as [|fuel IH]; intros pts depth Hlen Hpl.
  - destruct pts; [done|simpl in Hlen; lia].
  - destruct pts as [|p0 ps]; [done|].
    cbn [kdtreeRec].
    set (axis := kdAxis s depth dimensions).
    set (sorted := stable_sort (kdPrecedes axis) (p0 :: ps)).
    assert (Hperm : sorted ≡ₚ p0 :: ps) by apply stable_sort_Permutation.
    assert (Hsl : length sorted = S (length ps)) by by rewrite Hperm.
    assert (Hpls : Forall plotted sorted) by by rewrite Hperm.
    assert (Hsorted : StronglySorted (axisLe axis) sorted).
    { apply kdPrecedes_sorted. eapply Forall_impl; [exact Hpl|].
      intros q Hq. apply Hq. }
    set (median := length sorted / 2).
    assert (Hm : median < length sorted).
    { unfold median. rewrite Hsl. apply Nat.div_lt; lia. }
    destruct (lookup_lt_is_Some_2 sorted median Hm) as [pt Hpt].
    rewrite Hpt.
    assert (Hsplit : sorted = take median sorted ++ pt :: drop (median + 1) sorted).
    { rewrite Nat.add_1_r. symmetry. by apply take_drop_middle. }
    destruct (IH (take median sorted) (depth + 1)) as [Hpl1 Hsp1].
    { rewrite length_take. simpl in Hlen. lia. }
    { by apply Forall_take. }
    destruct (IH (drop (median + 1) sorted) (depth + 1)) as [Hpl2 Hsp2].
    { rewrite length_drop. simpl in Hlen. lia. }
    { by apply Forall_drop. }
    rewrite Hsplit in Hsorted.
    apply StronglySorted_app in Hsorted as (Hcross & _ & Hright).
    apply StronglySorted_cons in Hright as [Hright _].
    split.
    + cbn [treePoints]. rewrite Hpl1, Hpl2, <- Hsplit. done.
    + cbn [splits]. fold axis. repeat split; try done.
      * rewrite Forall_forall in Hpls. apply Hpls.
        by eapply list_elem_of_lookup_2.
      * intros q Hq. rewrite Hpl1 in Hq. apply Hcross; [done|].
        apply elem_of_cons. by left.
      * intros q Hq. rewrite Hpl2 in Hq.
        rewrite Forall_forall in Hright. by apply Hright.
Qed.

Lemma _kdtree_builds pts depth :
  Forall plotted pts ->
  treePoints (_kdtree s pts depth dimensions) ≡ₚ pts
  /\ splits depth (_kdtree s pts depth dimensions).
Proof. intros. by apply kdtreeRec_builds. Qed.
End KDTree.

Section KDSearchFacts.
Context (s : Series) (dimensions : nat) (compareX : bool)
        (q : KDPointSearchObject).

(** The distance that the search compares: [point[kdComparer]] once
    [setDistance] has run on the point. *)
Definition distanceTo (p : Point) : Distance :=
  default MAX_VALUE (kdComparer compareX (setDistance s q p)).

Lemma kdComparer_setDistance p :
  kdComparer compareX (setDistance s q p) = Some (distanceTo p).
Proof. unfold distanceTo. by destruct compareX. Qed.

Lemma axisValue_setDistance axis p :
  Point.axisValue axis (setDistance s q p) = Point.axisValue axis p.
Proof. done. Qed.

(** [p] is a point of [pts] at the least distance. *)
Definition nearestIn (pts : list Point) (p : Point) : Prop :=
  p ∈ pts /\ forall p2, p2 ∈ pts -> dist_le (distanceTo p) (distanceTo p2).

(** What a search of a subtree hands back: nothing on an absent subtree,
    else a nearest point of the subtree, with its distances set. *)
Definition searched (pts : list Point) (res : option Point) : Prop :=
  match res with
  | None => pts = []
  | Some r => exists p, r = setDistance s q p /\ nearestIn pts p
  end.

Lemma nearestIn_node pt ptsA resA :
  searched ptsA resA ->
  let point := setDistance s q pt in
  let ret :=
    match resA with
    | Some nPoint1 =>
      if distanceLt (kdComparer compareX nPoint1) (kdComparer compareX point)
      then nPoint1 else point
    | None => point
    end in
  exists p, ret = setDistance s q p /\ nearestIn (pt :: ptsA) p.
Proof.
  intros HA. cbv zeta. destruct resA as [r|]; simpl in HA.
  - destruct HA as (pA & -> & HinA & HminA).
    rewrite !kdComparer_setDistance. cbn [distanceLt].
    destruct (dist_lt (distanceTo pA) (distanceTo pt)) eqn:E.
    + exists pA. split; [done|]. split; [apply elem_of_cons; by right|].
      intros p2 [->|Hp2]%elem_of_cons; [by apply dist_lt_le|by apply HminA].
    + exists pt. split; [done|]. split; [apply elem_of_cons; by left|].
      intros p2 [->|Hp2]%elem_of_cons; [apply dist_le_refl|].
      eapply dist_le_trans; [exact E|by apply HminA].
  - subst. exists pt. split; [done|]. split; [apply elem_of_cons; by left|].
    intros p2 [->|Hp2]%elem_of_cons; [apply dist_le_refl|].
    by apply elem_of_nil in Hp2.
Qed.

(** One node of [_search]: the near side first, the far side only when the
    splitting plane is closer than the best point so far. *)
Lemma nearestIn_combine pt ptsA ptsB resA resB (t : Z) :
  searched ptsA resA -> searched ptsB resB ->
  (forall p2, p2 ∈ ptsB -> dist_le (Sqrt (t * t)) (distanceTo p2)) ->
  let point := setDistance s q pt in
  let ret :=
    match resA with
    | Some nPoint1 =>
      if distanceLt (kdComparer compareX nPoint1) (kdComparer compareX point)
      then nPoint1 else point
    | None => point
    end in
  let result :=
    if distanceLt (Some (Sqrt (t * t))) (kdComparer compareX ret) then
      match resB with
      | Some nPoint2 =>
        if distanceLt (kdComparer compareX nPoint2) (kdComparer compareX ret)
        then Some nPoint2 else Some ret
      | None => Some ret
      end
    else Some ret in
  exists p, result = Some (setDistance s q p)
            /\ nearestIn (pt :: ptsA ++ ptsB) p.
Proof.
  intros HA HB Hfar. cbv zeta.
  destruct (nearestIn_node pt ptsA resA HA) as (pR & -> & HinR & HminR).
  rewrite !kdComparer_setDistance. cbn [distanceLt].
  assert (Hsub : forall p2, p2 ∈ pt :: ptsA ++ ptsB ->
                            p2 ∈ pt :: ptsA \/ p2 ∈ ptsB).
  { intros p2. rewrite !elem_of_cons, elem_of_app. tauto. }
  assert (HinR' : pR ∈ pt :: ptsA ++ ptsB).
  { revert HinR. rewrite !elem_of_cons, elem_of_app. tauto. }
  destruct (dist_lt (Sqrt (t * t)) (distanceTo pR)) eqn:Enear.
  - destruct resB as [r|]; simpl in HB.
    + destruct HB as (pB & -> & HinB & HminB).
      rewrite !kdComparer_setDistance. cbn [distanceLt].
      destruct (dist_lt (distanceTo pB) (distanceTo pR)) eqn:E.
      * exists pB. split; [done|]. split.
        { rewrite elem_of_cons, elem_of_app. tauto. }
        intros p2 [Hp2|Hp2]%Hsub; [|by apply HminB].
        eapply dist_le_trans; [by apply dist_lt_le|by apply HminR].
      * exists pR. split; [done|]. split; [done|].
        intros p2 [Hp2|Hp2]%Hsub; [by apply HminR|].
        eapply dist_le_trans; [exact E|by apply HminB].
    + subst. exists pR. split; [done|]. split; [done|].
      intros p2 [Hp2|Hp2]%Hsub; [by apply HminR|].
      by apply elem_of_nil in Hp2.
  - exists pR. split; [done|]. split; [done|].
    intros p2 [Hp2|Hp2]%Hsub; [by apply HminR|].
    eapply dist_le_trans; [exact Enear|by apply Hfar].
Qed.
End KDSearchFacts.

Section KDSearchCorrect.
Context (s : Series) (dimensions : nat) (compareX : bool)
        (q : KDPointSearchObject).
Context (Hmode : compareX = false \/ dimensions = 1)
        (Hdims : dimensions = 1 \/ dimensions = 2)
        (Hquery : forall depth,
            is_Some (KDSearch.axisValue (kdAxis s depth dimensions) q)).

Lemma squaredDiff_nonneg a b : (0 <= default 0 (squaredDiff a b))%Z.
Proof. destruct a, b; simpl; try lia. apply Z.square_nonneg. Qed.

(** No point is closer to the query than it is along one split axis. *)
Lemma axis_distance_bound depth p u v :
  KDSearch.axisValue (kdAxis s depth dimensions) q = Some u ->
  Point.axisValue (kdAxis s depth dimensions) p = Some v ->
  dist_le (Sqrt ((u - v) * (u - v))) (distanceTo s compareX q p).
Proof using Hmode Hdims Hquery.
  unfold kdAxis. intros Hu Hv.
  assert (Hk : depth mod dimensions = 0
               \/ (depth mod dimensions = 1 /\ compareX = false)).
  { destruct Hdims as [->| ->].
    - left. apply Nat.mod_1_r.
    - destruct Hmode as [->|?]; [|lia].
      pose proof (Nat.mod_upper_bound depth 2). lia. }
  unfold distanceTo, setDistance, kdComparer, dist_le.
  pose proof (squaredDiff_nonneg
                (KDSearch.axisValue
                   (default "" (Proto.kdAxisArray (proto s) !! 0)) q)
                (Point.axisValue
                   (default "" (Proto.kdAxisArray (proto s) !! 0)) p)) as H0.
  pose proof (squaredDiff_nonneg
                (KDSearch.axisValue
                   (default "" (Proto.kdAxisArray (proto s) !! 1)) q)
                (Point.axisValue
                   (default "" (Proto.kdAxisArray (proto s) !! 1)) p)) as H1.
  destruct Hk as [Hk|[Hk ->]]; rewrite Hk in Hu, Hv.
  - rewrite Hu, Hv in H0 |- *. cbn [squaredDiff default] in H0 |- *.
    destruct compareX; simpl; lia.
  - rewrite Hu, Hv in H1 |- *. cbn [squaredDiff default] in H1 |- *.
    simpl. lia.
Qed.

Lemma search_correct t : forall depth,
  splits s dimensions depth t ->
  searched s compareX q (treePoints t)
           (_search s compareX q t depth dimensions).
Proof using Hmode Hdims Hquery.
  induction t as [|l IHl pt r IHr]; intros depth Hsp; [done|].
  destruct Hsp as ([v Hv] & Hleft & Hright & Hsl & Hsr).
  destruct (Hquery depth) as [u Hu].
  specialize (IHl _ Hsl). specialize (IHr _ Hsr).
  cbn [_search treePoints].
  rewrite axisValue_setDistance, Hu, Hv.
  assert (Hfar : forall p2 v2,
             Point.axisValue (kdAxis s depth dimensions) p2 = Some v2 ->
             ((u - v) * (u - v) <= (u - v2) * (u - v2))%Z ->
             dist_le (Sqrt ((u - v) * (u - v)))
                     (distanceTo s compareX q p2)).
  { intros p2 v2 Hv2 Hle.
    eapply dist_le_trans; [|by eapply axis_distance_bound].
    unfold dist_le. simpl. lia. }
  destruct (u - v <? 0)%Z eqn:Eside.
  - destruct (nearestIn_combine s compareX q pt (treePoints l)
                (treePoints r) _ _ (u - v) IHl IHr) as (p & Hres & Hin & Hmin).
    { intros p2 Hp2. destruct (Hright p2 Hp2) as (v' & v2 & Hv' & Hv2 & Hle).
      rewrite Hv in Hv'. injection Hv' as <-.
      apply (Hfar p2 v2 Hv2). nia. }
    rewrite Hres. exists p. split; [done|]. split.
    + revert Hin. rewrite !elem_of_cons, !elem_of_app, elem_of_cons. tauto.
    + intros p2 Hp2. apply Hmin. revert Hp2.
      rewrite !elem_of_cons, !elem_of_app, elem_of_cons. tauto.
  - destruct (nearestIn_combine s compareX q pt (treePoints r)
                (treePoints l) _ _ (u - v) IHr IHl) as (p & Hres & Hin & Hmin).
    { intros p2 Hp2. destruct (Hleft p2 Hp2) as (v2 & v' & Hv2 & Hv' & Hle).
      rewrite Hv in Hv'. injection Hv' as <-.
      apply (Hfar p2 v2 Hv2). nia. }
    rewrite Hres. exists p. split; [done|]. split.
    + revert Hin. rewrite !elem_of_cons, !elem_of_app, elem_of_cons. tauto.
    + intros p2 Hp2. apply Hmin. revert Hp2.
      rewrite !elem_of_cons, !elem_of_app, elem_of_cons. tauto.
Qed.
End KDSearchCorrect.

Section LinearScan.
Context (s : Series) (compareX : bool) (q : KDPointSearchObject).

(** The exhaustive scan that the tree search is measured against: every
    point gets its distances set, and the first point at the least distance
    is kept. *)
Definition scanStep (best : option Point) (p : Point) : option Point :=
  let p' := setDistance s q p in
  match best with
  | Some b =>
    if distanceLt (kdComparer compareX p') (kdComparer compareX b)
    then Some p' else best
  | None => Some p'
  end.

Definition linearScan (pts : list Point) : option Point :=
  foldl scanStep None pts.

Lemma scanStep_searched seen best p :
  searched s compareX q seen best ->
  searched s compareX q (seen ++ [p]) (scanStep best p).
Proof.
  unfold scanStep. destruct best as [b|]; simpl.
  - intros (pb & -> & Hin & Hmin).
    rewrite !kdComparer_setDistance. cbn [distanceLt].
    destruct (dist_lt _ _) eqn:E.
    + exists p. split; [done|]. split.
      * apply elem_of_app. right. by apply list_elem_of_singleton.
      * intros p2 [Hp2| ->%list_elem_of_singleton]%elem_of_app.
        -- eapply dist_le_trans; [by apply dist_lt_le|by apply Hmin].
        -- apply dist_le_refl.
    + exists pb. split; [done|]. split.
      * apply elem_of_app. by left.
      * intros p2 [Hp2| ->%list_elem_of_singleton]%elem_of_app.
        -- by apply Hmin.
        -- exact E.
  - intros ->. exists p. split; [done|]. split.
    + by apply list_elem_of_singleton.
    + intros p2 ->%list_elem_of_singleton. apply dist_le_refl.
Qed.

Lemma foldl_scanStep_searched pts : forall seen best,
  searched s compareX q seen best ->
  searched s compareX q (seen ++ pts) (foldl scanStep best pts).
Proof.
  induction pts as [|p pts IH]; intros seen best Hs; simpl.
  - by rewrite app_nil_r.
  - replace (seen ++ p :: pts) with ((seen ++ [p]) ++ pts)
      by (by rewrite <- app_assoc).
    apply IH. by apply scanStep_searched.
Qed.

Lemma linearScan_searched pts : searched s compareX q pts (linearScan pts).
Proof. by apply (foldl_scanStep_searched pts [] None). Qed.
End LinearScan.

Section SearchKDTree.

Lemma _search_proto s1 s2 compareX q t : forall depth dimensions,
  proto s1 = proto s2 ->
  _search s1 compareX q t depth dimensions
  = _search s2 compareX q t depth dimensions.
Proof.
  induction t as [|l IHl pt r IHr]; intros depth dimensions Hp; [done|].
  cbn [_search]. unfold kdAxis, setDistance. rewrite Hp.
  rewrite (IHl _ _ Hp), (IHr _ _ Hp). done.
Qed.

(** C5, as amended.  Once the tree is built over the valid points, all of
    them plotted, [searchKDTree] returns a point at the least distance under
    the comparer of the call: [dist] without [compareX], on a one- or
    two-dimensional tree, and [distX] with [compareX] on a one-dimensional
    tree.  The exhaustive scan finds a point at the same distance, and the
    same point when only one point lies at that distance. *)
Theorem searchKDTree_finds_nearest
    (s : Series) (q : KDPointSearchObject) (compareX touchstart : bool) :
  let built := startRecursive s in
  let valid :=
    getValidPoints None (negb (Proto.directTouch (proto s))) false s in
  let dims := kdDimensions s in
  compareX = false \/ dims = 1 ->
  Forall (plotted s dims) valid ->
  (forall depth, is_Some (KDSearch.axisValue (kdAxis s depth dims) q)) ->
  valid <> [] ->
  exists found scanned,
    (searchKDTree q compareX touchstart built).1
    = Some (setDistance s q found)
    /\ linearScan s compareX q valid = Some (setDistance s q scanned)
    /\ found ∈ valid /\ scanned ∈ valid
    /\ distanceTo s compareX q found = distanceTo s compareX q scanned
    /\ (forall p, p ∈ valid ->
                  dist_le (distanceTo s compareX q found)
                          (distanceTo s compareX q p))
    /\ ((forall p, p ∈ valid ->
                   distanceTo s compareX q p = distanceTo s compareX q found ->
                   p = found) ->
        found = scanned).
Proof.
  intros built valid dims Hmode Hplotted Hquery Hne.
  assert (Hdims : dims = 1 \/ dims = 2).
  { unfold dims, kdDimensions. destruct (containsY _); auto. }
  destruct (_kdtree_builds s dims valid dims Hplotted) as [Hperm Hsplits].
  set (tree := _kdtree s valid dims dims) in *.
  assert (Htree : kdTree built = tree) by done.
  assert (Hleaf : isLeaf tree = false).
  { destruct tree; [|done]. simpl in Hperm.
    apply Permutation_nil_l in Hperm. done. }
  pose proof (search_correct s dims compareX q Hmode Hdims Hquery tree dims
                             Hsplits) as Hsearch.
  pose proof (linearScan_searched s compareX q valid) as Hscan.
  assert (Hres : (searchKDTree q compareX touchstart built).1
                 = _search s compareX q tree dims dims).
  { unfold searchKDTree. rewrite Htree, Hleaf. cbn [andb fst].
    rewrite Htree. by apply _search_proto. }
  rewrite Hres.
  destruct (_search s compareX q tree dims dims) as [r|]; simpl in Hsearch.
  2:{ rewrite Hsearch in Hperm. apply Permutation_nil_l in Hperm. done. }
  destruct Hsearch as (found & -> & Hfin & Hfmin).
  destruct (linearScan s compareX q valid) as [r|]; simpl in Hscan; [|done].
  destruct Hscan as (scanned & -> & Hsin & Hsmin).
  rewrite Hperm in Hfin.
  assert (Hfmin' : forall p, p ∈ valid ->
                             dist_le (distanceTo s compareX q found)
                                     (distanceTo s compareX q p)).
  { intros p Hp. apply Hfmin. by rewrite Hperm. }
  assert (Heq : distanceTo s compareX q found
                = distanceTo s compareX q scanned).
  { apply dist_le_antisym; [by apply Hfmin'|by apply Hsmin]. }
  exists found, scanned. repeat split; try done.
  intros Huniq. symmetry. by apply Huniq.
Qed.
End SearchKDTree.

Section SearchExamples.

(** Four points; the tree splits on [clientX] at the root and on [plotY]
    below it. *)
Definition fourPoints : list Point :=
  [plottedPoint 0 0 0; plottedPoint 1 5 10; plottedPoint 2 20 0;
   plottedPoint 3 30 0].

(** Two points, one close in x and far in y, one the other way round. *)
Definition twoPoints : list Point :=
  [plottedPoint 0 0 100; plottedPoint 1 3 0].

Lemma searchKDTree_finds_nearest_witness :
  let s := plottedSeries "xy" fourPoints in
  let q := KDSearch.mk (Some 0%Z) (Some 100%Z) in
  let valid :=
    getValidPoints None (negb (Proto.directTouch (proto s))) false s in
  exists found scanned,
    (searchKDTree q false false (startRecursive s)).1
    = Some (setDistance s q found)
    /\ linearScan s false q valid = Some (setDistance s q scanned)
    /\ found ∈ valid /\ scanned ∈ valid
    /\ distanceTo s false q found = distanceTo s false q scanned
    /\ (forall p, p ∈ valid ->
                  dist_le (distanceTo s false q found)
                          (distanceTo s false q p))
    /\ ((forall p, p ∈ valid ->
                   distanceTo s false q p = distanceTo s false q found ->
                   p = found) ->
        found = scanned).
Proof.
  intros s q valid.
  apply (searchKDTree_finds_nearest s q false false).
  - left. reflexivity.
  - change (kdDimensions s) with 2.
    change (getValidPoints None (negb (Proto.directTouch (proto s))) false s)
      with fourPoints.
    repeat constructor; intros depth; unfold kdAxis;
      pose proof (Nat.mod_upper_bound depth 2 ltac:(lia)) as Hd;
      destruct (depth mod 2) as [|[|k]];
      try (eexists; reflexivity); lia.
  - intros depth. change (kdDimensions s) with 2. unfold kdAxis.
    pose proof (Nat.mod_upper_bound depth 2 ltac:(lia)) as Hd.
    destruct (depth mod 2) as [|[|k]]; try (eexists; reflexivity); lia.
  - change (getValidPoints None (negb (Proto.directTouch (proto s))) false s)
      with fourPoints.
    discriminate.
Defined.

(** With [compareX] set on a two-dimensional tree the search returns the
    point at x-distance 5 although another lies at x-distance 0; without
    [compareX] on a one-dimensional tree it returns the point that is
    nearest in the plane although another is nearer in x. *)
Lemma searchKDTree_misses_nearest_by_x :
  (let s := startRecursive (plottedSeries "xy" fourPoints) in
   let q := KDSearch.mk (Some 0%Z) (Some 100%Z) in
   kdDimensions s = 2
   /\ (fun p => (Point.index p, Point.distX p))
        <$> (searchKDTree q true false s).1
      = Some (Some 1, Some (Sqrt 25))
   /\ (fun p => (Point.index p, Point.distX p))
        <$> linearScan s true q fourPoints
      = Some (Some 0, Some (Sqrt 0)))
  /\ (let s := startRecursive (plottedSeries "x" twoPoints) in
      let q := KDSearch.mk (Some 1%Z) (Some 0%Z) in
      kdDimensions s = 1
      /\ (fun p => (Point.index p, Point.distX p))
           <$> (searchKDTree q false false s).1
         = Some (Some 1, Some (Sqrt 4))
      /\ (fun p => (Point.index p, Point.distX p))
           <$> linearScan s true q twoPoints
         = Some (Some 0, Some (Sqrt 1))).
Proof. vm_compute. done. Qed.
End SearchExamples.

(** * Further properties of the data pipeline *)

(** ** autoIncrement: the x values of points given without x *)

Section AutoIncrement.

(** The interval by which [autoIncrement] advances when the unit is not one
    of day, month and year: [pointInterval] without a unit; with any other
    unit the date is left as it is and the interval is
    [date.getTime() - xIncrement], that is zero. *)
Definition effectiveInterval (s : Series) : Z :=
  let pInt :=
    default (default 1%Z (Options.pointInterval (options s)))
            (pointInterval s) in
  match Options.pointIntervalUnit (options s) with
  | Some u => if String.eqb u "" then pInt else 0%Z
  | None => pInt
  end.

Definition hasCalendarUnit (s : Series) : bool :=
  match Options.pointIntervalUnit (options s) with
  | Some u => isCalendarUnit u
  | None => false
  end.

Lemma autoIncrement_step (s : Series) :
  hasCalendarUnit s = false ->
  let start :=
    default (default 0%Z (Options.pointStart (options s))) (xIncrement s) in
  let s1 := (autoIncrement s).2 in
  (autoIncrement s).1 = start
  /\ xIncrement s1 = Some (start + effectiveInterval s)%Z
  /\ options s1 = options s
  /\ effectiveInterval s1 = effectiveInterval s
  /\ hasCalendarUnit s1 = false.
Proof.
  intros Hcal. cbv zeta.
  unfold autoIncrement, effectiveInterval, hasCalendarUnit in *.
  cbn [fst snd xIncrement options pointInterval set_xIncrement
       set_pointInterval default].
  destruct (Options.pointIntervalUnit (options s)) as [u|]; [|done].
  rewrite Hcal.
  destruct (String.eqb u ""); [done|].
  repeat split; try done. f_equal. lia.
Qed.

(** [pick(this.pointInterval, options.pointInterval, 1)] *)
Definition givenInterval (s : Series) : Z :=
  default (default 1%Z (Options.pointInterval (options s))) (pointInterval s).

(** [if (pointIntervalUnit)] *)
Definition hasUnit (s : Series) : bool :=
  match Options.pointIntervalUnit (options s) with
  | Some u => negb (String.eqb u "")
  | None => false
  end.

(** The integers on which the additions of the code, which are additions
    of doubles, are exact: those up to [2 ^ 53] in absolute value. *)
Definition exactInteger (z : Z) : Prop := (- 2 ^ 53 <= z <= 2 ^ 53)%Z.

(** The time values of a [Date], 8.64e15 ms either side of the epoch: on
    these [new Date(x).getTime()] is [x], beyond them it is [NaN]. *)
Definition timeValue (z : Z) : Prop :=
  (- 8640000000000000 <= z <= 8640000000000000)%Z.

Lemma autoIncrements_progression (n : nat) (s : Series) :
  hasCalendarUnit s = false ->
  let start :=
    default (default 0%Z (Options.pointStart (options s))) (xIncrement s) in
  let step := effectiveInterval s in
  (autoIncrements n s).1
  = (fun k => (start + Z.of_nat k * step)%Z) <$> seq 0 n
  /\ (0 < n ->
      xIncrement (autoIncrements n s).2
      = Some (start + Z.of_nat n * step)%Z).
Proof.
  revert s. induction n as [|n IH]; intros s Hcal; cbv zeta.
  { split; [done|lia]. }
  cbn [autoIncrements].
  pose proof (autoIncrement_step s Hcal) as (H1 & H2 & H3 & H4 & H5).
  destruct (autoIncrement s) as [xv s1] eqn:E. cbn [fst snd] in *.
  specialize (IH s1 H5). cbv zeta in IH. destruct IH as [IH1 IH2].
  destruct (autoIncrements n s1) as [xs s2] eqn:E2. cbn [fst snd] in *.
  rewrite H2, H3, H4 in *. cbn [default] in *. unfold id in *.
  split.
  - cbn [seq fmap list_fmap]. f_equal; [lia|].
    rewrite IH1. rewrite <- fmap_S_seq, <- list_fmap_compose.
    apply list_fmap_ext. intros i k _. simpl. lia.
  - intros _. destruct n as [|n].
    + cbn [autoIncrements] in E2. injection E2 as <- <-.
      rewrite H2. f_equal. lia.
    + rewrite IH2 by lia. f_equal. lia.
Qed.

(** X1.  Without a calendar unit, and as long as the numbers are integers
    that doubles hold exactly (the interval given, every x handed out and
    the cursor; with a unit, the start is a time value of a [Date] as
    well), [n] successive calls of [autoIncrement] return the arithmetic
    progression that starts at the current [xIncrement] (or [pointStart],
    or 0) and advances by [pointInterval] (default 1); the cursor is left
    one interval past the last value.  With a unit other than day, month
    and year the interval is zero, so every call returns the same x. *)
Theorem autoIncrement_arithmetic (n : nat) (s : Series) :
  hasCalendarUnit s = false ->
  let start :=
    default (default 0%Z (Options.pointStart (options s))) (xIncrement s) in
  let step := effectiveInterval s in
  exactInteger (givenInterval s) ->
  (forall k, k <= n -> exactInteger (start + Z.of_nat k * step)) ->
  (hasUnit s = true -> timeValue start) ->
  (autoIncrements n s).1
  = (fun k => (start + Z.of_nat k * step)%Z) <$> seq 0 n
  /\ (0 < n ->
      xIncrement (autoIncrements n s).2
      = Some (start + Z.of_nat n * step)%Z)
  /\ step = (if hasUnit s then 0%Z else givenInterval s).
Proof.
  intros Hcal start step _ _ _.
  destruct (autoIncrements_progression n s Hcal) as [Hxs Hcur].
  split; [exact Hxs|]. split; [exact Hcur|].
  unfold step, effectiveInterval, hasUnit, givenInterval.
  destruct (Options.pointIntervalUnit (options s)) as [u|]; [|done].
  by destruct (String.eqb u "").
Qed.

(** Five points from [pointStart = 10] at [pointInterval = 3]. *)
Definition intervalSeries : Series :=
  set_options
    (Options.mk [] (Some 1000%Z) None None None (Some 10%Z) (Some 3%Z) None
                "x" None false true)
    exampleSeries.

Lemma autoIncrement_arithmetic_witness :
  (autoIncrements 5 intervalSeries).1
  = (fun k => (10 + Z.of_nat k * 3)%Z) <$> seq 0 5
  /\ (0 < 5 ->
      xIncrement (autoIncrements 5 intervalSeries).2
      = Some (10 + Z.of_nat 5 * 3)%Z)
  /\ 3%Z = (if hasUnit intervalSeries then 0%Z else givenInterval intervalSeries).
Proof.
  apply (autoIncrement_arithmetic 5 intervalSeries).
  - reflexivity.
  - unfold exactInteger. vm_compute. split; discriminate.
  - intros k Hk. unfold exactInteger.
    change (effectiveInterval intervalSeries) with 3%Z.
    change (default _ (xIncrement intervalSeries)) with 10%Z. lia.
  - intros _. unfold timeValue.
    change (default _ (xIncrement intervalSeries)) with 10%Z. lia.
Defined.

End AutoIncrement.

(** ** cropData: what the crop keeps *)

Section ScanAndSlice.

Lemma scanFrom_spec (p : Value -> bool) (arr : list Value) :
  forall i j found,
    scanFrom p i arr = (j, found) ->
    i <= j <= i + length arr
    /\ (forall k v, k < j - i -> arr !! k = Some v -> p v = false)
    /\ (if found then exists v, arr !! (j - i) = Some v /\ p v = true
        else j = i + length arr).
Proof.
  induction arr as [|a arr IH]; intros i j found H; simpl in H.
  - injection H as <- <-. simpl. split; [lia|]. split; [intros; lia|lia].
  - destruct (p a) eqn:Hp.
    + injection H as <- <-. simpl. split; [lia|]. split; [intros; lia|].
      exists a. by rewrite Nat.sub_diag.
    + apply IH in H as (Hij & Hbefore & Hat). simpl.
      split; [lia|]. split.
      * intros k v Hk Hv. destruct k as [|k]; simpl in Hv; [congruence|].
        apply (Hbefore k); [lia|done].
      * destruct found; [|lia].
        destruct Hat as (v & Hv & Hpv). exists v. split; [|done].
        replace (j - i) with (S (j - S i)) by lia. done.
Qed.

Lemma slice_lookup_Some {A} (l : list A) (a b : Z) k v :
  (0 <= a)%Z ->
  slice l a b !! k = Some v -> l !! (Z.to_nat a + k) = Some v.
Proof.
  intros Ha. unfold slice, clamp_start.
  destruct (a <? 0)%Z eqn:E; [lia|].
  intros [H _]%lookup_take_Some. rewrite lookup_drop in H.
  assert (Hlt : Nat.min (Z.to_nat a) (length l) + k < length l)
    by (apply lookup_lt_is_Some; eauto).
  replace (Z.to_nat a + k) with (Nat.min (Z.to_nat a) (length l) + k) by lia.
  done.
Qed.

Lemma slice_lookup_in {A} (l : list A) (a b : Z) k v :
  (0 <= a)%Z -> (0 <= b)%Z ->
  Z.to_nat a <= k < Z.to_nat b -> l !! k = Some v ->
  slice l a b !! (k - Z.to_nat a) = Some v.
Proof.
  intros Ha Hb Hk Hv. unfold slice, clamp_start.
  destruct (a <? 0)%Z eqn:E; [lia|]. destruct (b <? 0)%Z eqn:E'; [lia|].
  assert (Hlt : k < length l) by (apply lookup_lt_is_Some; eauto).
  rewrite lookup_take_lt by lia. rewrite lookup_drop.
  replace (Nat.min (Z.to_nat a) (length l) + (k - Z.to_nat a)) with k by lia.
  done.
Qed.

Lemma length_slice_eq {A B} (l : list A) (l' : list B) (a b : Z) :
  length l = length l' -> length (slice l a b) = length (slice l' a b).
Proof.
  intros H. unfold slice. rewrite !length_take, !length_drop, H. done.
Qed.

Lemma count_le_prefix {A} (P : A -> bool) (l : list A) :
  forall n,
    (forall k v, l !! k = Some v -> n <= k -> P v = false) ->
    length (List.filter P l) <= n.
Proof.
  induction l as [|a l IH]; intros n H; simpl; [lia|].
  destruct n as [|n].
  - rewrite (H 0 a) by (done || lia).
    apply (IH 0). intros k v Hv _. apply (H (S k)); [done|lia].
  - assert (length (List.filter P l) <= n).
    { apply IH. intros k v Hv Hk. apply (H (S k)); [done|lia]. }
    destruct (P a); simpl; lia.
Qed.

Lemma count_le_suffix {A} (P : A -> bool) (l : list A) (n : nat) :
  (forall k v, l !! k = Some v -> k + n < length l -> P v = false) ->
  length (List.filter P l) <= n.
Proof.
  induction l as [|a l IH]; intros H; simpl; [lia|].
  destruct (decide (n < S (length l))) as [Hn|Hn].
  - rewrite (H 0 a) by (done || simpl; lia).
    apply IH. intros k v Hv Hk. apply (H (S k)); [done|simpl; lia].
  - pose proof (List.filter_length_le P l).
    destruct (P a); simpl; lia.
Qed.

End ScanAndSlice.

Section CropDataFacts.
Context (zs : list Z) (ys : list Value) (lo hi shoulder : Z) (s : Series).

(** The two scans of [cropData] over numbers: [i] is the first index at or
    above [min] and [j] the first index from [i] on above [max]; either is
    the length of the data when there is no such index. *)
Lemma cropData_scans :
  let c := cropData (Num <$> zs) ys (Num lo) (Num hi) (Some shoulder) s in
  exists i j,
    i <= j <= length zs
    /\ (forall k z, zs !! k = Some z -> k < i -> (z < lo)%Z)
    /\ (i < length zs -> exists z, zs !! i = Some z /\ (lo <= z)%Z)
    /\ (forall k z, zs !! k = Some z -> i <= k < j -> (z <= hi)%Z)
    /\ (j < length zs -> exists z, zs !! j = Some z /\ (hi < z)%Z)
    /\ CropData.start c
       = (if decide (i < length zs)
          then (Z.max 0 (Z.of_nat i - shoulder))%Z else 0%Z)
    /\ CropData.stop c
       = (if decide (j < length zs) then (Z.of_nat j + shoulder)%Z
          else Z.of_nat (length zs))
    /\ CropData.xData c
       = slice (Num <$> zs) (CropData.start c) (CropData.stop c)
    /\ CropData.yData c = slice ys (CropData.start c) (CropData.stop c).
Proof.
  cbv zeta. unfold cropData. cbn [default].
  destruct (scanFrom _ 0 (Num <$> zs)) as [i found] eqn:E1.
  destruct (scanFrom _ i (drop i (Num <$> zs))) as [j found'] eqn:E2.
  apply scanFrom_spec in E1 as (Hi & Hbi & Hati).
  apply scanFrom_spec in E2 as (Hj & Hbj & Hatj).
  rewrite length_fmap in Hi. rewrite length_drop, length_fmap in Hj.
  rewrite Nat.sub_0_r in Hbi, Hati.
  rewrite ?length_fmap in Hati. rewrite ?length_drop, ?length_fmap in Hatj.
  cbn [CropData.start CropData.stop CropData.xData CropData.yData].
  rewrite length_fmap.
  exists i, j. split; [lia|].
  assert (Hfi : found = true <-> i < length zs).
  { destruct found.
    - destruct Hati as (v & Hv & _).
      apply lookup_lt_Some in Hv. rewrite length_fmap in Hv. done.
    - split; [done|lia]. }
  assert (Hfj : found' = true <-> j < length zs).
  { destruct found'.
    - destruct Hatj as (v & Hv & _).
      apply lookup_lt_Some in Hv. rewrite length_drop, length_fmap in Hv.
      split; [lia|done].
    - split; [done|lia]. }
  split; [|split; [|split; [|split; [|split; [|split]]]]].
  - intros k z Hz Hk.
    specialize (Hbi k (Num z) Hk). rewrite list_lookup_fmap, Hz in Hbi.
    specialize (Hbi eq_refl). simpl in Hbi. lia.
  - intros Hlt. apply Hfi in Hlt. subst found.
    destruct Hati as (v & Hv & Hp).
    rewrite list_lookup_fmap in Hv.
    destruct (zs !! i) as [z|]; [|done]. injection Hv as <-.
    exists z. split; [done|]. simpl in Hp. lia.
  - intros k z Hz Hk.
    specialize (Hbj (k - i) (Num z)).
    rewrite lookup_drop, list_lookup_fmap in Hbj.
    replace (i + (k - i)) with k in Hbj by lia. rewrite Hz in Hbj.
    specialize (Hbj ltac:(lia) eq_refl). unfold greaterThan in Hbj.
    simpl in Hbj. lia.
  - intros Hlt. apply Hfj in Hlt. subst found'.
    destruct Hatj as (v & Hv & Hp).
    rewrite lookup_drop, list_lookup_fmap in Hv.
    replace (i + (j - i)) with j in Hv by lia.
    destruct (zs !! j) as [z|]; [|done]. injection Hv as <-.
    exists z. split; [done|]. unfold greaterThan in Hp. simpl in Hp. lia.
  - destruct found; case_decide as Hd; try done;
      [exfalso; by apply Hd, Hfi | by apply Hfi in Hd].
  - destruct found'; case_decide as Hd; try done;
      [exfalso; by apply Hd, Hfj | by apply Hfj in Hd].
  - done.
Qed.

(** X2.  On sorted numbers [cropData] crops away no point that lies within
    [[min, max]]: such a point stands in the cropped x data, at its raw
    index less [start], and the y data is cut at the same two indices. *)
Theorem cropData_keeps_points_in_range :
  (0 <= shoulder)%Z ->
  StronglySorted Z.le zs ->
  let c := cropData (Num <$> zs) ys (Num lo) (Num hi) (Some shoulder) s in
  (0 <= CropData.start c <= CropData.stop c)%Z
  /\ CropData.yData c = slice ys (CropData.start c) (CropData.stop c)
  /\ (forall k z,
         zs !! k = Some z -> (lo <= z <= hi)%Z ->
         (CropData.start c <= Z.of_nat k < CropData.stop c)%Z
         /\ CropData.xData c !! (k - Z.to_nat (CropData.start c))
            = Some (Num z)).
Proof.
  intros Hsh Hsorted c.
  destruct cropData_scans
    as (i & j & Hij & Hbi & Hati & Hbj & Hatj & Hstart & Hstop & Hx & Hy).
  fold c in Hstart, Hstop, Hx, Hy.
  assert (Hs0 : (0 <= CropData.start c <= Z.of_nat i)%Z)
    by (rewrite Hstart; destruct (decide (i < length zs)); lia).
  assert (Hs1 : (Z.of_nat j <= CropData.stop c)%Z)
    by (rewrite Hstop; destruct (decide (j < length zs)); lia).
  split; [lia|]. split; [done|].
  intros k z Hz Hin.
  assert (Hk : k < length zs) by (apply lookup_lt_is_Some; eauto).
  assert (Hik : i <= k).
  { destruct (decide (i <= k)); [done|].
    specialize (Hbi k z Hz ltac:(lia)). lia. }
  assert (Hkj : k < j).
  { destruct (decide (k < j)); [done|].
    destruct (Hatj ltac:(lia)) as (zj & Hzj & Hgt).
    destruct (decide (k = j)) as [->|];
      [assert (z = zj) by congruence; lia|].
    pose proof (StronglySorted_lookup Z.le zs j k zj z Hsorted ltac:(lia)
                                      Hzj Hz). lia. }
  split; [lia|].
  rewrite Hx. apply slice_lookup_in; try lia.
  by rewrite list_lookup_fmap, Hz.
Qed.

(** X3.  On sorted numbers with [min <= max] and some point at or above
    [min], [cropData] keeps at most [cropShoulder] points below [min] and
    at most [cropShoulder] points above [max]. *)
Theorem cropData_keeps_shoulder_only :
  (0 <= shoulder)%Z -> (lo <= hi)%Z ->
  StronglySorted Z.le zs ->
  (exists z, z ∈ zs /\ (lo <= z)%Z) ->
  let c := cropData (Num <$> zs) ys (Num lo) (Num hi) (Some shoulder) s in
  length (List.filter (fun v => lessThan v (Num lo)) (CropData.xData c))
  <= Z.to_nat shoulder
  /\ length (List.filter (fun v => greaterThan v (Num hi))
                         (CropData.xData c))
     <= Z.to_nat shoulder.
Proof.
  intros Hsh Hlohi Hsorted (z0 & Hz0 & Hz0lo) c.
  destruct cropData_scans
    as (i & j & Hij & Hbi & Hati & Hbj & Hatj & Hstart & Hstop & Hx & Hy).
  fold c in Hstart, Hstop, Hx, Hy.
  apply list_elem_of_lookup in Hz0 as [k0 Hk0].
  assert (Hk0len : k0 < length zs) by (apply lookup_lt_is_Some; eauto).
  assert (Hi : i < length zs).
  { destruct (decide (i < length zs)); [done|].
    specialize (Hbi k0 z0 Hk0 ltac:(lia)). lia. }
  destruct (Hati Hi) as (zi & Hzi & Hzilo).
  rewrite decide_True in Hstart by done.
  assert (Hsi : Z.to_nat (CropData.start c) <= i
                /\ i - Z.to_nat (CropData.start c) <= Z.to_nat shoulder)
    by (rewrite Hstart; lia).
  (* an entry of the cropped data is an entry of the raw data *)
  assert (Hkept : forall k v,
    CropData.xData c !! k = Some v ->
    exists z, v = Num z
              /\ zs !! (Z.to_nat (CropData.start c) + k) = Some z).
  { intros k v Hv. rewrite Hx in Hv.
    apply slice_lookup_Some in Hv; [|lia].
    rewrite list_lookup_fmap in Hv.
    apply fmap_Some in Hv as (z & Hz & ->). eauto. }
  split.
  - etrans; [apply (count_le_prefix _ _ (i - Z.to_nat (CropData.start c)))|
             lia].
    intros k v Hv Hk. destruct (Hkept k v Hv) as (z & -> & Hz).
    simpl. apply Z.ltb_ge.
    destruct (decide (Z.to_nat (CropData.start c) + k = i)) as [Heq|Hne].
    + rewrite Heq in Hz. assert (z = zi) by congruence. lia.
    + pose proof (StronglySorted_lookup Z.le zs i
                    (Z.to_nat (CropData.start c) + k) zi z Hsorted
                    ltac:(lia) Hzi Hz). lia.
  - apply count_le_suffix. intros k v Hv Hk.
    destruct (Hkept k v Hv) as (z & -> & Hz).
    unfold greaterThan. simpl. apply Z.ltb_ge.
    assert (Hlen : length (CropData.xData c)
                   <= Z.to_nat (CropData.stop c)
                      - Z.to_nat (CropData.start c)).
    { assert (0 <= CropData.stop c)%Z
        by (rewrite Hstop; destruct (decide (j < length zs)); lia).
      rewrite Hx. unfold slice, clamp_start.
      destruct (CropData.start c <? 0)%Z eqn:E1; [lia|].
      destruct (CropData.stop c <? 0)%Z eqn:E2; [lia|].
      rewrite length_take, length_drop. lia. }
    set (m := Z.to_nat (CropData.start c) + k) in *.
    assert (Hm : m < length zs) by (apply lookup_lt_is_Some; eauto).
    destruct (decide (m < i)) as [Hmi|Hmi].
    { specialize (Hbi m z Hz Hmi). lia. }
    apply (Hbj m z Hz). split; [lia|].
    destruct (decide (j < length zs)) as [Hj|Hj]; lia.
Qed.

End CropDataFacts.

Lemma cropData_keeps_points_in_range_witness :
  let c :=
    cropData (Num <$> [0; 10; 20; 30; 40; 50]%Z) (numbersFrom 100 6)
             (Num 15) (Num 35) (Some 1%Z) exampleSeries in
  (0 <= CropData.start c <= CropData.stop c)%Z
  /\ CropData.yData c
     = slice (numbersFrom 100 6) (CropData.start c) (CropData.stop c)
  /\ (forall k z,
         [0; 10; 20; 30; 40; 50]%Z !! k = Some z -> (15 <= z <= 35)%Z ->
         (CropData.start c <= Z.of_nat k < CropData.stop c)%Z
         /\ CropData.xData c !! (k - Z.to_nat (CropData.start c))
            = Some (Num z)).
Proof.
  apply (cropData_keeps_points_in_range [0; 10; 20; 30; 40; 50]%Z
           (numbersFrom 100 6) 15 35 1 exampleSeries).
  - lia.
  - repeat (constructor; [|repeat constructor; lia]). constructor.
Defined.

Lemma cropData_keeps_shoulder_only_witness :
  let c :=
    cropData (Num <$> [0; 10; 20; 30; 40; 50]%Z) (numbersFrom 100 6)
             (Num 25) (Num 35) (Some 1%Z) exampleSeries in
  length (List.filter (fun v => lessThan v (Num 25)) (CropData.xData c))
  <= Z.to_nat 1
  /\ length (List.filter (fun v => greaterThan v (Num 35))
                         (CropData.xData c))
     <= Z.to_nat 1.
Proof.
  apply (cropData_keeps_shoulder_only [0; 10; 20; 30; 40; 50]%Z
           (numbersFrom 100 6) 25 35 1 exampleSeries).
  - lia.
  - lia.
  - repeat (constructor; [|repeat constructor; lia]). constructor.
  - exists 30%Z. split; [|lia]. repeat constructor.
Defined.

(** ** getProcessedData: the processed window and the closest distance *)

Section ProcessedWindow.

Lemma cropData_start_nonneg xs ys lo hi sh s :
  (0 <= CropData.start (cropData xs ys lo hi sh s))%Z.
Proof.
  unfold cropData.
  destruct (scanFrom _ 0 xs) as [i found].
  destruct (scanFrom _ i (drop i xs)) as [j found'].
  cbn [CropData.start]. destruct found; lia.
Qed.

(** X4.  The processed arrays are one window of the raw arrays: entry [k]
    of the processed x (y) data is entry [cropStart + k] of the x (y) data,
    whether the data was cropped or not, and the two processed arrays have
    one length when the raw arrays have. *)
Theorem processed_data_is_window_of_raw_data (f : bool) (s : Series) :
  let p := (getProcessedData f s).1 in
  let cs := Z.to_nat (Processed.cropStart p) in
  (0 <= Processed.cropStart p)%Z
  /\ (forall k v, Processed.xData p !! k = Some v ->
                  xData s !! (cs + k) = Some v)
  /\ (forall k v, Processed.yData p !! k = Some v ->
                  yData s !! (cs + k) = Some v)
  /\ (length (xData s) = length (yData s) ->
      length (Processed.xData p) = length (Processed.yData p)).
Proof.
  cbv zeta. unfold getProcessedData.
  pose proof (cropData_start_nonneg (xData s) (yData s) (extremesMin s)
                                    (extremesMax s) None s) as Hnn.
  assert (Hcx : CropData.xData
                  (cropData (xData s) (yData s) (extremesMin s)
                            (extremesMax s) None s)
                = slice (xData s)
                    (CropData.start (cropData (xData s) (yData s)
                       (extremesMin s) (extremesMax s) None s))
                    (CropData.stop (cropData (xData s) (yData s)
                       (extremesMin s) (extremesMax s) None s))).
  { unfold cropData.
    destruct (scanFrom _ 0 (xData s)) as [i found].
    by destruct (scanFrom _ i (drop i (xData s))) as [j found']. }
  assert (Hcy : CropData.yData
                  (cropData (xData s) (yData s) (extremesMin s)
                            (extremesMax s) None s)
                = slice (yData s)
                    (CropData.start (cropData (xData s) (yData s)
                       (extremesMin s) (extremesMax s) None s))
                    (CropData.stop (cropData (xData s) (yData s)
                       (extremesMin s) (extremesMax s) None s))).
  { unfold cropData.
    destruct (scanFrom _ 0 (xData s)) as [i found].
    by destruct (scanFrom _ i (drop i (xData s))) as [j found']. }
  set (c := cropData (xData s) (yData s) (extremesMin s) (extremesMax s)
                     None s) in *.
  destruct (cropGate f s), (outsideExtremes s), (spillsOut s);
    match goal with
    | |- context [closestLoop ?a ?b ?c ?d ?e] =>
      destruct (closestLoop a b c d e) as [[cl thr] c']
    end;
    cbn [fst Processed.cropStart Processed.xData Processed.yData];
    (split; [done || lia|]);
    try (repeat split; intros; done).
  split; [|split].
  - intros k v Hv. rewrite Hcx in Hv. by apply slice_lookup_Some in Hv.
  - intros k v Hv. rewrite Hcy in Hv. by apply slice_lookup_Some in Hv.
  - intros Hlen. rewrite Hcx, Hcy. by apply length_slice_eq.
Qed.

End ProcessedWindow.

Section ClosestPointRange.
Context (isLog : bool) (val2lin : Value -> Value) (xs : list Value).

Lemma closestLoop_minimum i : forall c0 thr ch,
  let r := (closestLoop isLog val2lin xs i (c0, thr, ch)).1.1 in
  (r = c0
   \/ exists j d, 1 <= j <= i /\ distanceAt isLog val2lin xs j = Some d
                  /\ (0 < d)%Z /\ r = Some d)
  /\ (forall d0, c0 = Some d0 -> exists d, r = Some d /\ (d <= d0)%Z)
  /\ (forall j d', 1 <= j <= i ->
                   distanceAt isLog val2lin xs j = Some d' -> (0 < d')%Z ->
                   exists d, r = Some d /\ (d <= d')%Z).
Proof.
  induction i as [|i IH]; intros c0 thr ch; cbv zeta.
  { cbn [closestLoop fst]. split; [by left|]. split; [eauto with lia|].
    intros; lia. }
  cbn [closestLoop].
  (* the state after the body at [S i] *)
  assert (Hstep : exists c1 thr1 ch1,
    closestStep isLog val2lin xs (S i) (c0, thr, ch) = (c1, thr1, ch1)
    /\ (c1 = c0
        \/ exists d, distanceAt isLog val2lin xs (S i) = Some d
                     /\ (0 < d)%Z /\ c1 = Some d)
    /\ (forall d0, c0 = Some d0 -> exists d, c1 = Some d /\ (d <= d0)%Z)
    /\ (forall d', distanceAt isLog val2lin xs (S i) = Some d' ->
                   (0 < d')%Z -> exists d, c1 = Some d /\ (d <= d')%Z)).
  { unfold closestStep.
    destruct (distanceAt isLog val2lin xs (S i)) as [d|] eqn:Ed.
    2:{ exists c0, thr, ch. split; [done|]. split; [by left|].
        split; [eauto with lia|done]. }
    destruct c0 as [cl|]; cbn [andb].
    - destruct (0 <? d)%Z eqn:E0; cbn [andb].
      + destruct (d <? cl)%Z eqn:E1.
        * exists (Some d), thr, ch. split; [done|].
          split; [right; exists d; split; [done|]; split; [lia|done]|].
          split.
          -- intros d0 [= <-]. exists d. split; [done|lia].
          -- intros d' [= <-] _. exists d. split; [done|lia].
        * destruct ((d <? 0)%Z && thr); eexists _, _, _;
            (split; [reflexivity|]); (split; [by left|]);
            (split; [eauto with lia|]);
            intros d' [= <-] _; exists cl; (split; [done|lia]).
      + destruct ((d <? 0)%Z && thr); eexists _, _, _;
          (split; [reflexivity|]); (split; [by left|]);
          (split; [eauto with lia|]); intros d' [= <-] ?; lia.
    - destruct (0 <? d)%Z eqn:E0; cbn [andb].
      + exists (Some d), thr, ch. split; [done|].
        split; [right; exists d; split; [done|]; split; [lia|done]|].
        split; [done|]. intros d' [= <-] _. exists d. split; [done|lia].
      + destruct ((d <? 0)%Z && thr); eexists _, _, _;
          (split; [reflexivity|]); (split; [by left|]);
          (split; [done|]); intros d' [= <-] ?; lia. }
  destruct Hstep as (c1 & thr1 & ch1 & -> & Hfrom & Hle0 & Hlei).
  specialize (IH c1 thr1 ch1). cbv zeta in IH.
  destruct IH as (IHfrom & IHle0 & IHlei).
  set (r := (closestLoop isLog val2lin xs i (c1, thr1, ch1)).1.1) in *.
  split; [|split].
  - destruct IHfrom as [->|(j & d & Hj & Hd & Hpos & ->)].
    + destruct Hfrom as [->|(d & Hd & Hpos & ->)]; [by left|].
      right. exists (S i), d. split; [lia|done].
    + right. exists j, d. split; [lia|done].
  - intros d0 Hc0. destruct (Hle0 d0 Hc0) as (d1 & Hc1 & Hd1).
    destruct (IHle0 d1 Hc1) as (d & Hr & Hd). exists d. split; [done|lia].
  - intros j d' Hj Hd' Hpos.
    destruct (decide (j = S i)) as [->|Hne].
    + destruct (Hlei d' Hd' Hpos) as (d1 & Hc1 & Hd1).
      destruct (IHle0 d1 Hc1) as (d & Hr & Hd). exists d. split; [done|lia].
    + apply (IHlei j d'); [lia|done|done].
Qed.

End ClosestPointRange.

Section ClosestPointRangeOfSeries.

(** X5.  The closest point range that a processing pass finds is the least
    delta above zero between two consecutive processed x values; there is
    none exactly when no such delta is above zero. *)
Theorem closestPointRange_is_least_positive_delta (f : bool) (s : Series) :
  let p := (getProcessedData f s).1 in
  let delta := distanceAt (axisIsLog s) (axisVal2lin s) (Processed.xData p) in
  match Processed.closestPointRange p with
  | Some d =>
    (0 < d)%Z
    /\ (exists j, 1 <= j < length (Processed.xData p) /\ delta j = Some d)
    /\ (forall j d', 1 <= j < length (Processed.xData p) ->
                     delta j = Some d' -> (0 < d')%Z -> (d <= d')%Z)
  | None =>
    forall j d', 1 <= j < length (Processed.xData p) ->
                 delta j = Some d' -> (d' <= 0)%Z
  end.
Proof.
  cbv zeta. unfold getProcessedData.
  destruct (if cropGate f s then _ else _) as [[[pxs pys] isCropped] start].
  pose proof (closestLoop_minimum (axisIsLog s) (axisVal2lin s) pxs
                (length pxs - 1) None (Proto.requireSorting (proto s))
                (chart s)) as Hmin.
  cbv zeta in Hmin.
  destruct (closestLoop _ _ pxs _ _) as [[cl thr] c].
  cbn [fst Processed.closestPointRange Processed.xData] in *.
  destruct Hmin as (Hfrom & _ & Hle).
  destruct cl as [d|].
  - destruct Hfrom as [|(j & d1 & Hj & Hd1 & Hpos & [= ->])]; [done|].
    split; [done|]. split; [exists j; split; [lia|done]|].
    intros j' d' Hj' Hd' Hpos'.
    destruct (Hle j' d' ltac:(lia) Hd' Hpos') as (d2 & [= <-] & ?). done.
  - intros j d' Hj Hd'.
    destruct (decide (0 < d')%Z) as [Hpos|]; [|lia].
    destruct (Hle j d' ltac:(lia) Hd' Hpos) as (d2 & [=] & _).
Qed.

End ClosestPointRangeOfSeries.

(** ** getFirstValidPoint *)

Section FirstValidPoint.

(** X6.  [getFirstValidPoint] returns the first entry that is not [null],
    and [null] when every entry is [null] or there is none; an [undefined]
    entry is not skipped. *)
Theorem getFirstValidPoint_is_first_non_null (entries : list Value) :
  (exists k, entries !! k = Some (getFirstValidPoint entries)
             /\ getFirstValidPoint entries <> Null
             /\ forall j, j < k -> entries !! j = Some Null)
  \/ (getFirstValidPoint entries = Null
      /\ Forall (fun v => v = Null) entries).
Proof.
  induction entries as [|v entries IH]; [right; done|].
  assert (Hcases : v = Null
                   \/ (v <> Null /\ getFirstValidPoint (v :: entries) = v))
    by (destruct v; (by left) || (right; done)).
  destruct Hcases as [->|[Hv ->]].
  - cbn [getFirstValidPoint].
    destruct IH as [(k & Hk & Hne & Hbefore)|[Hnull Hall]].
    + left. exists (S k). split; [done|]. split; [done|].
      intros [|j] Hj; [done|]. simpl. apply Hbefore. lia.
    + right. split; [done|]. by constructor.
  - left. exists 0. split; [done|]. split; [done|]. intros; lia.
Qed.

End FirstValidPoint.

(** ** updateParallelArrays: a write at an index *)

Section WriteAtIndex.

Lemma array_set_lookup {A} (hole : A) (arr : list A) (i : nat) (v : A) :
  array_set hole arr i v !! i = Some v
  /\ (forall j, j <> i -> j < length arr ->
                array_set hole arr i v !! j = arr !! j)
  /\ (forall j, length arr <= j < i ->
                array_set hole arr i v !! j = Some hole).
Proof.
  unfold array_set. destruct (decide (i < length arr)) as [Hi|Hi].
  - split; [by apply list_lookup_insert_eq|].
    split; [|intros; lia].
    intros j Hj _. by apply list_lookup_insert_ne.
  - split; [|split].
    + rewrite lookup_app_r by lia.
      rewrite lookup_app_r by (rewrite length_replicate; lia).
      rewrite length_replicate.
      by replace (i - length arr - (i - length arr)) with 0 by lia.
    + intros j _ Hj. by rewrite lookup_app_l.
    + intros j Hj. rewrite lookup_app_r by lia.
      rewrite lookup_app_l by (rewrite length_replicate; lia).
      apply lookup_replicate. split; [done|lia].
Qed.

(** The value that [updateParallelArrays(point, i)] writes for [key]. *)
Definition writtenValue (s : Series) (point : Fields) (key : string) : Value :=
  match String.eqb key "y", Proto.toYData (proto s) with
  | true, Some toYData => toYData point
  | _, _ => get key point
  end.

(** X7.  After [updateParallelArrays(point, i)] every declared dimension
    array holds at index [i] the value of the point for its key (the result
    of [toYData] for y, where the series has that hook); the other entries
    are as before; when [i] lies past the end, the entries in between read
    as [undefined] and the array ends at [i]; an array that is not declared
    is left alone. *)
Theorem updateParallelArrays_write_then_read
    (point : Fields) (i : nat) (s : Series) (key : string) :
  NoDup (Proto.parallelArrays (proto s)) ->
  key ∈ Proto.parallelArrays (proto s) ->
  let s' := updateParallelArrays point (AtIndex i) [] s in
  dataOf key s' !! i = Some (writtenValue s point key)
  /\ (forall j, j <> i -> j < length (dataOf key s) ->
                dataOf key s' !! j = dataOf key s !! j)
  /\ (forall j, length (dataOf key s) <= j < i ->
                dataOf key s' !! j = Some Undefined)
  /\ length (dataOf key s') = Nat.max (length (dataOf key s)) (S i)
  /\ (forall other, other ∉ Proto.parallelArrays (proto s) ->
                    dataArrays s' !! other = dataArrays s !! other).
Proof.
  intros Hnd Hkey s'.
  assert (Hd : dataOf key s'
               = array_set Undefined (dataOf key s) i
                           (writtenValue s point key)).
  { unfold s'. by rewrite dataOf_updateParallelArrays. }
  rewrite Hd.
  destruct (array_set_lookup Undefined (dataOf key s) i
                             (writtenValue s point key)) as (H1 & H2 & H3).
  split; [done|]. split; [done|]. split; [done|].
  split; [apply length_array_set|].
  intros other Hother. unfold s'.
  rewrite updateParallelArrays_arrays by done.
  cbn [dataArrays set_dataArrays]. by apply updateArrays_lookup_notin.
Qed.

Lemma updateParallelArrays_write_then_read_witness :
  let point := [("x", Num 7); ("y", Num 70)] in
  let s' := updateParallelArrays point (AtIndex 5) [] loadedSeries in
  dataOf "y" s' !! 5 = Some (writtenValue loadedSeries point "y")
  /\ (forall j, j <> 5 -> j < length (dataOf "y" loadedSeries) ->
                dataOf "y" s' !! j = dataOf "y" loadedSeries !! j)
  /\ (forall j, length (dataOf "y" loadedSeries) <= j < 5 ->
                dataOf "y" s' !! j = Some Undefined)
  /\ length (dataOf "y" s')
     = Nat.max (length (dataOf "y" loadedSeries)) (S 5)
  /\ (forall other, other ∉ Proto.parallelArrays (proto loadedSeries) ->
                    dataArrays s' !! other = dataArrays loadedSeries !! other).
Proof.
  apply (updateParallelArrays_write_then_read
           [("x", Num 7); ("y", Num 70)] 5 loadedSeries "y").
  - by_evaluation.
  - by_evaluation.
Defined.

End WriteAtIndex.

(** ** addPoint: the insertion point *)

Section InsertionPoint.

Lemma scanBack_spec (x : Z) (zs : list Z) : forall i,
  i <= length zs ->
  let r := scanBack (Num x) (Num <$> zs) i in
  r <= i
  /\ (forall k z, zs !! k = Some z -> r <= k < i -> (x < z)%Z)
  /\ (0 < r -> exists z, zs !! (r - 1) = Some z /\ (z <= x)%Z).
Proof.
  induction i as [|k IH]; intros Hi; cbv zeta.
  { cbn [scanBack]. split; [lia|]. split; intros; lia. }
  cbn [scanBack]. unfold nth_or_hole.
  rewrite list_lookup_fmap.
  destruct (lookup_lt_is_Some_2 zs k ltac:(lia)) as [zk Hzk].
  rewrite Hzk. cbn [fmap option_fmap option_map default from_option id].
  unfold greaterThan. cbn [lessThan toNumber].
  destruct (x <? zk)%Z eqn:E.
  - destruct (IH ltac:(lia)) as (Hr & Hafter & Hat).
    split; [lia|]. split; [|done].
    intros j z Hz Hj. destruct (decide (j = k)) as [->|].
    + assert (z = zk) by congruence. lia.
    + apply (Hafter j z Hz). lia.
  - split; [lia|]. split; [intros; lia|].
    intros _. exists zk. replace (S k - 1) with k by lia.
    split; [done|lia].
Qed.

Lemma insertionIndex_sorted (x : Z) (zs : list Z) (s : Series) :
  Proto.requireSorting (proto s) = true ->
  xData s = Num <$> zs ->
  StronglySorted Z.le zs ->
  let i := (insertionIndex (Num x) s).1 in
  i <= length zs
  /\ (forall k z, zs !! k = Some z -> k < i -> (z <= x)%Z)
  /\ (forall k z, zs !! k = Some z -> i <= k -> (x < z)%Z)
  /\ (insertionIndex (Num x) s).2 = bool_decide (i < length zs).
Proof.
  intros Hreq Hx Hsorted. cbv zeta. unfold insertionIndex.
  rewrite Hx, Hreq, length_fmap. cbn [andb].
  unfold nth_or_hole. rewrite list_lookup_fmap.
  destruct (zs !! (length zs - 1)) as [zl|] eqn:El;
    cbn [fmap option_fmap option_map default from_option id lessThan
         toNumber].
  2:{ (* no point yet *)
      assert (zs = []) as ->.
      { destruct zs as [|z zs]; [done|].
        apply lookup_ge_None in El. simpl in El. lia. }
      cbn [fst snd length]. split; [lia|]. split; [done|]. split; [done|].
      by rewrite bool_decide_eq_false_2 by lia. }
  assert (Hlen : 0 < length zs) by (apply lookup_lt_Some in El; lia).
  destruct (x <? zl)%Z eqn:E; cbn [fst snd].
  - destruct (scanBack_spec x zs (length zs) ltac:(lia))
      as (Hr & Hafter & Hat).
    set (r := scanBack (Num x) (Num <$> zs) (length zs)) in *.
    split; [done|]. split; [|split].
    + intros k z Hz Hk.
      destruct (Hat ltac:(lia)) as (zr & Hzr & Hle).
      destruct (decide (k = r - 1)) as [->|].
      * assert (z = zr) by congruence. lia.
      * pose proof (StronglySorted_lookup Z.le zs k (r - 1) z zr Hsorted
                      ltac:(lia) Hz Hzr). lia.
    + intros k z Hz Hk. apply (Hafter k z Hz).
      apply lookup_lt_Some in Hz. lia.
    + symmetry. apply bool_decide_eq_true.
      destruct (decide (r < length zs)); [done|].
      assert (r = length zs) by lia.
      destruct (Hat ltac:(lia)) as (zr & Hzr & Hle).
      assert (zr = zl) by congruence. lia.
  - split; [lia|]. split; [|split].
    + intros k z Hz Hk.
      destruct (decide (k = length zs - 1)) as [->|].
      * assert (z = zl) by congruence. lia.
      * pose proof (StronglySorted_lookup Z.le zs k (length zs - 1) z zl
                      Hsorted ltac:(lia) Hz El). lia.
    + intros k z Hz Hk. apply lookup_lt_Some in Hz. lia.
    + by rewrite bool_decide_eq_false_2 by lia.
Qed.

Lemma insert_keeps_sorted (x : Z) (zs : list Z) (i : nat) :
  StronglySorted Z.le zs ->
  (forall k z, zs !! k = Some z -> k < i -> (z <= x)%Z) ->
  (forall k z, zs !! k = Some z -> i <= k -> (x < z)%Z) ->
  StronglySorted Z.le (take i zs ++ x :: drop i zs).
Proof.
  intros Hsorted Hbefore Hafter.
  rewrite <- (take_drop i zs) in Hsorted.
  apply StronglySorted_app in Hsorted as (Hcross & Hl & Hr).
  apply StronglySorted_app_2; [|done|].
  - intros a b Ha Hb.
    assert (a <= x)%Z.
    { apply list_elem_of_lookup in Ha as [k Hk].
      apply lookup_take_Some in Hk as [Hk Hlt]. by apply (Hbefore k). }
    apply elem_of_cons in Hb as [->|Hb]; [done|].
    apply list_elem_of_lookup in Hb as [k Hk]. rewrite lookup_drop in Hk.
    specialize (Hafter _ _ Hk ltac:(lia)). lia.
  - apply StronglySorted_cons. split; [|done].
    apply Forall_forall. intros b Hb.
    apply list_elem_of_lookup in Hb as [k Hk]. rewrite lookup_drop in Hk.
    specialize (Hafter _ _ Hk ltac:(lia)). lia.
Qed.

(** X8.  On a series that requires sorting and whose x data is sorted,
    [addPoint] puts a point with the number [x] behind every point with a
    value up to [x] and in front of every larger one: the x data is the old
    one with [x] inserted at that index, and is sorted again. *)
Theorem addPoint_keeps_x_sorted
    (o : Value) (s : Series) (zs : list Z) (x : Z)
    (dat : list (option nat)) :
  Proto.requireSorting (proto s) = true ->
  NoDup (Proto.parallelArrays (proto s)) ->
  "x" ∈ Proto.parallelArrays (proto s) ->
  data s = Some dat ->
  xData s = Num <$> zs ->
  StronglySorted Z.le zs ->
  get "x" (applyOptions o s).1 = Num x ->
  exists s1 i,
    addPoint o false false s = Returned s1
    /\ i <= length zs
    /\ (forall k z, zs !! k = Some z -> k < i -> (z <= x)%Z)
    /\ (forall k z, zs !! k = Some z -> i <= k -> (x < z)%Z)
    /\ xData s1 = Num <$> (take i zs ++ x :: drop i zs)
    /\ StronglySorted Z.le (take i zs ++ x :: drop i zs).
Proof.
  intros Hreq Hnd Hkey Hd Hx Hsorted Hpx.
  destruct (applyOptions o s) as [pt sa] eqn:Ha. cbn [fst] in Hpx.
  pose proof (applyOptions_frame o s) as (Hfa & Hfp & _ & _).
  rewrite Ha in Hfa, Hfp. cbn [snd] in Hfa, Hfp.
  assert (Hxa : xData sa = Num <$> zs)
    by (unfold xData, dataOf in *; by rewrite Hfa).
  destruct (insertionIndex (Num x) sa) as [i mid] eqn:Hi.
  pose proof (insertionIndex_sorted x zs sa ltac:(by rewrite Hfp) Hxa
                                    Hsorted) as Hins.
  cbv zeta in Hins. rewrite Hi in Hins. cbn [fst snd] in Hins.
  destruct Hins as (Hle & Hbefore & Hafter & _).
  rewrite <- Hpx in Hi.
  destruct (addPoint_no_shift o s dat pt sa i mid Hd Ha Hi)
    as (s1 & Hadd & Hp1 & Harr & _).
  exists s1, i. split; [done|]. split; [done|]. split; [done|].
  split; [done|]. split; [|by apply insert_keeps_sorted].
  unfold xData, dataOf. rewrite Harr.
  fold (dataOf "x" (updateParallelArrays pt (AtIndex i) []
          (updateParallelArrays pt (Method "splice")
             [Num (Z.of_nat i); Num 0; Num 0] sa))).
  rewrite dataOf_updateParallelArrays;
    [|by rewrite updateParallelArrays_proto, Hfp
      |by rewrite updateParallelArrays_proto, Hfp|done].
  rewrite dataOf_updateParallelArrays; [|by rewrite Hfp..|done].
  cbn [writeOf apply_method String.eqb Ascii.eqb Bool.eqb toInteger toNumber
       default from_option id].
  fold (xData sa). rewrite Hxa, Hpx.
  rewrite splice_insert by (rewrite length_fmap; lia).
  replace i with (length (take i (Num <$> zs))) at 3
    by (rewrite length_take, length_fmap; lia).
  rewrite array_set_middle.
  by rewrite fmap_app, fmap_cons, fmap_take, fmap_drop.
Qed.

(** A point at x = 15 into x = 0, 10, 20. *)
Lemma addPoint_keeps_x_sorted_witness :
  exists s1 i,
    addPoint (Arr [Num 15; Num 9]) false false freshSeries = Returned s1
    /\ i <= length [0; 10; 20]%Z
    /\ (forall k z, [0; 10; 20]%Z !! k = Some z -> k < i -> (z <= 15)%Z)
    /\ (forall k z, [0; 10; 20]%Z !! k = Some z -> i <= k -> (15 < z)%Z)
    /\ xData s1 = Num <$> (take i [0; 10; 20]%Z ++ 15%Z :: drop i [0; 10; 20]%Z)
    /\ StronglySorted Z.le (take i [0; 10; 20]%Z ++ 15%Z :: drop i [0; 10; 20]%Z).
Proof.
  apply (addPoint_keeps_x_sorted (Arr [Num 15; Num 9]) freshSeries
                                 [0; 10; 20]%Z 15 []).
  - reflexivity.
  - by_evaluation.
  - by_evaluation.
  - vm_compute. reflexivity.
  - vm_compute. reflexivity.
  - repeat (constructor; [|repeat constructor; lia]). constructor.
  - vm_compute. reflexivity.
Defined.

End InsertionPoint.

(** ** removePoint: an index past the end *)

Section RemovePastEnd.

(** X9.  [removePoint(i)] with an index past the end of [series.data], of
    [options.data] and of the dimension arrays takes nothing out: the call
    returns, all of them and [series.points] are as before, no point is
    destroyed, and the series is marked dirty all the same. *)
Theorem removePoint_past_end_removes_nothing
    (i n : nat) (s : Series) (dat : list (option nat)) :
  NoDup (Proto.parallelArrays (proto s)) ->
  alignedAt n s ->
  data s = Some dat ->
  length dat <= i -> length (Options.data (options s)) <= i -> n <= i ->
  exists s',
    removePoint i false s = Returned s'
    /\ data s' = Some dat
    /\ points s' = points s
    /\ store s' = store s
    /\ Options.data (options s') = Options.data (options s)
    /\ (forall key, key ∈ Proto.parallelArrays (proto s) ->
                    dataOf key s' = dataOf key s)
    /\ isDirty s' = true /\ isDirtyData s' = true.
Proof.
  intros Hnd Hal Hd Hi Ho Hn. unfold removePoint. rewrite Hd.
  eexists. split; [reflexivity|].
  assert (Hm : isArrayMethod (Method "splice") [Num (Z.of_nat i); Num 1]
               = true) by done.
  assert (Hpt : nth_or_hole None dat i = None).
  { unfold nth_or_hole. by rewrite lookup_ge_None_2. }
  rewrite Hpt.
  set (s0 := match points s with
             | Some pts =>
               if bool_decide (length pts = length dat)
               then set_points (Some (splice pts (Z.of_nat i) 1 [])) s
               else s
             | None => s
             end).
  assert (Hs0 : points s0 = points s /\ dataArrays s0 = dataArrays s
                /\ proto s0 = proto s /\ options s0 = options s
                /\ store s0 = store s).
  { unfold s0. destruct (points s) as [pts|] eqn:Hp; [|done].
    case_bool_decide as Hl; [|done].
    cbn [points set_points]. by rewrite splice_delete_past_end by lia. }
  destruct Hs0 as (Hp0 & Ha0 & Hpr0 & Ho0 & Hst0).
  rewrite !updateParallelArrays_arrays by done.
  cbn [data points store options dataArrays set_dirty set_data set_options
       set_dataArrays isDirty isDirtyData proto Options.data
       Options.set_data].
  rewrite Ho0, Hpr0, Ha0.
  split; [by rewrite splice_delete_past_end|]. split; [done|].
  split; [done|]. split; [by rewrite splice_delete_past_end|].
  split; [|done].
  intros key Hkey. unfold dataOf. cbn [dataArrays set_dirty set_dataArrays].
  rewrite updateArrays_lookup_in by done.
  cbn [writeOf apply_method String.eqb Ascii.eqb Bool.eqb toInteger toNumber
       default from_option id].
  specialize (Hal key Hkey).
  destruct (dataArrays s !! key) as [arr|] eqn:E; [|done].
  injection Hal as Hal. cbn [default from_option id].
  by rewrite splice_delete_past_end by lia.
Qed.

Lemma removePoint_past_end_removes_nothing_witness :
  exists s',
    removePoint 7 false freshSeries = Returned s'
    /\ data s' = Some []
    /\ points s' = points freshSeries
    /\ store s' = store freshSeries
    /\ Options.data (options s') = Options.data (options freshSeries)
    /\ (forall key, key ∈ Proto.parallelArrays (proto freshSeries) ->
                    dataOf key s' = dataOf key freshSeries)
    /\ isDirty s' = true /\ isDirtyData s' = true.
Proof.
  apply (removePoint_past_end_removes_nothing 7 3 freshSeries []).
  - by_evaluation.
  - intros key Hkey.
    assert (Hkeys : Proto.parallelArrays (proto freshSeries) = ["x"; "y"])
      by (vm_compute; reflexivity).
    rewrite Hkeys in Hkey. apply list_elem_of_In in Hkey.
    destruct Hkey as [<-|[<-|[]]]; vm_compute; reflexivity.
  - vm_compute. reflexivity.
  - simpl. lia.
  - vm_compute. lia.
  - lia.
Defined.

End RemovePastEnd.

(** ** setData: what the conversion loops leave alone *)

Section FillFrame.

(** [s'] differs from [s] in the dimension arrays and the auto-increment
    cursor at most. *)
Definition keepsRest (s s' : Series) : Prop :=
  proto s' = proto s /\ options s' = options s /\ data s' = data s
  /\ points s' = points s /\ store s' = store s /\ chart s' = chart s
  /\ xAxis s' = xAxis s.

Lemma keepsRest_refl s : keepsRest s s.
Proof. by repeat split. Qed.

Lemma keepsRest_trans s1 s2 s3 :
  keepsRest s1 s2 -> keepsRest s2 s3 -> keepsRest s1 s3.
Proof. unfold keepsRest. intros ? ?. destruct_and!. repeat split; congruence. Qed.

Lemma keepsRest_writeData key i v s : keepsRest s (writeData key i v s).
Proof. by repeat split. Qed.

Lemma keepsRest_autoIncrement s : keepsRest s (autoIncrement s).2.
Proof. by repeat split. Qed.

Lemma keepsRest_applyOptions o s : keepsRest s (applyOptions o s).2.
Proof.
  unfold applyOptions. destruct (isUndefined _); [|apply keepsRest_refl].
  pose proof (keepsRest_autoIncrement s).
  by destruct (autoIncrement s).
Qed.

Lemma keepsRest_updateParallelArrays point i s :
  keepsRest s (updateParallelArrays point (AtIndex i) [] s).
Proof. rewrite updateParallelArrays_arrays by done. by repeat split. Qed.

Lemma keepsRest_resetArrays s : keepsRest s (resetArrays s).
Proof. rewrite resetArrays_arrays. by repeat split. Qed.

Lemma keepsRest_turboNumbers entries : forall i s,
  keepsRest s (turboNumbers i entries s).
Proof.
  induction entries as [|v rest IH]; intros i s; cbn [turboNumbers];
    [apply keepsRest_refl|].
  pose proof (keepsRest_autoIncrement s) as H0.
  destruct (autoIncrement s) as [xv s1]. cbn [snd] in H0.
  eapply keepsRest_trans; [|apply IH].
  eapply keepsRest_trans; [exact H0|].
  eapply keepsRest_trans; apply keepsRest_writeData.
Qed.

Lemma keepsRest_turboTuples n entries : forall i s,
  keepsRest s (turboTuples n i entries s).
Proof.
  induction entries as [|v rest IH]; intros i s; cbn [turboTuples];
    [apply keepsRest_refl|].
  eapply keepsRest_trans; [|apply IH].
  eapply keepsRest_trans; apply keepsRest_writeData.
Qed.

Lemma keepsRest_turboPairs ix iy entries : forall i s,
  keepsRest s (turboPairs ix iy i entries s).
Proof.
  induction entries as [|v rest IH]; intros i s; cbn [turboPairs];
    [apply keepsRest_refl|].
  eapply keepsRest_trans; [|apply IH].
  eapply keepsRest_trans; apply keepsRest_writeData.
Qed.

Lemma keepsRest_genericPoints entries : forall i s,
  keepsRest s (genericPoints i entries s).
Proof.
  induction entries as [|v rest IH]; intros i s; cbn [genericPoints];
    [apply keepsRest_refl|].
  eapply keepsRest_trans; [|apply IH].
  destruct (isUndefined v); [apply keepsRest_refl|].
  pose proof (keepsRest_applyOptions v s) as H0.
  destruct (applyOptions v s) as [pt s1]. cbn [snd] in H0.
  eapply keepsRest_trans; [exact H0|apply keepsRest_updateParallelArrays].
Qed.

(** The conversion either leaves everything but the arrays alone, or it
    reports error 12 and converts nothing. *)
Lemma fillParallelArrays_frame entries s :
  keepsRest s (fillParallelArrays entries s)
  \/ fillParallelArrays entries s
     = set_chart (Chart.error 12 false (chart s)) s.
Proof.
  unfold fillParallelArrays.
  destruct (match Options.turboThreshold (options s) with
            | Some t => _ | None => false end);
    [|left; apply keepsRest_genericPoints].
  destruct (isNumber _); [left; apply keepsRest_turboNumbers|].
  destruct (isArray _); [|by right].
  left. destruct (Proto.pointArrayMap (proto s)) as [[|k ks]|].
  - destruct (match Options.keys (options s) with
              | Some keys => _ | None => (0, 1) end) as [ix iy].
    apply keepsRest_turboPairs.
  - apply keepsRest_turboTuples.
  - destruct (match Options.keys (options s) with
              | Some keys => _ | None => (0, 1) end) as [ix iy].
    apply keepsRest_turboPairs.
Qed.

End FillFrame.

(** ** setData: the turbo path on pairs *)

Section TurboPairs.

Lemma turboPairs_arrays ix iy entries : forall i s,
  length (xData s) = i -> length (yData s) = i ->
  xData (turboPairs ix iy i entries s)
  = xData s ++ ((fun pt => entryAt pt ix) <$> entries)
  /\ yData (turboPairs ix iy i entries s)
     = yData s ++ ((fun pt => entryAt pt iy) <$> entries).
Proof.
  induction entries as [|pt rest IH]; intros i s Hx Hy; cbn [turboPairs].
  { cbn [fmap list_fmap]. by rewrite !app_nil_r. }
  set (s1 := writeData "y" i (entryAt pt iy)
                       (writeData "x" i (entryAt pt ix) s)).
  assert (Hx1 : xData s1 = xData s ++ [entryAt pt ix]).
  { unfold s1, xData. rewrite !dataOf_writeData.
    rewrite decide_False by done. rewrite decide_True by done.
    fold (xData s). by rewrite <- Hx, array_set_end. }
  assert (Hy1 : yData s1 = yData s ++ [entryAt pt iy]).
  { unfold s1, yData. rewrite !dataOf_writeData.
    rewrite decide_True by done. rewrite decide_False by done.
    fold (yData s). by rewrite <- Hy, array_set_end. }
  destruct (IH (S i) s1) as [IHx IHy].
  - rewrite Hx1, length_app. simpl. lia.
  - rewrite Hy1, length_app. simpl. lia.
  - rewrite IHx, IHy, Hx1, Hy1. cbn [fmap list_fmap].
    by rewrite <- !app_assoc.
Qed.

Lemma turboPairs_xIncrement ix iy entries : forall i s,
  xIncrement (turboPairs ix iy i entries s) = xIncrement s.
Proof.
  induction entries as [|pt rest IH]; intros i s; cbn [turboPairs]; [done|].
  by rewrite IH.
Qed.

(** X10.  In turbo mode (more entries than [turboThreshold]) on a series
    without [pointArrayMap] and without [keys], a replacing [setData] on
    an array of arrays takes element 0 of every entry as x and element 1 as
    y, in the order of the entries, without consulting the auto-increment:
    the call returns, [xIncrement] stays reset, and [options.data] is the
    new array. *)
Theorem setData_turbo_pairs
    (upd : list Value -> Series -> bool * Series)
    (entries : list Value) (t : Z) (redraw : bool) (s : Series) :
  sortingEnabled s = false ->
  NoDup (Proto.parallelArrays (proto s)) ->
  "x" ∈ Proto.parallelArrays (proto s) ->
  "y" ∈ Proto.parallelArrays (proto s) ->
  Options.turboThreshold (options s) = Some t ->
  (0 < t < Z.of_nat (length entries))%Z ->
  Proto.pointArrayMap (proto s) = None ->
  Options.keys (options s) = None ->
  Forall (fun pt => isArray pt = true) entries ->
  isString (entryAt (getFirstValidPoint entries) 1) = false ->
  exists s',
    setData upd entries redraw false s = Returned s'
    /\ xData s' = (fun pt => entryAt pt 0) <$> entries
    /\ yData s' = (fun pt => entryAt pt 1) <$> entries
    /\ xIncrement s' = None
    /\ Options.data (options s') = entries.
Proof.
  intros Hsort Hnd Hx Hy Ht Hlen Hmap Hkeys Harr Hstr.
  unfold setData. rewrite Hsort. cbn [softUpdateGate andb].
  fold (resetArrays (set_xIncrement None s)).
  set (s0 := resetArrays (set_xIncrement None s)).
  assert (Hk0 : keepsRest s s0).
  { eapply keepsRest_trans; [|apply keepsRest_resetArrays]. by repeat split. }
  destruct Hk0 as (Hp0 & Ho0 & _).
  assert (Hx0 : xData s0 = []) by (by apply resetArrays_dataOf).
  assert (Hy0 : yData s0 = []) by (by apply resetArrays_dataOf).
  assert (Hxi0 : xIncrement s0 = None)
    by (unfold s0; by rewrite resetArrays_arrays).
  destruct entries as [|e0 rest]; [simpl in Hlen; lia|].
  assert (He0 : isArray e0 = true) by (by inversion Harr).
  assert (Hfirst : getFirstValidPoint (e0 :: rest) = e0)
    by (by destruct e0).
  rewrite Hfirst in Hstr.
  assert (Hfill : fillParallelArrays (e0 :: rest) s0
                  = turboPairs 0 1 0 (e0 :: rest) s0).
  { unfold fillParallelArrays. rewrite Ho0, Ht, Hp0, Hmap, Hkeys, Hfirst, He0.
    replace (isNumber e0) with false by (by destruct e0).
    replace (negb (t =? 0)%Z && (t <? Z.of_nat (length (e0 :: rest)))%Z)
      with true; [done|].
    symmetry. apply andb_true_iff. split; [apply negb_true_iff|]; lia. }
  rewrite Hfill.
  destruct (turboPairs_arrays 0 1 (e0 :: rest) 0 s0) as [Hxs Hys];
    [by rewrite Hx0|by rewrite Hy0|].
  rewrite Hx0 in Hxs. rewrite Hy0 in Hys. cbn [app] in Hxs, Hys.
  pose proof (keepsRest_turboPairs 0 1 (e0 :: rest) 0 s0) as Hk.
  set (sf := turboPairs 0 1 0 (e0 :: rest) s0) in *.
  assert (Hxif : xIncrement sf = None)
    by (unfold sf; by rewrite turboPairs_xIncrement).
  rewrite Hys. cbn [fmap list_fmap nth_or_hole lookup list_lookup default
                    from_option id].
  unfold nth_or_hole. cbn [lookup list_lookup default from_option id].
  rewrite Hstr.
  eexists. split; [reflexivity|].
  match goal with
  | |- context [finishSetData redraw ?s1] =>
    pose proof (finishSetData_frame redraw s1) as (Hf1 & Hf2 & Hf3 & _)
  end.
  cbv zeta in Hf1, Hf2, Hf3.
  split; [unfold xData, dataOf; rewrite Hf1; exact Hxs|].
  split; [unfold yData, dataOf; rewrite Hf1; exact Hys|].
  split; [rewrite Hf3; exact Hxif|].
  rewrite Hf2. done.
Qed.

Definition pairEntries : list Value :=
  [Arr [Num 0; Num 5]; Arr [Num 10; Num 6]; Arr [Num 20; Num 7]].

Lemma setData_turbo_pairs_witness :
  exists s',
    setData noSoftUpdate pairEntries false false loadedSeries = Returned s'
    /\ xData s' = (fun pt => entryAt pt 0) <$> pairEntries
    /\ yData s' = (fun pt => entryAt pt 1) <$> pairEntries
    /\ xIncrement s' = None
    /\ Options.data (options s') = pairEntries.
Proof.
  apply (setData_turbo_pairs noSoftUpdate pairEntries 2 false loadedSeries).
  - reflexivity.
  - by_evaluation.
  - by_evaluation.
  - by_evaluation.
  - reflexivity.
  - simpl. lia.
  - reflexivity.
  - reflexivity.
  - repeat constructor.
  - reflexivity.
Defined.

End TurboPairs.

(** ** setData: the fatal error and the old points *)

Section SetDataOutcome.
Context (upd : list Value -> Series -> bool * Series).

(** The series once a replacing [setData] has refilled the dimension
    arrays. *)
Definition refilled (entries : list Value) (s : Series) : Series :=
  fillParallelArrays
    (if sortingEnabled s then sortData entries s else entries)
    (resetArrays (set_xIncrement None s)).

Lemma setData_replace entries redraw s :
  setData upd entries redraw false s
  = if isString (nth_or_hole Undefined (yData (refilled entries s)) 0)
    then Thrown (set_chart (Chart.error 14 true (chart (refilled entries s)))
                           (refilled entries s))
    else
      Returned
        (finishSetData redraw
           (set_dirty true (bool_decide (is_Some (points s)))
              (set_chart
                 (Chart.set_isDirtyBox true (chart (refilled entries s)))
                 (set_xAxis (Axis.resetMinRange <$> xAxis (refilled entries s))
                    (set_store
                       (foldr (fun r sto =>
                                 match r with
                                 | Some r => alter Point.destroy r sto
                                 | None => sto
                                 end) (store (refilled entries s))
                              (default [] (points s)))
                       (set_options
                          (Options.set_data
                             (if sortingEnabled s then sortData entries s
                              else entries)
                             (options (refilled entries s)))
                          (set_data (Some []) (refilled entries s)))))))).
Proof. reflexivity. Qed.

Lemma refilled_frame entries s :
  "y" ∈ Proto.parallelArrays (proto s) ->
  NoDup (Proto.parallelArrays (proto s)) ->
  let sf := refilled entries s in
  proto sf = proto s /\ options sf = options s /\ data sf = data s
  /\ points sf = points s /\ store sf = store s
  /\ (chart sf = chart s
      \/ (chart sf = Chart.error 12 false (chart s) /\ yData sf = [])).
Proof.
  intros Hy Hnd. cbv zeta. unfold refilled.
  set (entries' := if sortingEnabled s then _ else _).
  set (s0 := resetArrays (set_xIncrement None s)).
  assert (Hk0 : keepsRest s s0).
  { eapply keepsRest_trans; [|apply keepsRest_resetArrays]. by repeat split. }
  assert (Hy0 : yData s0 = []) by (by apply resetArrays_dataOf).
  destruct (fillParallelArrays_frame entries' s0) as [Hk| ->].
  - pose proof (keepsRest_trans _ _ _ Hk0 Hk) as (? & ? & ? & ? & ? & ? & _).
    repeat split; try done. by left.
  - destruct Hk0 as (? & ? & ? & ? & ? & Hc & _).
    cbn [proto options data points store chart set_chart].
    repeat split; try done. right. rewrite Hc. split; [done|exact Hy0].
Qed.



Lemma destroyed_lookup (pts : list (option nat)) (sto : list Point) r :
  foldr (fun r sto =>
           match r with
           | Some r => alter Point.destroy r sto
           | None => sto
           end) sto pts !! r
  = if bool_decide (Some r ∈ pts) then Point.destroy <$> sto !! r
    else sto !! r.
Proof.
  induction pts as [|o pts IH]; cbn [foldr].
  { by rewrite bool_decide_eq_false_2 by apply not_elem_of_nil. }
  destruct o as [r'|].
  - destruct (decide (r' = r)) as [->|Hne].
    + rewrite list_lookup_alter_eq, IH.
      rewrite (bool_decide_eq_true_2 (Some r ∈ Some r :: pts))
        by (apply elem_of_cons; by left).
      case_bool_decide; [|done].
      destruct (sto !! r) as [p|]; [|done]. by destruct p.
    + rewrite list_lookup_alter_ne by done. rewrite IH.
      apply (f_equal (fun b : bool => if b then _ else _)).
      apply bool_decide_ext. rewrite elem_of_cons.
      split; [by right|]. intros [Heq|?]; [congruence|done].
  - rewrite IH.
    apply (f_equal (fun b : bool => if b then _ else _)).
    apply bool_decide_ext. rewrite elem_of_cons.
      split; [by right|]. intros [Heq|?]; [congruence|done].
Qed.

Lemma finishSetData_plain (s : Series) :
  Options.legendType (options s) <> Some "point" ->
  finishSetData false s = s.
Proof.
  intros Hleg. unfold finishSetData. by rewrite bool_decide_eq_false_2.
Qed.

Lemma Returned_inj (a b : Series) : Returned a = Returned b -> a = b.
Proof. intros H. by injection H. Qed.

(** X12.  When a replacing [setData] without redraw returns (legend not by
    point), [series.data] is the empty array and [destroy] has been called
    on the points of the old [series.points], and on no other point: a point
    that only the old [series.data] held is left as it was. *)
Theorem setData_destroys_old_points
    (entries : list Value) (s s' : Series) :
  NoDup (Proto.parallelArrays (proto s)) ->
  "y" ∈ Proto.parallelArrays (proto s) ->
  Options.legendType (options s) <> Some "point" ->
  setData upd entries false false s = Returned s' ->
  data s' = Some []
  /\ forall r,
       store s' !! r
       = if bool_decide (Some r ∈ default [] (points s))
         then Point.destroy <$> store s !! r
         else store s !! r.
Proof.
  intros Hnd Hy Hleg. rewrite setData_replace.
  pose proof (refilled_frame entries s Hy Hnd)
    as (Hp & Ho & Hd & Hpt & Hst & Hc).
  destruct (isString _) eqn:E; [done|]. intros Heq.
  apply Returned_inj in Heq.
  rewrite finishSetData_plain in Heq.
  - subst s'. split; [done|]. intros r.
    cbn [store set_dirty set_chart set_xAxis set_store].
    by rewrite destroyed_lookup, Hst.
  - cbn [options set_dirty set_chart set_xAxis set_store set_options
         Options.legendType Options.set_data].
    by rewrite Ho.
Qed.

End SetDataOutcome.



Lemma setData_destroys_old_points_witness :
  let s' := stateOf (setData noSoftUpdate pairEntries false false
                             renderedSeries) in
  data s' = Some []
  /\ forall r,
       store s' !! r
       = if bool_decide (Some r ∈ default [] (points renderedSeries))
         then Point.destroy <$> store renderedSeries !! r
         else store renderedSeries !! r.
Proof.
  cbv zeta.
  apply (setData_destroys_old_points noSoftUpdate pairEntries
                                     renderedSeries).
  - by_evaluation.
  - by_evaluation.
  - vm_compute. discriminate.
  - vm_compute. reflexivity.
Defined.

(** ** buildKDTree: the shape of the tree *)

Section KDTreeShape.

Fixpoint height (t : KDNode) : nat :=
  match t with
  | Leaf => 0
  | Node l _ r => S (Nat.max (height l) (height r))
  end.

(** At every node the left subtree holds as many points as the right one,
    or one more. *)
Fixpoint balanced (t : KDNode) : Prop :=
  match t with
  | Leaf => True
  | Node l _ r =>
    length (treePoints r) <= length (treePoints l)
    /\ length (treePoints l) <= S (length (treePoints r))
    /\ balanced l /\ balanced r
  end.

Lemma kdtreeRec_shape (s : Series) (dimensions : nat) fuel :
  forall pts depth,
    length pts <= fuel ->
    let t := kdtreeRec fuel s pts depth dimensions in
    treePoints t ≡ₚ pts /\ balanced t
    /\ (pts <> [] -> 2 ^ height t <= 2 * length pts)
    /\ (pts = [] -> t = Leaf).
Proof.
  induction fuel as [|fuel IH]; intros pts depth Hlen; cbv zeta.
  { destruct pts; [done|simpl in Hlen; lia]. }
  destruct pts as [|p0 ps]; [done|].
  cbn [kdtreeRec].
  set (axis := kdAxis s depth dimensions).
  set (sorted := stable_sort (kdPrecedes axis) (p0 :: ps)).
  assert (Hperm : sorted ≡ₚ p0 :: ps) by apply stable_sort_Permutation.
  assert (Hsl : length sorted = S (length ps)) by by rewrite Hperm.
  set (median := length sorted / 2).
  assert (Hmed : median < length sorted /\ 2 * median <= length sorted
                 /\ length sorted <= 2 * median + 1).
  { unfold median. pose proof (Nat.div_mod_eq (length sorted) 2).
    pose proof (Nat.mod_upper_bound (length sorted) 2). lia. }
  destruct (lookup_lt_is_Some_2 sorted median) as [pt Hpt]; [lia|].
  rewrite Hpt.
  simpl in Hlen.
  destruct (IH (take median sorted) (depth + 1))
    as (Hpl & Hbl & Hhl & Hel); [rewrite length_take; lia|].
  destruct (IH (drop (median + 1) sorted) (depth + 1))
    as (Hpr & Hbr & Hhr & Her); [rewrite length_drop; lia|].
  set (tl := kdtreeRec fuel s (take median sorted) (depth + 1) dimensions)
    in *.
  set (tr := kdtreeRec fuel s (drop (median + 1) sorted) (depth + 1)
                       dimensions) in *.
  assert (Hll : length (treePoints tl) = median)
    by (rewrite Hpl, length_take; lia).
  assert (Hlr : length (treePoints tr) = length sorted - (median + 1))
    by (by rewrite Hpr, length_drop).
  split; [|split; [|split; [|done]]].
  - cbn [treePoints]. rewrite Hpl, Hpr, <- Hperm.
    replace (median + 1) with (S median) by lia.
    by rewrite take_drop_middle.
  - cbn [balanced]. rewrite Hll, Hlr. repeat split; try done; lia.
  - intros _. cbn [height length]. rewrite Nat.pow_succ_r'.
    assert (2 ^ height tl <= S (length ps)).
    { destruct (decide (median = 0)) as [H0|H0].
      - rewrite Hel; [simpl; lia|].
        apply nil_length_inv. rewrite length_take. lia.
      - etrans; [apply Hhl|].
        + intros Hnil. apply (f_equal length) in Hnil.
          rewrite length_take in Hnil. simpl in Hnil. lia.
        + rewrite length_take. lia. }
    assert (2 ^ height tr <= S (length ps)).
    { destruct (decide (length sorted - (median + 1) = 0)) as [H0|H0].
      - rewrite Her; [simpl; lia|].
        apply nil_length_inv. by rewrite length_drop.
      - etrans; [apply Hhr|].
        + intros Hnil. apply (f_equal length) in Hnil.
          rewrite length_drop in Hnil. simpl in Hnil. lia.
        + rewrite length_drop. lia. }
    destruct (Nat.max_spec (height tl) (height tr)) as [[_ ->]|[_ ->]]; lia.
Qed.

(** X13.  A synchronous [buildKDTree] (the [kdNow] option, or a touch
    event) leaves a tree that holds every valid point of the series once
    and nothing else, whose left subtrees hold as many points as the right
    ones or one more, and whose height [h] satisfies [2 ^ h <= 2 n] for
    [n >= 1] valid points; the build is no longer pending. *)
Theorem buildKDTree_builds_balanced_tree (touchstart : bool) (s : Series) :
  Options.kdNow (options s) || touchstart = true ->
  let s' := buildKDTree touchstart s in
  let valid :=
    getValidPoints None (negb (Proto.directTouch (proto s))) false s in
  treePoints (kdTree s') ≡ₚ valid
  /\ balanced (kdTree s')
  /\ (valid <> [] -> 2 ^ height (kdTree s') <= 2 * length valid)
  /\ (valid = [] -> kdTree s' = Leaf)
  /\ buildingKdTree s' = false.
Proof.
  intros Hnow. cbv zeta. unfold buildKDTree.
  cbn [options set_kdTree set_buildingKdTree]. rewrite Hnow.
  unfold startRecursive, _kdtree.
  cbn [kdTree buildingKdTree set_kdTree set_buildingKdTree proto].
  match goal with
  | |- context [kdtreeRec ?fuel ?s0 ?pts ?d ?dims] =>
    change pts with
      (getValidPoints None (negb (Proto.directTouch (proto s))) false s);
    pose proof (kdtreeRec_shape s0 dims
                  (length (getValidPoints None
                             (negb (Proto.directTouch (proto s))) false s))
                  (getValidPoints None
                     (negb (Proto.directTouch (proto s))) false s)
                  d ltac:(lia)) as H
  end.
  cbv zeta in H. destruct H as (H1 & H2 & H3 & H4).
  repeat split; done.
Qed.

Lemma buildKDTree_builds_balanced_tree_witness :
  let s := plottedSeries "xy" fourPoints in
  let s' := buildKDTree false s in
  let valid :=
    getValidPoints None (negb (Proto.directTouch (proto s))) false s in
  treePoints (kdTree s') ≡ₚ valid
  /\ balanced (kdTree s')
  /\ (valid <> [] -> 2 ^ height (kdTree s') <= 2 * length valid)
  /\ (valid = [] -> kdTree s' = Leaf)
  /\ buildingKdTree s' = false.
Proof.
  apply (buildKDTree_builds_balanced_tree false
                                          (plottedSeries "xy" fourPoints)).
  reflexivity.
Defined.

End KDTreeShape.

(** ** searchKDTree: when a point is found *)

Section SearchFinds.

Lemma _search_node s compareX q l p r depth dimensions :
  is_Some (_search s compareX q (Node l p r) depth dimensions).
Proof.
  cbn [_search].
  repeat match goal with
         | |- context [match ?x with _ => _ end] => destruct x
         end; eauto.
Qed.

(** X14.  [searchKDTree] finds a point for every query, whatever its
    coordinates, once the tree is built over at least one valid point.  It
    finds none when the series has no valid point, and none while a build is
    pending: the first search on a series without [kdNow] starts the build
    and returns nothing, and a search during the build does not start
    another. *)
Theorem searchKDTree_finds_a_point_once_built
    (q : KDPointSearchObject) (compareX touchstart : bool) (s : Series) :
  let valid :=
    getValidPoints None (negb (Proto.directTouch (proto s))) false s in
  (valid <> [] ->
   is_Some (searchKDTree q compareX touchstart (startRecursive s)).1)
  /\ (valid = [] ->
      (searchKDTree q compareX touchstart (startRecursive s)).1 = None)
  /\ (kdTree s = Leaf -> buildingKdTree s = false ->
      Options.kdNow (options s) || touchstart = false ->
      searchKDTree q compareX touchstart s
      = (None, set_kdTree Leaf (set_buildingKdTree true s)))
  /\ (kdTree s = Leaf -> buildingKdTree s = true ->
      searchKDTree q compareX touchstart s = (None, s)).
Proof.
  cbv zeta.
  pose proof (kdtreeRec_shape s (kdDimensions s)
                (length (getValidPoints None
                           (negb (Proto.directTouch (proto s))) false s))
                (getValidPoints None
                   (negb (Proto.directTouch (proto s))) false s)
                (kdDimensions s) ltac:(lia)) as (Hperm & _ & _ & Hleaf).
  fold (_kdtree s (getValidPoints None (negb (Proto.directTouch (proto s)))
                                  false s)
                (kdDimensions s) (kdDimensions s)) in Hperm, Hleaf.
  assert (Htree : kdTree (startRecursive s)
                  = _kdtree s (getValidPoints None
                                 (negb (Proto.directTouch (proto s))) false s)
                            (kdDimensions s) (kdDimensions s)) by done.
  rewrite <- Htree in Hperm.
  split; [|split; [|split]].
  - intros Hne. unfold searchKDTree.
    destruct (kdTree (startRecursive s)) as [|l p r] eqn:E.
    + simpl in Hperm. apply Permutation_nil_l in Hperm. done.
    + cbn [isLeaf andb fst]. rewrite E. apply _search_node.
  - intros Hnil.
    assert (Hleaf' : forall s0,
      getValidPoints None (negb (Proto.directTouch (proto s0))) false s0 = []
      -> kdTree (startRecursive s0) = Leaf).
    { intros s0 H0. unfold startRecursive.
      cbn [kdTree set_kdTree set_buildingKdTree]. by rewrite H0. }
    unfold searchKDTree. rewrite (Hleaf' s Hnil).
    assert (Hb : buildingKdTree (startRecursive s) = false) by done.
    rewrite Hb. cbn [isLeaf negb andb].
    unfold buildKDTree.
    set (s1 := set_kdTree Leaf (set_buildingKdTree true (startRecursive s))).
    destruct (Options.kdNow (options s1) || touchstart); [|done].
    cbn [fst]. rewrite Hleaf'; [done|exact Hnil].
  - intros Ht Hb Hnow. unfold searchKDTree. rewrite Ht, Hb.
    cbn [isLeaf negb andb]. unfold buildKDTree.
    cbn [options set_kdTree set_buildingKdTree]. by rewrite Hnow.
  - intros Ht Hb. unfold searchKDTree. rewrite Ht, Hb.
    cbn [isLeaf negb andb]. by rewrite Ht.
Qed.

End SearchFinds.

(** ** sortData: the x values that are given out *)

Section SortPositions.

Lemma get_put_ne key key' v o :
  key <> key' -> get key (put key' v o) = get key o.
Proof.
  intros Hne. induction o as [|[k w] o IH]; simpl.
  - destruct (String.eqb key' key) eqn:E; [|done].
    apply String.eqb_eq in E. congruence.
  - destruct (String.eqb k key') eqn:E; simpl.
    + apply String.eqb_eq in E. subst k.
      destruct (String.eqb key' key) eqn:E'; [|done].
      apply String.eqb_eq in E'. congruence.
    + by rewrite IH.
Qed.

(** X15.  Whatever the entries and their sort keys, [sortData] returns as
    many option objects as there were entries, each with its place in the
    input as [index], and gives out the x values 0 .. n - 1 once each. *)
Theorem sortData_gives_each_x_once (entries : list Value) (s : Series) :
  length (sortData entries s) = length entries
  /\ exists refs,
       refs ≡ₚ seq 0 (length entries)
       /\ forall i a,
            refs !! i = Some a ->
            exists o, sortData entries s !! a = Some (Obj o)
                      /\ get "x" o = Num (Z.of_nat i)
                      /\ get "index" o = Num (Z.of_nat a).
Proof.
  assert (Hperm : sortedRefs entries s ≡ₚ seq 0 (length entries)).
  { unfold sortedRefs.
    by rewrite stable_sort_Permutation, length_sortObjects. }
  assert (Hnd : NoDup (sortedRefs entries s))
    by (rewrite Hperm; apply NoDup_seq).
  split.
  - unfold sortData, sortedStore. rewrite length_fmap.
    unfold assignX.
    generalize (imap pair (sortedRefs entries s)) as l.
    intros l. rewrite <- (length_sortObjects entries).
    generalize (sortObjects entries) as objs.
    induction l as [|[i r] l IH]; intros objs; cbn [foldl]; [done|].
    rewrite IH. by rewrite length_alter.
  - exists (sortedRefs entries s). split; [done|].
    intros i a Hi.
    assert (Ha : a < length entries).
    { apply list_elem_of_lookup_2 in Hi. rewrite Hperm in Hi.
      apply elem_of_seq in Hi. lia. }
    destruct (lookup_lt_is_Some_2 (sortObjects entries) a) as [o Ho];
      [by rewrite length_sortObjects|].
    exists (put "x" (Num (Z.of_nat i)) o).
    split; [|split].
    + unfold sortData, sortedStore. rewrite list_lookup_fmap.
      by rewrite (assignX_lookup _ _ i a Hnd Hi), Ho.
    + apply get_put_eq.
    + rewrite get_put_ne by done.
      unfold sortObjects in Ho. rewrite list_lookup_imap in Ho.
      destruct (entries !! a) as [e|] eqn:Ee; [|done].
      simpl in Ho. injection Ho as <-. apply get_put_eq.
Qed.

End SortPositions.

(** ** generatePoints: points are made once *)

Section PointsAreReused.

(** Where the points of [data] come from while the main loop runs: a point
    stood at its place before the call, or it is new and stands within the
    part of the processed range that the loop has handled. *)
Definition originInv (s : Series) (dat0 : list (option nat)) (n0 : nat)
    (i : nat) (st : GenState) : Prop :=
  let '(dat, sto, pts) := st in
  n0 <= length sto
  /\ forall j r, pointAt dat j = Some r ->
                 pointAt dat0 j = Some r
                 \/ (n0 <= r /\ cropStart s <= j < cropStart s + i).

Lemma generateStep_origin s dat0 n0 i xv yv st :
  Proto.hasGroupedData (proto s) = false ->
  originInv s dat0 n0 i st ->
  originInv s dat0 n0 (S i) (generateStep s i xv yv st).
Proof.
  intros Hg. destruct st as [[dat sto] pts]. intros [Hlen Horigin].
  unfold generateStep. rewrite Hg. cbn [negb].
  fold (pointAt dat (cropStart s + i)).
  assert (Hweak : forall j r, pointAt dat j = Some r ->
            pointAt dat0 j = Some r
            \/ (n0 <= r /\ cropStart s <= j < cropStart s + S i)).
  { intros j r Hj. destruct (Horigin j r Hj) as [|[? ?]]; [by left|].
    right. lia. }
  destruct (pointAt dat (cropStart s + i)) as [r|] eqn:Hcur.
  - split; [by rewrite length_alter|done].
  - destruct (negb (isUndefined _)).
    + split; [rewrite length_alter, length_app; simpl; lia|].
      intros j r. rewrite pointAt_array_set. case_decide as E.
      * intros [= <-]. right. subst j. lia.
      * apply Hweak.
    + done.
Qed.

Lemma generateLoop_origin s dat0 n0 xs : forall i st,
  Proto.hasGroupedData (proto s) = false ->
  originInv s dat0 n0 i st ->
  originInv s dat0 n0 (i + length xs) (generateLoop s i xs st).
Proof.
  induction xs as [|xv xs IH]; intros i st Hg Hinv; simpl.
  - by rewrite Nat.add_0_r.
  - replace (i + S (length xs)) with (S i + length xs) by lia.
    apply IH; [done|]. by apply generateStep_origin.
Qed.

(** X16.  On a series that is not grouped, [generatePoints] makes a point
    only where [data] holds none: every point that stood in [data] stands
    at the same place afterwards, a point that is new stands within the
    processed range, no point of the store is dropped, and each point still
    stands at one place only. *)
Theorem generatePoints_reuses_points (s : Series) :
  Proto.hasGroupedData (proto s) = false ->
  let old := default [] (data s) in
  let cs := cropStart s in
  let pdl := length (processedXData s) in
  wellFormedData old (store s) ->
  let s' := generatePoints s in
  exists dat,
    data s' = Some dat
    /\ wellFormedData dat (store s')
    /\ length (store s) <= length (store s')
    /\ (forall j r, pointAt old j = Some r -> pointAt dat j = Some r)
    /\ (forall j r, pointAt dat j = Some r ->
                    pointAt old j = Some r
                    \/ (length (store s) <= r /\ cs <= j < cs + pdl)).
Proof.
  intros Hg old cs pdl Hwf s'.
  set (dat0 := match data s with
               | None => replicate (length (Options.data (options s))) None
               | Some d => d
               end).
  assert (Hnone : forall j r, pointAt dat0 j = Some r ->
                              pointAt old j = Some r).
  { unfold dat0, old. destruct (data s); [done|].
    intros j r. unfold pointAt, nth_or_hole. intros H.
    destruct (replicate _ _ !! j) eqn:E; [|done].
    apply lookup_replicate in E as [-> _]. done. }
  assert (Hinit : genInv s old 0 (dat0, store s, [])).
  { unfold genInv. split; [|split; [|split; [|split; [|split; [|split]]]]];
      try (intros; lia); try done.
    - unfold dat0, old in *. destruct (data s); [done|].
      split; intros j r; unfold pointAt, nth_or_hole;
        intros H; destruct (replicate _ _ !! j) eqn:E; try done;
        apply lookup_replicate in E as [-> _]; done.
    - unfold dat0, old. destruct (data s); done. }
  assert (Hinit' : originInv s old (length (store s)) 0 (dat0, store s, [])).
  { split; [done|]. intros j r Hj. left. by apply Hnone. }
  pose proof (generateLoop_inv s old (processedXData s) 0 _ Hg Hinit) as Hinv.
  pose proof (generateLoop_origin s old (length (store s)) (processedXData s)
                                  0 _ Hg Hinit') as Hinv'.
  cbn [Nat.add] in Hinv, Hinv'. fold pdl in Hinv, Hinv'.
  unfold s', generatePoints. rewrite Hg. cbn [negb orb].
  replace (default [] (match data s with
                       | None =>
                         Some (replicate (length (Options.data (options s)))
                                         None)
                       | Some d => Some d
                       end)) with dat0 by (unfold dat0; by destruct (data s)).
  destruct (generateLoop s 0 (processedXData s) (dat0, store s, []))
    as [[dat sto] pts].
  destruct Hinv as ([Hvalid Hnodup] & _ & _ & _ & _ & Hframe & _).
  destruct Hinv' as [Hgrow Horigin].
  set (sto' := match match data s with
                     | None => Some _
                     | Some d => Some d
                     end with
               | Some _ => _
               | None => sto
               end).
  assert (Hsto' : length sto' = length sto).
  { unfold sto'. destruct (data s);
      (destruct (negb _ || false); [apply length_hideLoop|done]). }
  exists dat.
  replace (data (set_points _ _)) with (Some dat)
    by (cbn [data set_points set_store set_data]; by destruct (data s)).
  cbn [store set_points set_store].
  split; [done|]. split; [|split; [|split]].
  - split; [|done]. intros j r Hj. rewrite Hsto'. eauto.
  - by rewrite Hsto'.
  - done.
  - intros j r Hj. destruct (Horigin j r Hj) as [|[Hr Hjr]]; [by left|].
    right. fold cs in Hjr. done.
Qed.

Lemma generatePoints_reuses_points_witness :
  let s := renderedSeries in
  let old := default [] (data s) in
  let s' := generatePoints s in
  exists dat,
    data s' = Some dat
    /\ wellFormedData dat (store s')
    /\ length (store s) <= length (store s')
    /\ (forall j r, pointAt old j = Some r -> pointAt dat j = Some r)
    /\ (forall j r, pointAt dat j = Some r ->
                    pointAt old j = Some r
                    \/ (length (store s) <= r
                        /\ cropStart s <= j
                           < cropStart s + length (processedXData s))).
Proof.
  apply (generatePoints_reuses_points renderedSeries).
  - reflexivity.
  - split.
    + intros j r Hj.
      destruct j as [|[|[|[|j]]]]; vm_compute in Hj; inversion Hj;
        vm_compute; lia.
    + intros j1 j2 r H1 H2.
      destruct j1 as [|[|[|[|j1]]]]; vm_compute in H1; inversion H1; subst;
        destruct j2 as [|[|[|[|j2]]]]; vm_compute in H2; inversion H2;
        reflexivity.
Defined.

End PointsAreReused.

(** ** insert: the place of a series in a collection *)

Section InsertFacts.
Import Insert.

Lemma scanDown_spec (n : Z) (collection : list Entry) : forall i,
  i <= length collection ->
  match scanDown n collection i with
  | Some k =>
    k < i
    /\ (exists m, collection !! k = Some m /\ (effectiveIndex m <= n)%Z)
    /\ (forall j m, k < j < i -> collection !! j = Some m ->
                    (n < effectiveIndex m)%Z)
  | None =>
    forall j m, j < i -> collection !! j = Some m -> (n < effectiveIndex m)%Z
  end.
Proof.
  induction i as [|k IH]; intros Hi; cbn [scanDown]; [intros; lia|].
  destruct (lookup_lt_is_Some_2 collection k ltac:(lia)) as [m Hm].
  rewrite Hm. destruct (effectiveIndex m <=? n)%Z eqn:E.
  - split; [lia|]. split; [exists m; split; [done|lia]|]. intros; lia.
  - specialize (IH ltac:(lia)).
    destruct (scanDown n collection k) as [k'|].
    + destruct IH as (Hk & Hat & Hafter). split; [lia|]. split; [done|].
      intros j m' Hj Hm'. destruct (decide (j = k)) as [->|].
      * assert (m' = m) by congruence. subst. lia.
      * apply (Hafter j m'); [lia|done].
    + intros j m' Hj Hm'. destruct (decide (j = k)) as [->|].
      * assert (m' = m) by congruence. subst. lia.
      * apply (IH j m'); [lia|done].
Qed.

Lemma insert_position (me : Entry) (collection : list Entry) :
  let i := (insert me collection).1 in
  i <= length collection
  /\ (insert me collection).2 = take i collection ++ me :: drop i collection
  /\ (index me = None -> i = length collection).
Proof.
  cbv zeta. unfold insert. destruct (index me) as [n|].
  - pose proof (scanDown_spec n collection (length collection) ltac:(lia))
      as H.
    destruct (scanDown n collection (length collection)) as [k|];
      cbn [fst snd].
    + destruct H as (Hk & _ & _). split; [lia|]. split; [|done].
      apply splice_insert. lia.
    + split; [lia|]. split; [|done]. by rewrite take_0, drop_0.
  - cbn [fst snd]. rewrite length_app. cbn [length].
    replace (length collection + 1 - 1) with (length collection) by lia.
    split; [lia|]. split; [|done].
    by rewrite firstn_all, drop_all.
Qed.

(** X17.  [insert] returns the index at which the series stands in the
    collection afterwards; the series that were there keep their order
    around it.  A series without a number as [index] option goes to the
    end. *)
Theorem insert_returns_position (me : Entry) (collection : list Entry) :
  let i := (insert me collection).1 in
  i <= length collection
  /\ (insert me collection).2 = take i collection ++ me :: drop i collection
  /\ (index me = None -> i = length collection).
Proof. apply insert_position. Qed.

(** The series of a collection stand in the order of their indices. *)
Definition ordered (collection : list Entry) : Prop :=
  StronglySorted (fun a b => (effectiveIndex a <= effectiveIndex b)%Z)
                 collection.

(** X18.  A series whose [index] option is the number [n] is inserted
    directly behind the last series of the collection whose index is at most
    [n], at the front when there is none: every series behind it has a larger
    index, and the series in front of it, if any, an index of at most [n].
    The series further to the front are not looked at.  When the collection
    stands in the order of the indices, every series in front has an index
    of at most [n], and the collection stands in that order afterwards. *)
Theorem insert_keeps_index_order
    (me : Entry) (n : Z) (collection : list Entry) :
  index me = Some n ->
  let i := (insert me collection).1 in
  (forall k m, collection !! k = Some m -> i <= k ->
               (n < effectiveIndex m)%Z)
  /\ (forall m, 0 < i -> collection !! (i - 1) = Some m ->
                (effectiveIndex m <= n)%Z)
  /\ (ordered collection ->
      ordered (insert me collection).2
      /\ forall k m, collection !! k = Some m -> k < i ->
                     (effectiveIndex m <= n)%Z).
Proof.
  intros Hn.
  pose proof (insert_position me collection) as (Hi & Heq & _).
  cbv zeta in *.
  assert (Heff : effectiveIndex me = n)
    by (unfold effectiveIndex; by rewrite Hn).
  assert (Hscan :
    (forall k m, collection !! k = Some m ->
                 (insert me collection).1 <= k ->
                 (n < effectiveIndex m)%Z)
    /\ (forall m, 0 < (insert me collection).1 ->
                  collection !! ((insert me collection).1 - 1) = Some m ->
                  (effectiveIndex m <= n)%Z)).
  { unfold insert. rewrite Hn.
    pose proof (scanDown_spec n collection (length collection) ltac:(lia))
      as H.
    destruct (scanDown n collection (length collection)) as [k|];
      cbn [fst].
    - destruct H as (Hk & (mk & Hmk & Hle) & Hafter). split.
      + intros j m Hm Hj. apply (Hafter j m); [|done].
        apply lookup_lt_Some in Hm. lia.
      + intros m _ Hm. replace (k + 1 - 1) with k in Hm by lia.
        assert (m = mk) by congruence. by subst.
    - split; [|intros; lia].
      intros j m Hm _. apply (H j m); [|done]. by eapply lookup_lt_Some. }
  destruct Hscan as [Hafter Hfront].
  split; [done|]. split; [done|]. intros Hord.
  assert (Hbefore : forall k m,
            collection !! k = Some m -> k < (insert me collection).1 ->
            (effectiveIndex m <= n)%Z).
  { intros k m Hm Hk.
    destruct (lookup_lt_is_Some_2 collection ((insert me collection).1 - 1)
                ltac:(lia)) as [m0 Hm0].
    pose proof (Hfront m0 ltac:(lia) Hm0) as Hle.
    destruct (decide (k = (insert me collection).1 - 1)) as [->|Hne].
    - assert (m = m0) by congruence. by subst.
    - pose proof (StronglySorted_lookup _ collection k
                    ((insert me collection).1 - 1) m m0 Hord
                    ltac:(lia) Hm Hm0). simpl in *. lia. }
  split; [|done]. rewrite Heq.
  set (i := (insert me collection).1) in *.
  unfold ordered in *.
  rewrite <- (take_drop i collection) in Hord.
  apply StronglySorted_app in Hord as (Hcross & Hl & Hr).
  apply StronglySorted_app_2; [|done|].
  - intros a b Ha Hb.
    assert (effectiveIndex a <= n)%Z.
    { apply list_elem_of_lookup in Ha as [k Hk].
      apply lookup_take_Some in Hk as [Hk Hlt]. by apply (Hbefore k). }
    apply elem_of_cons in Hb as [->|Hb]; [lia|].
    apply list_elem_of_lookup in Hb as [k Hk]. rewrite lookup_drop in Hk.
    specialize (Hafter _ _ Hk ltac:(lia)). lia.
  - apply StronglySorted_cons. split; [|done].
    apply Forall_forall. intros b Hb.
    apply list_elem_of_lookup in Hb as [k Hk]. rewrite lookup_drop in Hk.
    specialize (Hafter _ _ Hk ltac:(lia)). lia.
Qed.

(** A collection that is not in the order of the indices, as [init] makes it
    of a series with [index: 10] and one without: a series with [index: 5]
    comes to stand at the end, behind the series with index 10. *)
Lemma insert_keeps_index_order_witness :
  let me := mk (Some 5%Z) 2 in
  let collection := [mk (Some 10%Z) 0; mk None 1] in
  let i := (insert me collection).1 in
  (forall k m, collection !! k = Some m -> i <= k ->
               (5 < effectiveIndex m)%Z)
  /\ (forall m, 0 < i -> collection !! (i - 1) = Some m ->
                (effectiveIndex m <= 5)%Z)
  /\ (ordered collection ->
      ordered (insert me collection).2
      /\ forall k m, collection !! k = Some m -> k < i ->
                     (effectiveIndex m <= 5)%Z).
Proof.
  apply (insert_keeps_index_order
           (mk (Some 5%Z) 2) 5 [mk (Some 10%Z) 0; mk None 1]).
  reflexivity.
Defined.

(** [n] series registered one after the other, none with an [index]
    option. *)
Fixpoint registerAll (n : nat) (chartSeries : list Entry) : list Entry :=
  match n with
  | 0 => chartSeries
  | S n' => registerAll n' (register None chartSeries).2
  end.

Lemma last_snoc_fmap (f : nat -> Entry) (n : nat) :
  last (f <$> seq 0 (S n)) = Some (f n).
Proof.
  rewrite seq_S, fmap_app. cbn [fmap list_fmap]. apply last_snoc.
Qed.

(** X19.  Series that [init] registers one after the other without an
    [index] option stand in [chart.series] in the order in which they were
    made, with [_i] = 0, 1, 2, ..., and each is returned its [_i] as
    position. *)
Theorem register_without_index_counts_up (n : nat) :
  registerAll n [] = (fun k => mk None (Z.of_nat k)) <$> seq 0 n
  /\ (register None ((fun k => mk None (Z.of_nat k)) <$> seq 0 n)).1 = n.
Proof.
  assert (Hstep : forall k,
    register None ((fun k => mk None (Z.of_nat k)) <$> seq 0 k)
    = (k, (fun k => mk None (Z.of_nat k)) <$> seq 0 (S k))).
  { intros k. unfold register, insert. cbn [index fst snd].
    rewrite length_app, length_fmap, length_seq. cbn [length].
    replace (k + 1 - 1) with k by lia. f_equal.
    rewrite seq_S, fmap_app. cbn [fmap list_fmap]. do 3 f_equal.
    unfold nextI. destruct k as [|k]; [done|].
    rewrite last_snoc_fmap. cbn [_i]. lia. }
  split; [|by rewrite Hstep].
  assert (Hgen : forall m k,
    registerAll m ((fun k => mk None (Z.of_nat k)) <$> seq 0 k)
    = (fun k => mk None (Z.of_nat k)) <$> seq 0 (k + m)).
  { induction m as [|m IH]; intros k; cbn [registerAll].
    - by rewrite Nat.add_0_r.
    - rewrite Hstep. cbn [snd]. rewrite IH. do 2 f_equal. lia. }
  apply (Hgen n 0).
Qed.

End InsertFacts.

(** ** getExtremes: the values that count *)

Section GetExtremesFacts.
Context (pvo : bool) (force : bool) (s : Series).

Lemma activeFrom_elem ys : forall i v,
  v ∈ activeFrom pvo force s i ys ->
  exists k y, ys !! k = Some y /\ validValue pvo s y = true
              /\ withinRange force s (i + k) = true
              /\ v ∈ activeValues y.
Proof.
  induction ys as [|y ys IH]; intros i v Hv; cbn [activeFrom] in Hv.
  { by apply elem_of_nil in Hv. }
  apply elem_of_app in Hv as [Hv|Hv].
  - destruct (validValue pvo s y) eqn:Hval; cbn [andb] in Hv;
      [|by apply elem_of_nil in Hv].
    destruct (withinRange force s i) eqn:Hin; [|by apply elem_of_nil in Hv].
    exists 0, y. rewrite Nat.add_0_r. done.
  - destruct (IH (S i) v Hv) as (k & y' & Hk & Hval & Hin & Hel).
    exists (S k), y'. replace (i + S k) with (S i + k) by lia. done.
Qed.

Lemma activeFrom_intro ys : forall i k y v,
  ys !! k = Some y -> validValue pvo s y = true ->
  withinRange force s (i + k) = true -> v ∈ activeValues y ->
  v ∈ activeFrom pvo force s i ys.
Proof.
  induction ys as [|y0 ys IH]; intros i k y v Hk Hval Hin Hv; [done|].
  cbn [activeFrom]. apply elem_of_app. destruct k as [|k].
  - injection Hk as ->. rewrite Nat.add_0_r in Hin.
    left. by rewrite Hval, Hin.
  - right. apply (IH (S i) k y v); try done.
    by replace (S i + k) with (i + S k) by lia.
Qed.

Lemma activeValues_elem y v :
  v ∈ activeValues y ->
  (v = y /\ (isArray y = false \/ y = Arr []))
  \/ (isNumber v = true /\ exists l, y = Arr l /\ v ∈ l).
Proof.
  destruct y as [| |z|str|[|v0 l]|f]; cbn [activeValues];
    try (intros ->%list_elem_of_singleton; left; split; [done|]; by left).
  - intros Hv. apply list_elem_of_singleton in Hv as ->.
    left. split; [done|]. by right.
  - intros Hv%list_elem_of_In%filter_In. destruct Hv as [Hv Hnum].
    right. split; [done|]. exists (v0 :: l). split; [done|].
    apply list_elem_of_In in Hv. by rewrite elem_of_reverse in Hv.
Qed.

(** X20.  Unless an entry of the y data is the empty array (and zero and
    negative values are admitted), every value that [getExtremes] hands to
    [arrayMin] and [arrayMax] is a number, and it is an entry of the y data
    or an element of an entry that is an array, at an index that counts as
    within the range; [null] and other entries never get there. *)
Theorem getExtremes_reads_numbers_of_yData (yData : option (list Value)) :
  let ys := default (processedYData s) yData in
  positiveValuesOnly pvo s = true \/ Arr [] ∉ ys ->
  let active := activeYData pvo yData force s in
  Forall (fun v => isNumber v = true) active
  /\ (forall v, v ∈ active ->
        exists i y, ys !! i = Some y /\ withinRange force s i = true
                    /\ (y = v \/ exists l, y = Arr l /\ v ∈ l)).
Proof.
  intros ys Hempty active.
  assert (Hall : forall v, v ∈ active ->
    isNumber v = true
    /\ exists i y, ys !! i = Some y /\ withinRange force s i = true
                   /\ (y = v \/ exists l, y = Arr l /\ v ∈ l)).
  { intros v Hv. unfold active, activeYData in Hv.
    apply activeFrom_elem in Hv as (k & y & Hk & Hval & Hin & Hel).
    fold ys in Hk. cbn [Nat.add] in Hin.
    apply activeValues_elem in Hel as [[-> Hy]|[Hnum (l & -> & Hl)]].
    - split; [|exists k, y; split; [done|]; split; [done|]; by left].
      destruct Hy as [Hy| ->].
      + unfold validValue in Hval. apply andb_true_iff in Hval as [Hval _].
        rewrite Hy, orb_false_r in Hval. done.
      + exfalso. unfold validValue in Hval. cbn in Hval.
        destruct Hempty as [Hp|Hne].
        * by rewrite Hp in Hval.
        * apply Hne. by eapply list_elem_of_lookup_2.
    - split; [done|]. exists k, (Arr l).
      split; [done|]. split; [done|]. right. by exists l. }
  split; [|intros v Hv; by apply Hall].
  apply Forall_forall. intros v Hv. by apply Hall.
Qed.

(** X21.  With [positiveValuesOnly] (a logarithmic y axis) and y data that
    holds no arrays, every value that [getExtremes] considers is a number
    above zero. *)
Theorem getExtremes_positive_values_only (yData : option (list Value)) :
  positiveValuesOnly pvo s = true ->
  Forall (fun y => isArray y = false) (default (processedYData s) yData) ->
  Forall (fun v => exists z, v = Num z /\ (0 < z)%Z)
         (activeYData pvo yData force s).
Proof.
  intros Hp Hscalar. apply Forall_forall. intros v Hv.
  unfold activeYData in Hv.
  apply activeFrom_elem in Hv as (k & y & Hk & Hval & _ & Hel).
  rewrite Forall_forall in Hscalar.
  pose proof (Hscalar y (list_elem_of_lookup_2 _ _ _ Hk)) as Hy.
  unfold validValue in Hval. rewrite Hp, Hy in Hval.
  destruct y as [| |z|str|l|f]; try done.
  cbn in Hval. rewrite !orb_false_r in Hval.
  apply list_elem_of_singleton in Hel as ->.
  exists z. split; [done|lia].
Qed.

(** X22.  On sorted x data and with a shoulder that is not negative, every
    point whose x lies within the extremes of the x axis counts: its y, a
    number (above zero where only positive values are admitted), is among
    the values that [getExtremes] considers. *)
Theorem getExtremes_counts_points_in_range
    (yData : option (list Value)) (zs : list Z) (lo hi : Z)
    (i : nat) (z y : Z) :
  processedXData s = Num <$> zs ->
  StronglySorted Z.le zs ->
  (0 <= extremesShoulder s)%Z ->
  extremesMin s = Num lo -> extremesMax s = Num hi ->
  zs !! i = Some z -> (lo <= z <= hi)%Z ->
  default (processedYData s) yData !! i = Some (Num y) ->
  positiveValuesOnly pvo s = false \/ (0 < y)%Z ->
  Num y ∈ activeYData pvo yData force s.
Proof.
  intros Hx Hsorted Hsh Hlo Hhi Hz Hin Hy Hpos.
  unfold activeYData.
  apply (activeFrom_intro _ 0 i (Num y)); [done| | |by left].
  - unfold validValue. cbn [isNumber isArray orb andb].
    unfold greaterThan. cbn [lessThan toNumber].
    destruct Hpos as [->|Hpos]; [by rewrite orb_true_r|].
    replace (0 <? y)%Z with true by lia. done.
  - cbn [Nat.add]. unfold withinRange.
    apply orb_true_iff. right. rewrite Hx, Hlo, Hhi.
    assert (Hxi : nth_or_hole Undefined (Num <$> zs) i = Num z)
      by (unfold nth_or_hole; by rewrite list_lookup_fmap, Hz).
    rewrite Hxi.
    (* an entry of the x data in front of index [i], or behind it *)
    assert (Hentry : forall k : Z,
      entryZ (Num <$> zs) k = Undefined
      \/ exists z', entryZ (Num <$> zs) k = Num z'
                    /\ ((Z.of_nat i <= k)%Z -> (z <= z')%Z)
                    /\ ((k <= Z.of_nat i)%Z -> (z' <= z)%Z)).
    { intros k. unfold entryZ. destruct (k <? 0)%Z eqn:Ek; [by left|].
      unfold nth_or_hole. rewrite list_lookup_fmap.
      destruct (zs !! Z.to_nat k) as [z'|] eqn:Ez'; [|by left].
      right. exists z'. split; [done|]. split; intros Hk.
      - destruct (decide (Z.to_nat k = i)) as [Heq|Hne].
        + rewrite Heq in Ez'. assert (z' = z) by congruence. lia.
        + pose proof (StronglySorted_lookup Z.le zs i (Z.to_nat k) z z'
                        Hsorted ltac:(lia) Hz Ez'). done.
      - destruct (decide (Z.to_nat k = i)) as [Heq|Hne].
        + rewrite Heq in Ez'. assert (z' = z) by congruence. lia.
        + pose proof (StronglySorted_lookup Z.le zs (Z.to_nat k) i z' z
                        Hsorted ltac:(lia) Ez' Hz). done. }
    apply andb_true_iff. split.
    + destruct (Hentry (Z.of_nat i + extremesShoulder s)%Z)
        as [->|(z' & -> & Hge & _)]; unfold orElse, truthy.
      * cbn [greaterEq toNumber]. lia.
      * destruct (z' =? 0)%Z; cbn [negb greaterEq toNumber]; lia.
    + destruct (Hentry (Z.of_nat i - extremesShoulder s)%Z)
        as [->|(z' & -> & _ & Hle)]; unfold orElse, truthy.
      * cbn [greaterEq toNumber]. lia.
      * destruct (z' =? 0)%Z; cbn [negb greaterEq toNumber]; lia.
Qed.

End GetExtremesFacts.

(** Six points at x = 0 .. 5 and y = 10 .. 15, processed without cropping,
    on an x axis that shows [2, 3]. *)
Definition extremesExample : Series :=
  processData true
    (set_xAxis
       (Some (Axis.mk (Num 2) (Num 3) true false id Undefined Undefined))
       (set_dataArrays
          {[ "x" := numbersFrom 0 6; "y" := numbersFrom 10 6 ]}
          exampleSeries)).

(** The same points on a y axis, with y values of either sign. *)
Definition signedExample : Series :=
  {| proto := defaultProto; options := exampleOptions;
     dataArrays := {[ "x" := numbersFrom 0 3; "y" := [] ]};
     data := None; points := None; store := [];
     processedXData := numbersFrom 0 3;
     processedYData := [Num (-4); Num 0; Num 7];
     cropped := false; cropStart := 0;
     closestPointRange := Some 1%Z; basePointRange := Some 1%Z;
     xIncrement := None; pointInterval := None;
     isDirty := false; isDirtyData := false;
     xAxis := None;
     yAxis := Some (Axis.mk (Num 1) (Num 10) false true id Undefined Undefined);
     kdTree := Leaf; buildingKdTree := false; chart := exampleChart |}.

Lemma getExtremes_reads_numbers_of_yData_witness :
  let ys := default (processedYData extremesExample) None in
  let active := activeYData false None false extremesExample in
  Forall (fun v => isNumber v = true) active
  /\ (forall v, v ∈ active ->
        exists i y, ys !! i = Some y
                    /\ withinRange false extremesExample i = true
                    /\ (y = v \/ exists l, y = Arr l /\ v ∈ l)).
Proof.
  apply (getExtremes_reads_numbers_of_yData false false extremesExample None).
  right. intros H. vm_compute in H.
  repeat (apply elem_of_cons in H as [H|H]; [discriminate|]).
  by apply elem_of_nil in H.
Defined.

Lemma getExtremes_positive_values_only_witness :
  Forall (fun v => exists z, v = Num z /\ (0 < z)%Z)
         (activeYData true None false signedExample).
Proof.
  apply (getExtremes_positive_values_only true false signedExample None).
  - reflexivity.
  - repeat constructor.
Defined.

Lemma getExtremes_counts_points_in_range_witness :
  Num 12 ∈ activeYData false None false extremesExample.
Proof.
  apply (getExtremes_counts_points_in_range false false extremesExample None
           [0; 1; 2; 3; 4; 5]%Z 2 3 2 2 12).
  - vm_compute. reflexivity.
  - repeat (constructor; [|repeat constructor; lia]). constructor.
  - vm_compute. discriminate.
  - reflexivity.
  - reflexivity.
  - reflexivity.
  - lia.
  - vm_compute. reflexivity.
  - by left.
Defined.

(** ** processData: processing twice *)

Section ProcessTwice.

(** The processed data depends on the dimension arrays, the options, the
    prototype and the x axis only. *)
Lemma getProcessedData_depends f s s' :
  dataArrays s' = dataArrays s -> options s' = options s ->
  proto s' = proto s -> xAxis s' = xAxis s ->
  (getProcessedData f s').1 = (getProcessedData f s).1.
Proof.
  intros Ha Ho Hp Hx. unfold getProcessedData.
  assert (Hxs : xData s' = xData s) by (unfold xData, dataOf; by rewrite Ha).
  assert (Hys : yData s' = yData s) by (unfold yData, dataOf; by rewrite Ha).
  assert (Hg : cropGate f s' = cropGate f s)
    by (unfold cropGate; by rewrite Hxs, Ho, Hp).
  assert (Hmin : extremesMin s' = extremesMin s)
    by (unfold extremesMin; by rewrite Hx).
  assert (Hmax : extremesMax s' = extremesMax s)
    by (unfold extremesMax; by rewrite Hx).
  assert (Hout : outsideExtremes s' = outsideExtremes s)
    by (unfold outsideExtremes, firstX, lastX; by rewrite Hxs, Hmin, Hmax).
  assert (Hsp : spillsOut s' = spillsOut s)
    by (unfold spillsOut, firstX, lastX; by rewrite Hxs, Hmin, Hmax, Ha).
  assert (Hc : cropData (xData s') (yData s') (extremesMin s')
                        (extremesMax s') None s'
               = cropData (xData s) (yData s) (extremesMin s)
                          (extremesMax s) None s)
    by (unfold cropData; by rewrite Hxs, Hys, Hmin, Hmax, Hp).
  assert (Hlog : axisIsLog s' = axisIsLog s)
    by (unfold axisIsLog; by rewrite Hx).
  assert (Hlin : axisVal2lin s' = axisVal2lin s)
    by (unfold axisVal2lin; by rewrite Hx).
  rewrite Hg, Hout, Hsp, Hc, Hxs, Hys, Hlog, Hlin.
  destruct (if cropGate f s then _ else _) as [[[pxs pys] isCropped] start].
  pose proof (closestLoop_closest (axisIsLog s) (axisVal2lin s) pxs
                (length pxs - 1) None (Proto.requireSorting (proto s'))
                (chart s') (Proto.requireSorting (proto s)) (chart s)) as Hcl.
  destruct (closestLoop _ _ pxs _ (None, Proto.requireSorting (proto s'), _))
    as [[cl thr] c].
  destruct (closestLoop _ _ pxs _ _) as [[cl' thr'] c'].
  cbn [fst] in *. by subst.
Qed.

(** X23.  Processing is repeatable: a second forced [processData] finds the
    processed arrays, [cropped], [cropStart] and the closest point range
    that the first one left, and neither touches the dimension arrays. *)
Theorem processData_twice (s : Series) :
  let s1 := processData true s in
  let s2 := processData true s1 in
  processedXData s2 = processedXData s1
  /\ processedYData s2 = processedYData s1
  /\ cropped s2 = cropped s1 /\ cropStart s2 = cropStart s1
  /\ closestPointRange s2 = closestPointRange s1
  /\ dataArrays s2 = dataArrays s.
Proof.
  cbv zeta.
  assert (Hform : forall s0,
    let p := (getProcessedData false s0).1 in
    let s' := processData true s0 in
    processedXData s' = Processed.xData p
    /\ processedYData s' = Processed.yData p
    /\ cropped s' = Processed.cropped p
    /\ cropStart s' = Z.to_nat (Processed.cropStart p)
    /\ closestPointRange s' = Processed.closestPointRange p
    /\ dataArrays s' = dataArrays s0 /\ options s' = options s0
    /\ proto s' = proto s0 /\ xAxis s' = xAxis s0).
  { intros s0. cbv zeta. unfold processData.
    rewrite !andb_false_r.
    pose proof (getProcessedData_frame false s0) as H. cbv zeta in H.
    destruct (getProcessedData false s0) as [p s']. cbn [fst snd] in *.
    destruct H as (? & ? & _ & _ & _ & _ & ? & _ & _ & _ & ? & _).
    cbn. repeat split; done. }
  pose proof (Hform s) as (H1 & H2 & H3 & H4 & H5 & Ha & Ho & Hp & Hx).
  pose proof (Hform (processData true s))
    as (G1 & G2 & G3 & G4 & G5 & Ga & _).
  cbv zeta in *.
  rewrite (getProcessedData_depends false s (processData true s) Ha Ho Hp Hx)
    in G1, G2, G3, G4, G5.
  rewrite G1, G2, G3, G4, G5, Ga, H1, H2, H3, H4, H5, Ha. done.
Qed.

End ProcessTwice.

(** ** searchKDTree: the kind of point that is found *)

Section SearchFindsValidPoints.

Lemma _search_from_tree s compareX q t : forall depth dimensions r,
  _search s compareX q t depth dimensions = Some r ->
  exists p, p ∈ treePoints t /\ r = setDistance s q p.
Proof.
  induction t as [|l IHl pt r0 IHr]; intros depth dimensions r; [done|].
  cbn [_search treePoints].
  assert (Hl : forall r', _search s compareX q l (depth + 1) dimensions
                          = Some r' ->
               exists p, p ∈ treePoints l ++ pt :: treePoints r0
                         /\ r' = setDistance s q p).
  { intros r' H. destruct (IHl _ _ _ H) as (p & Hp & ->).
    exists p. split; [|done]. apply elem_of_app. by left. }
  assert (Hr : forall r', _search s compareX q r0 (depth + 1) dimensions
                          = Some r' ->
               exists p, p ∈ treePoints l ++ pt :: treePoints r0
                         /\ r' = setDistance s q p).
  { intros r' H. destruct (IHr _ _ _ H) as (p & Hp & ->).
    exists p. split; [|done]. apply elem_of_app. right.
    apply elem_of_cons. by right. }
  assert (Hpt : exists p, p ∈ treePoints l ++ pt :: treePoints r0
                          /\ setDistance s q pt = setDistance s q p).
  { exists pt. split; [|done]. apply elem_of_app. right.
    apply elem_of_cons. by left. }
  destruct (_search s compareX q l (depth + 1) dimensions) as [rl|];
    destruct (_search s compareX q r0 (depth + 1) dimensions) as [rr|];
    repeat match goal with
           | |- context [if ?b then _ else _] => destruct b
           | |- context [match ?x with Some _ => _ | None => _ end] =>
             destruct x
           end;
    intros [= <-]; eauto.
Qed.

(** X24.  A point that [searchKDTree] returns from a tree just built is one
    of the valid points of the series: it is visible, it is not a null
    point, and unless the series is of the [directTouch] kind it lies inside
    the plot area. *)
Theorem searchKDTree_returns_valid_point
    (q : KDPointSearchObject) (compareX touchstart : bool) (s : Series)
    (r : Point) :
  (searchKDTree q compareX touchstart (startRecursive s)).1 = Some r ->
  exists p,
    p ∈ pointsOf s /\ r = setDistance s q p
    /\ Point.visible r = true /\ Point.isNull r = false
    /\ (Proto.directTouch (proto s) = false ->
        Chart.isInsidePlot (chart s) (Point.plotX r) (Point.plotY r) = true).
Proof.
  intros Hfound.
  set (valid := getValidPoints None (negb (Proto.directTouch (proto s)))
                               false s).
  pose proof (kdtreeRec_shape s (kdDimensions s) (length valid) valid
                (kdDimensions s) ltac:(lia)) as (Hperm & _ & _ & _).
  assert (Htree : kdTree (startRecursive s)
                  = kdtreeRec (length valid) s valid (kdDimensions s)
                              (kdDimensions s)) by done.
  rewrite <- Htree in Hperm.
  unfold searchKDTree in Hfound.
  assert (Hb : buildingKdTree (startRecursive s) = false) by done.
  destruct (kdTree (startRecursive s)) as [|l pt r0] eqn:E.
  { (* no valid point: a second build finds none either *)
    simpl in Hperm. apply Permutation_nil_l in Hperm.
    rewrite Hb in Hfound. cbn [isLeaf negb andb] in Hfound.
    unfold buildKDTree in Hfound.
    set (s1 := set_kdTree Leaf (set_buildingKdTree true (startRecursive s)))
      in Hfound.
    destruct (Options.kdNow (options s1) || touchstart); [|done].
    cbn [fst] in Hfound.
    assert (Hleaf : kdTree (startRecursive s1) = Leaf).
    { unfold startRecursive. cbn [kdTree set_kdTree set_buildingKdTree].
      change (getValidPoints None (negb (Proto.directTouch (proto s1)))
                             false s1) with valid.
      by rewrite <- Hperm. }
    by rewrite Hleaf in Hfound. }
  cbn [isLeaf andb fst] in Hfound. rewrite E in Hfound.
  apply (_search_from_tree (startRecursive s)) in Hfound as (p & Hp & ->).
  rewrite Hperm in Hp. unfold valid, getValidPoints in Hp.
  cbn [default from_option id] in Hp.
  apply list_elem_of_In, filter_In in Hp as [Hin Hok].
  apply list_elem_of_In in Hin.
  exists p. split; [done|]. split; [done|].
  cbn [setDistance Point.set_dist Point.visible Point.isNull Point.plotX
       Point.plotY].
  cbn [andb orb] in Hok.
  destruct (Proto.directTouch (proto s)) eqn:Hd; cbn [negb andb] in Hok.
  - apply andb_true_iff in Hok as [Hv Hn]. apply negb_true_iff in Hn.
    split; [done|]. split; [done|]. done.
  - destruct (Chart.isInsidePlot (chart s) (Point.plotX p) (Point.plotY p))
      eqn:Hi; cbn [negb] in Hok; [|done].
    apply andb_true_iff in Hok as [Hv Hn]. apply negb_true_iff in Hn.
    split; [done|]. split; [done|]. done.
Qed.

Lemma searchKDTree_returns_valid_point_witness :
  let s := plottedSeries "xy" fourPoints in
  let q := KDSearch.mk (Some 0%Z) (Some 100%Z) in
  let r := setDistance s q (plottedPoint 1 5 10) in
  exists p,
    p ∈ pointsOf s /\ r = setDistance s q p
    /\ Point.visible r = true /\ Point.isNull r = false
    /\ (Proto.directTouch (proto s) = false ->
        Chart.isInsidePlot (chart s) (Point.plotX r) (Point.plotY r) = true).
Proof.
  apply (searchKDTree_returns_valid_point
           (KDSearch.mk (Some 0%Z) (Some 100%Z)) false false
           (plottedSeries "xy" fourPoints)).
  vm_compute. reflexivity.
Defined.

End SearchFindsValidPoints.

(** ** addPoint: the shift *)

Section AddPointShift.

Lemma splice_first {A} (l : list A) : splice l 0 1 [] = drop 1 l.
Proof.
  unfold splice, clamp_start. cbn [Z.ltb Z.compare Z.to_nat Nat.min take app].
  destruct l as [|a l]; [done|]. cbn [length].
  replace (Nat.min (Z.to_nat (Z.max 1 0)) (S (length l) - 0)) with 1
    by (cbn; lia).
  done.
Qed.

(** X25.  [addPoint] with [shift] does what [addPoint] without it does and
    then takes the first entry off every dimension array and off
    [options.data], whether the first point is materialized or not. *)
Theorem addPoint_shift_drops_first
    (o : Value) (s : Series) (dat : list (option nat)) :
  NoDup (Proto.parallelArrays (proto s)) ->
  data s = Some dat ->
  exists s0 s1,
    addPoint o false false s = Returned s0
    /\ addPoint o false true s = Returned s1
    /\ (forall key, key ∈ Proto.parallelArrays (proto s) ->
                    dataOf key s1 = drop 1 (dataOf key s0))
    /\ Options.data (options s1) = drop 1 (Options.data (options s0)).
Proof.
  intros Hnd Hd.
  pose proof (applyOptions_frame o s) as (Hfa & Hfp & Hfo & Hfd).
  unfold addPoint. destruct (applyOptions o s) as [pt sa].
  cbn [snd] in Hfa, Hfp, Hfo, Hfd.
  destruct (insertionIndex (get "x" pt) sa) as [i mid].
  set (s3 := updateParallelArrays pt (AtIndex i) []
               (updateParallelArrays pt (Method "splice")
                  [Num (Z.of_nat i); Num 0; Num 0] sa)).
  assert (H3 : proto s3 = proto s /\ data s3 = Some dat).
  { unfold s3. rewrite updateParallelArrays_arrays by done.
    rewrite (updateParallelArrays_arrays _ (Method "splice")) by done.
    cbn [proto data set_dataArrays]. by rewrite Hfd, Hd. }
  destruct H3 as (Hp3 & Hd3).
  set (s4 := set_options _ s3).
  assert (H4 : proto s4 = proto s /\ data s4 = Some dat)
    by (unfold s4; cbn; by rewrite Hp3, Hd3).
  destruct H4 as (Hp4 & Hd4).
  rewrite Hd4.
  set (s5 := if mid
             then processData false
                    (set_data (Some (splice dat (Z.of_nat i) 0 [None])) s4)
             else s4).
  assert (H5 : proto s5 = proto s /\ is_Some (data s5)).
  { unfold s5. destruct mid; [|by rewrite Hd4; eauto].
    match goal with
    | |- context [processData false ?x] =>
      pose proof (processData_frame false x) as (_ & _ & -> & _ & _ & _ & ->)
    end. cbn. by eauto. }
  destruct H5 as (Hp5 & Hd5).
  replace (if mid then Returned (processData false _) else Returned s4)
    with (Returned s5) by (unfold s5; by destruct mid).
  cbn iota beta.
  set (sL := if bool_decide (Options.legendType (options s5) = Some "point")
             then generatePoints s5 else s5).
  assert (HL : proto sL = proto s /\ is_Some (data sL)).
  { unfold sL. case_bool_decide; [|done]. destruct Hd5 as [d5 Hd5].
    pose proof (generatePoints_frame s5) as (_ & _ & _ & -> & _).
    split; [done|]. by eapply generatePoints_data_Some. }
  destruct HL as (HpL & [datL HdL]).
  rewrite Hd, HdL.
  (* the dimension arrays once the entry at index 0 is taken off *)
  assert (Hdrop : forall (point : Fields) (name : string) (args : list Value)
                         (s' : Series) key,
    (name = "splice" /\ args = [Num 0; Num 1]) \/ (name = "shift" /\ args = [])
    -> proto s' = proto s -> dataArrays s' = dataArrays sL ->
    key ∈ Proto.parallelArrays (proto s) ->
    dataOf key (updateParallelArrays point (Method name) args s')
    = drop 1 (dataOf key sL)).
  { intros point name args s' key Hm Hp' Ha' Hkey.
    rewrite dataOf_updateParallelArrays; try (by rewrite Hp').
    2:{ by destruct Hm as [[-> ->]|[-> ->]]. }
    unfold dataOf at 1. rewrite Ha'. fold (dataOf key sL).
    destruct Hm as [[-> ->]|[-> ->]]; cbn; [apply splice_first|done]. }
  destruct (nth_or_hole None datL 0) as [r|] eqn:E0.
  - unfold removePoint. rewrite HdL, E0.
    eexists _, _. split; [reflexivity|]. split; [reflexivity|].
    split.
    + intros key Hkey.
      unfold dataOf at 1 2. cbn [dataArrays set_dirty set_store].
      match goal with
      | |- context [updateParallelArrays ?p (Method "splice") ?a ?x] =>
        fold (dataOf key (updateParallelArrays p (Method "splice") a x));
        rewrite (Hdrop p "splice" a x key)
      end; try done; [by left| |].
      * cbn [proto set_options set_data]. by destruct (points sL) as [?|];
          [case_bool_decide|].
      * cbn [dataArrays set_options set_data]. by destruct (points sL) as [?|];
          [case_bool_decide|].
    + cbn [options set_dirty set_store].
      rewrite updateParallelArrays_arrays by done.
      cbn [options set_dataArrays set_options Options.data Options.set_data].
      rewrite splice_first.
      by destruct (points sL) as [?|]; [case_bool_decide|].
  - eexists _, _. split; [reflexivity|]. split; [reflexivity|].
    split.
    + intros key Hkey.
      unfold dataOf at 1 2. cbn [dataArrays set_dirty set_options].
      match goal with
      | |- context [updateParallelArrays ?p (Method "shift") ?a ?x] =>
        fold (dataOf key (updateParallelArrays p (Method "shift") a x));
        rewrite (Hdrop p "shift" a x key)
      end; try done. by right.
    + cbn [options set_dirty set_options Options.data Options.set_data].
      rewrite updateParallelArrays_arrays by done.
      cbn [options set_dataArrays set_data]. done.
Qed.

Lemma addPoint_shift_drops_first_witness :
  exists s0 s1,
    addPoint (Arr [Num 30; Num 4]) false false freshSeries = Returned s0
    /\ addPoint (Arr [Num 30; Num 4]) false true freshSeries = Returned s1
    /\ (forall key, key ∈ Proto.parallelArrays (proto freshSeries) ->
                    dataOf key s1 = drop 1 (dataOf key s0))
    /\ Options.data (options s1) = drop 1 (Options.data (options s0)).
Proof.
  apply (addPoint_shift_drops_first (Arr [Num 30; Num 4]) freshSeries []).
  - by_evaluation.
  - vm_compute. reflexivity.
Defined.

End AddPointShift.

(** ** bindAxes: the axis that a series is bound to *)

Section BindAxesFacts.
Import BindAxes.

(** The number of axes in front of position [q] that are not internal:
    the value of the counter [index] when the loop reaches [q]. *)
Definition countPublic (axes : list AxisEntry) (q : nat) : Z :=
  Z.of_nat (length (List.filter (fun a => negb (isInternal a))
                                (take q axes))).

Lemma countPublic_0 axes : countPublic axes 0 = 0%Z.
Proof. unfold countPublic. by rewrite take_0. Qed.

Lemma countPublic_S a axes q :
  countPublic (a :: axes) (S q)
  = ((if isInternal a then 0 else 1) + countPublic axes q)%Z.
Proof.
  unfold countPublic. cbn [take List.filter].
  destruct (isInternal a); cbn [negb length]; lia.
Qed.

Lemma countPublic_mono axes : forall q q',
  q <= q' -> (countPublic axes q <= countPublic axes q')%Z.
Proof.
  induction axes as [|a axes IH]; intros q q' Hq.
  { unfold countPublic. by rewrite !take_nil. }
  destruct q as [|q].
  - rewrite countPublic_0. unfold countPublic. lia.
  - destruct q' as [|q']; [lia|]. rewrite !countPublic_S.
    specialize (IH q q' ltac:(lia)). lia.
Qed.

Lemma countPublic_step axes : forall q a,
  axes !! q = Some a -> isInternal a = false ->
  countPublic axes (S q) = (countPublic axes q + 1)%Z.
Proof.
  induction axes as [|a0 axes IH]; intros q a Hq Ha; [done|].
  destruct q as [|q].
  - injection Hq as ->. rewrite countPublic_S, !countPublic_0, Ha. lia.
  - rewrite !countPublic_S. rewrite (IH q a Hq Ha). lia.
Qed.

Lemma bindLoop_spec me opt axes : forall pos idx bound,
  let r := bindLoop me opt pos idx bound axes in
  let hitAt q a := matches opt (idx + countPublic axes q) a in
  length r.1 = length axes
  /\ (forall q a, axes !! q = Some a ->
                  r.1 !! q = Some (if hitAt q a then bind me a else a))
  /\ (forall q a, axes !! q = Some a -> hitAt q a = true ->
                  (forall q' a', q < q' -> axes !! q' = Some a' ->
                                 hitAt q' a' = false) ->
                  r.2 = Some (pos + q))
  /\ ((forall q a, axes !! q = Some a -> hitAt q a = false) ->
      r.2 = bound).
Proof.
  induction axes as [|axis rest IH]; intros pos idx bound; cbv zeta.
  { cbn [bindLoop fst snd]. repeat split; done. }
  cbn [bindLoop].
  set (idx' := if isInternal axis then idx else (idx + 1)%Z).
  set (bound' := if matches opt idx axis then Some pos else bound).
  specialize (IH (S pos) idx' bound'). cbv zeta in IH.
  destruct (bindLoop me opt (S pos) idx' bound' rest) as [rest' b] eqn:E.
  cbn [fst snd] in *.
  destruct IH as (Hlen & Hat & Hlast & Hnone).
  assert (Hidx : forall q,
    (idx + countPublic (axis :: rest) (S q) = idx' + countPublic rest q)%Z).
  { intros q. rewrite countPublic_S. unfold idx'.
    destruct (isInternal axis); lia. }
  split; [cbn [length]; by rewrite Hlen|]. split; [|split].
  - intros [|q] a Hq.
    + injection Hq as ->. rewrite countPublic_0, Z.add_0_r. done.
    + cbn [lookup list_lookup]. rewrite Hidx. by apply Hat.
  - intros [|q] a Hq Hhit Hlater.
    + injection Hq as ->. rewrite countPublic_0, Z.add_0_r in Hhit.
      rewrite Hnone.
      * unfold bound'. by rewrite Hhit, Nat.add_0_r.
      * intros q' a' Hq'. rewrite <- Hidx.
        apply (Hlater (S q') a'); [lia|done].
    + rewrite Hidx in Hhit.
      rewrite (Hlast q a Hq Hhit).
      * f_equal. lia.
      * intros q' a' Hlt Hq'. rewrite <- Hidx.
        apply (Hlater (S q') a'); [lia|done].
  - intros Hno. rewrite Hnone.
    + unfold bound'. specialize (Hno 0 axis eq_refl).
      rewrite countPublic_0, Z.add_0_r in Hno. by rewrite Hno.
    + intros q a Hq. rewrite <- Hidx. by apply (Hno (S q) a).
Qed.

Lemma bindAxis_spec
    (me : Insert.Entry) (axisOption : Value) (optional : bool)
    (bound : option nat) (axes : list AxisEntry) :
  let hitAt q a := matches axisOption (countPublic axes q) a in
  let axes' := (bindAxis me axisOption optional bound axes).1.1 in
  let bound' := (bindAxis me axisOption optional bound axes).1.2 in
  let thrown := (bindAxis me axisOption optional bound axes).2 in
  length axes' = length axes
  /\ (forall q a, axes !! q = Some a ->
                  axes' !! q = Some (if hitAt q a then bind me a else a))
  /\ (forall q a, axes !! q = Some a -> hitAt q a = true ->
                  (forall q' a', q < q' -> axes !! q' = Some a' ->
                                 hitAt q' a' = false) ->
                  bound' = Some q)
  /\ ((forall q a, axes !! q = Some a -> hitAt q a = false) ->
      bound' = bound)
  /\ (thrown = true <-> bound' = None /\ optional = false).
Proof.
  cbv zeta. unfold bindAxis.
  pose proof (bindLoop_spec me axisOption axes 0 0 bound) as H.
  cbv zeta in H.
  destruct (bindLoop me axisOption 0 0 bound axes) as [axes' bound'].
  cbn [fst snd] in *. destruct H as (H1 & H2 & H3 & H4).
  split; [done|]. split; [done|]. split; [done|]. split; [done|].
  destruct bound', optional; cbn; split; try done; intros [? ?]; done.
Qed.

(** X26.  For one kind of axis, [bindAxes] inserts the series into every
    axis that passes the test and marks it dirty, leaves the other axes as
    they are, and binds the series to the last axis that passed; without
    such an axis the binding is the one it had, and error 18 is thrown
    exactly when the series is then without an axis of a kind that is not
    optional. *)
Theorem bindAxis_binds_matching_axes
    (me : Insert.Entry) (axisOption : Value) (optional : bool)
    (bound : option nat) (axes : list AxisEntry) :
  let hitAt q a := matches axisOption (countPublic axes q) a in
  let axes' := (bindAxis me axisOption optional bound axes).1.1 in
  let bound' := (bindAxis me axisOption optional bound axes).1.2 in
  let thrown := (bindAxis me axisOption optional bound axes).2 in
  length axes' = length axes
  /\ (forall q a, axes !! q = Some a ->
                  axes' !! q = Some (if hitAt q a then bind me a else a))
  /\ (forall q a, axes !! q = Some a -> hitAt q a = true ->
                  (forall q' a', q < q' -> axes !! q' = Some a' ->
                                 hitAt q' a' = false) ->
                  bound' = Some q)
  /\ ((forall q a, axes !! q = Some a -> hitAt q a = false) ->
      bound' = bound)
  /\ (thrown = true <-> bound' = None /\ optional = false).
Proof. apply bindAxis_spec. Qed.

(** X27.  A series whose axis option is the number [n] is bound to the
    axis in front of which stand [n] axes that are not internal, itself not
    internal, whatever [options.index] the axes have, as long as no axis
    has that number as its [id]; no other axis is touched, and when there is
    no such axis the series keeps the binding it had. *)
Theorem bindAxis_by_number
    (me : Insert.Entry) (n : Z) (optional : bool)
    (bound : option nat) (axes : list AxisEntry) :
  Forall (fun a => strictEq (Num n) (id a) = false) axes ->
  let axes' := (bindAxis me (Num n) optional bound axes).1.1 in
  let bound' := (bindAxis me (Num n) optional bound axes).1.2 in
  (forall p a, axes !! p = Some a -> isInternal a = false ->
               countPublic axes p = n ->
               bound' = Some p /\ axes' !! p = Some (bind me a)
               /\ forall q, q <> p -> axes' !! q = axes !! q)
  /\ ((forall p a, axes !! p = Some a -> isInternal a = false ->
                   countPublic axes p <> n) ->
      bound' = bound /\ axes' = axes).
Proof.
  intros Hid.
  pose proof (bindAxis_spec me (Num n) optional bound axes)
    as (Hlen & Hat & Hlast & Hnone & _).
  cbv zeta in *.
  set (axes' := (bindAxis me (Num n) optional bound axes).1.1) in *.
  set (bound' := (bindAxis me (Num n) optional bound axes).1.2) in *.
  assert (Hhit : forall q a, axes !! q = Some a ->
    matches (Num n) (countPublic axes q) a
    = (n =? countPublic axes q)%Z && negb (isInternal a)).
  { intros q a Hq. unfold matches.
    rewrite Forall_forall in Hid.
    rewrite (Hid a (list_elem_of_lookup_2 _ _ _ Hq)).
    cbn [strictEq isUndefined negb andb orb]. by rewrite !orb_false_r. }
  split.
  - intros p a Hp Hpub Hcount.
    assert (Hpm : matches (Num n) (countPublic axes p) a = true).
    { rewrite (Hhit p a Hp), Hpub, Hcount, Z.eqb_refl. done. }
    assert (Hother : forall q a', q <> p -> axes !! q = Some a' ->
              matches (Num n) (countPublic axes q) a' = false).
    { intros q a' Hne Hq. rewrite (Hhit q a' Hq).
      destruct (isInternal a') eqn:Hi; [by rewrite andb_false_r|].
      apply andb_false_iff. left. apply Z.eqb_neq.
      destruct (decide (q < p)) as [Hlt|Hge].
      - pose proof (countPublic_step axes q a' Hq Hi).
        pose proof (countPublic_mono axes (S q) p ltac:(lia)). lia.
      - pose proof (countPublic_step axes p a Hp Hpub).
        pose proof (countPublic_mono axes (S p) q ltac:(lia)). lia. }
    split; [|split].
    + apply (Hlast p a Hp Hpm). intros q' a' Hlt Hq'.
      apply Hother; [lia|done].
    + by rewrite (Hat p a Hp), Hpm.
    + intros q Hne. destruct (axes !! q) as [a'|] eqn:Hq.
      * by rewrite (Hat q a' Hq), (Hother q a' Hne Hq).
      * apply lookup_ge_None. rewrite Hlen. by apply lookup_ge_None.
  - intros Hno.
    assert (Hnever : forall q a, axes !! q = Some a ->
              matches (Num n) (countPublic axes q) a = false).
    { intros q a Hq. rewrite (Hhit q a Hq).
      destruct (isInternal a) eqn:Hi; [by rewrite andb_false_r|].
      apply andb_false_iff. left. apply Z.eqb_neq.
      intros Heq. by apply (Hno q a Hq Hi). }
    split; [by apply Hnone|].
    apply list_eq. intros q. destruct (axes !! q) as [a|] eqn:Hq.
    + by rewrite (Hat q a Hq), (Hnever q a Hq).
    + apply lookup_ge_None. rewrite Hlen. by apply lookup_ge_None.
Qed.

(** Three axes, the second of them internal; the series asks for axis 1. *)
Definition threeAxes : list AxisEntry :=
  [mk false (Str "main") (Num 0) [] false;
   mk true Undefined (Num 1) [] false;
   mk false (Str "side") (Num 2) [] false].

Lemma bindAxis_by_number_witness :
  let me := Insert.mk None 0 in
  let axes' := (bindAxis me (Num 1) false None threeAxes).1.1 in
  let bound' := (bindAxis me (Num 1) false None threeAxes).1.2 in
  (forall p a, threeAxes !! p = Some a -> isInternal a = false ->
               countPublic threeAxes p = 1%Z ->
               bound' = Some p /\ axes' !! p = Some (bind me a)
               /\ forall q, q <> p -> axes' !! q = threeAxes !! q)
  /\ ((forall p a, threeAxes !! p = Some a -> isInternal a = false ->
                   countPublic threeAxes p <> 1%Z) ->
      bound' = None /\ axes' = threeAxes).
Proof.
  apply (bindAxis_by_number (Insert.mk None 0) 1 false None threeAxes).
  repeat constructor.
Defined.

End BindAxesFacts.
